(** * Banda: reactive state, plugins, table, forms, date picker, modal

    A shallow embedding of the parts of the Banda UI library that its
    specification makes promises about, followed by the theorems that
    settle those promises.

    Conventions of the embedding:
    - a JavaScript closure-captured [let] variable becomes a field of a
      record that is threaded through the operations;
    - a JavaScript function value is identified by a name (a [nat] or a
      constructor), because [Set] membership, [===] and listener removal
      all go by function identity;
    - module-level mutable variables ([batchDepth], [activeModal], the
      plugin maps) become fields of an explicit program state;
    - loops over a collection that the loop body may change carry fuel;
      [None] then means that the fuel ran out, never that the code threw. *)

From Stdlib Require Import ZArith Lia Bool.
From stdpp Require Import base option list strings gmap sorting.

Open Scope Z_scope.

(* ===================================================================== *)
(** * ECMAScript [Set], as far as [createState] uses it                  *)
(* ===================================================================== *)

Module JSSet.

(** [[SetData]] of the ECMAScript specification: the entries in insertion
    order.  [delete] does not shrink the list, it replaces the entry by
    the marker ~empty~ (here [None]); that is what keeps a running
    iterator's index meaningful. *)
Abbreviation SetData A := (list (option A)).

Section JSSet.
Context {A : Type} `{EqDecision A}.

Definition has (x : A) (s : SetData A) : bool :=
  bool_decide (Some x ∈ s).

(** [Set.prototype.add]: nothing happens when the value is present,
    otherwise it is appended. *)
Definition add (x : A) (s : SetData A) : SetData A :=
  if has x s then s else s ++ [Some x].

(** [Set.prototype.delete]: the matching entry becomes ~empty~. *)
Definition delete (x : A) (s : SetData A) : SetData A :=
  (fun e => if decide (e = Some x) then None else e) <$> s.

(** No value is stored twice: the invariant of [[SetData]]. *)
Definition wf (s : SetData A) : Prop :=
  forall i j x, s !! i = Some (Some x) -> s !! j = Some (Some x) -> i = j.

(** The values a fresh iteration visits, in order. *)
Definition values (s : SetData A) : list A := omap id s.
End JSSet.

Section ForOf.
Context {A W : Type}.
(** The set under iteration is read from the program state at every
    step, because the loop body may add to it and delete from it. *)
Variable entries : W -> SetData A.
Variable body : A -> W -> option W.

(** [for (const x of set) body(x)].  The iterator keeps an index into
    [[SetData]]; it skips ~empty~ entries and stops when the index
    reaches the current number of entries, so entries appended during
    the loop are visited too. *)
Fixpoint for_of (fuel idx : nat) (w : W) : option W :=
  match fuel with
  | O => None
  | S fuel' =>
      match entries w !! idx with
      | None => Some w
      | Some None => for_of fuel' (S idx) w
      | Some (Some x) =>
          match body x w with
          | Some w' => for_of fuel' (S idx) w'
          | None => None
          end
      end
  end.
End ForOf.
End JSSet.

(* ===================================================================== *)
(** * src/core/state.ts                                                  *)
(* ===================================================================== *)

Module State.
Section State.
(** [T] is the type of the values held; [strict_eq] is JavaScript's
    [===] on it.  Nothing is assumed about [strict_eq]: it is not
    reflexive at [NaN], and on objects it compares references. *)
Context {T : Type} (strict_eq : T -> T -> bool).
(** [Cb] names the subscriber functions. *)
Context {Cb : Type} `{EqDecision Cb}.

(** The two variables that the closures of [createState] share. *)
Record State := mkState {
  value : T;
  subscribers : JSSet.SetData Cb
}.

Definition createState (initialValue : T) : State :=
  {| value := initialValue; subscribers := [] |}.

(** The argument of [set]: [typeof newValue === 'function'] or not. *)
Inductive SetArg :=
| Literal (v : T)
| Updater (f : T -> T).

(** A [State] object that lives inside a program state [W]. *)
Record Ref (W : Type) := mkRef {
  sel : W -> State;
  upd : State -> W -> W
}.
Arguments sel {W}.
Arguments upd {W}.

Section Methods.
Context {W : Type}.
Variable r : Ref W.
(** What calling the subscriber named [cb] with [(value, prevValue)]
    does to the program. *)
Variable call : Cb -> T -> T -> W -> option W.

Definition get (w : W) : T := value (sel r w).

Definition set (fuel : nat) (newValue : SetArg) (w : W) : option W :=
  let prevValue := value (sel r w) in
  let v := match newValue with
           | Updater f => f prevValue
           | Literal x => x
           end in
  let w1 := upd r {| value := v; subscribers := subscribers (sel r w) |} w in
  (* Only notify if value changed *)
  if negb (strict_eq v prevValue)
  then JSSet.for_of (fun w => subscribers (sel r w))
                    (fun subscriber w => call subscriber (value (sel r w)) prevValue w)
                    fuel 0%nat w1
  else Some w1.

Definition subscribe (callback : Cb) (w : W) : W :=
  upd r {| value := value (sel r w);
           subscribers := JSSet.add callback (subscribers (sel r w)) |} w.

(** The function that [subscribe] returns. *)
Definition unsubscribe (callback : Cb) (w : W) : W :=
  upd r {| value := value (sel r w);
           subscribers := JSSet.delete callback (subscribers (sel r w)) |} w.
End Methods.
End State.
Arguments State : clear implicits.
Arguments Ref : clear implicits.
Arguments SetArg : clear implicits.
Arguments sel {T Cb W}.
Arguments upd {T Cb W}.

(** ** A single state cell with subscribers that subscribe and unsubscribe

    The program state is the cell and a record of the calls made.  What a
    subscriber does when called is a list of [subscribe]/[unsubscribe]
    operations on the same cell, given by [act]. *)
Section Cell.
Context {T : Type} (strict_eq : T -> T -> bool).

Inductive action :=
| ASubscribe (cb : nat)
| AUnsubscribe (cb : nat).

Record cellWorld := mkCellWorld {
  cell : State T nat;
  calls : list (nat * T * T)      (* subscriber, value, prevValue *)
}.

Definition cellRef : Ref T nat cellWorld :=
  {| sel := cell;
     upd := fun s w => {| cell := s; calls := calls w |} |}.

Definition perform (a : action) (w : cellWorld) : cellWorld :=
  match a with
  | ASubscribe cb => subscribe cellRef cb w
  | AUnsubscribe cb => unsubscribe cellRef cb w
  end.

Variable act : nat -> list action.

Definition cellCall (cb : nat) (v prev : T) (w : cellWorld) : option cellWorld :=
  Some (foldl (fun w a => perform a w)
              {| cell := cell w; calls := calls w ++ [(cb, v, prev)] |}
              (act cb)).

Definition cellSet (fuel : nat) (x : SetArg T) (w : cellWorld) : option cellWorld :=
  set strict_eq cellRef cellCall fuel x w.

(** What the calls of a subscriber do to the entries of the set. *)
Definition applyActions (l : list action) (s : JSSet.SetData nat) : JSSet.SetData nat :=
  foldl (fun s a => match a with
                    | ASubscribe cb => JSSet.add cb s
                    | AUnsubscribe cb => JSSet.delete cb s
                    end) s l.

(** Whether the subscriber subscribes anything when it is called. *)
Definition spawns (cb : nat) : bool :=
  existsb (fun a => match a with ASubscribe _ => true | AUnsubscribe _ => false end)
          (act cb).

(** The notification loop seen on the entries alone: the subscribers it
    calls, in order, and the entries it leaves.  [for_of_visit] below
    shows that this is what the loop of [set] does. *)
Fixpoint visit (fuel idx : nat) (s : JSSet.SetData nat)
  : option (list nat * JSSet.SetData nat) :=
  match fuel with
  | O => None
  | S fuel' =>
      match s !! idx with
      | None => Some ([], s)
      | Some None => visit fuel' (S idx) s
      | Some (Some cb) =>
          match visit fuel' (S idx) (applyActions (act cb) s) with
          | Some (called, s') => Some (cb :: called, s')
          | None => None
          end
      end
  end.

(** The entries from position [idx] on that hold a subscriber which
    subscribes something when called. *)
Definition spawnersAhead (idx : nat) (s : JSSet.SetData nat) : nat :=
  length (filter (fun e => from_option spawns false e = true) (drop idx s)).

(** The subscribers that the notification of [set(x)] calls, when it
    finishes with the given fuel. *)
Definition notifiedBy (fuel : nat) (x : T) (s : State T nat) : option (list nat) :=
  (fun w => (fun c => c.1.1) <$> calls w)
  <$> cellSet fuel (Literal x) {| cell := s; calls := [] |}.

(** [set(x); set(x)] *)
Definition setTwice (fuel : nat) (x : T) (w : cellWorld) : option cellWorld :=
  cellSet fuel (Literal x) w ≫= cellSet fuel (Literal x).

(** How often the subscriber [cb] was called. *)
Definition timesCalled (cb : nat) (w : cellWorld) : nat :=
  length (filter (fun c => c.1.1 = cb) (calls w)).

(** [s = createState(init); s.subscribe(fn)] *)
Definition watched (init : T) (fn : nat) : cellWorld :=
  subscribe cellRef fn {| cell := createState init; calls := [] |}.
End Cell.
Arguments action : clear implicits.
Arguments cellWorld : clear implicits.

(** A subscriber that, whenever it is called, subscribes a callback that
    has not been seen before and behaves in the same way. *)
Definition chain (cb : nat) : list action := [ASubscribe (S cb)].

(** Three subscribers; the first, when called, unsubscribes the second
    and subscribes a new one. *)
Definition busy (cb : nat) : list action :=
  match cb with
  | 1%nat => [AUnsubscribe 2; ASubscribe 4]
  | _ => []
  end.

Definition three : State Z nat :=
  {| value := 0; subscribers := [Some 1%nat; Some 2%nat; Some 3%nat] |}.

(** ** createComputed

    The dependencies are [State] objects of the program; in this model
    they all hold values of one type, and [compute] receives the list of
    their current values in the order of [dependencies]. *)
Section Computed.
Context {T : Type} (strict_eq : T -> T -> bool).
Context {Cb : Type} `{EqDecision Cb}.

(** The two variables shared by the closures of [createComputed].  The
    subscribers of a computed state are named by numbers. *)
Record Computed := mkComputed {
  cachedValue : T;
  csubscribers : JSSet.SetData nat
}.

Context {W : Type}.
Variable dependencies : list (Ref T Cb W).
Variable compute : list T -> T.
(** Where the computed state lives in the program state. *)
Variable csel : W -> Computed.
Variable cupd : Computed -> W -> W.
(** The name of the closure subscribed to the [i]-th dependency. *)
Variable listener : nat -> Cb.
(** Calling a subscriber of the computed state. *)
Variable call : nat -> T -> T -> W -> option W.

Definition getValue (w : W) : T :=
  compute ((fun dep => get dep w) <$> dependencies).

(** The body of the closure passed to [dep.subscribe]. *)
Definition onDependency (fuel : nat) (w : W) : option W :=
  let prevValue := cachedValue (csel w) in
  let w1 := cupd {| cachedValue := getValue w;
                    csubscribers := csubscribers (csel w) |} w in
  if negb (strict_eq (cachedValue (csel w1)) prevValue)
  then JSSet.for_of (fun w => csubscribers (csel w))
                    (fun subscriber w =>
                       call subscriber (cachedValue (csel w)) prevValue w)
                    fuel 0%nat w1
  else Some w1.

Definition createComputed (w : W) : W :=
  let w1 := cupd {| cachedValue := getValue w; csubscribers := [] |} w in
  (* Subscribe to all dependencies *)
  foldl (fun w id => subscribe id.2 (listener id.1) w) w1
        (imap (fun i dep => (i, dep)) dependencies).

Definition cget (w : W) : T := cachedValue (csel w).

Definition csubscribe (callback : nat) (w : W) : W :=
  cupd {| cachedValue := cachedValue (csel w);
          csubscribers := JSSet.add callback (csubscribers (csel w)) |} w.
End Computed.
Arguments Computed : clear implicits.

(** ** batch / isBatching / queueBatchCallback

    [batchDepth] and [batchQueue] are module-level variables.  The queued
    callbacks are named by numbers and run by [run]. *)
Section Batch.
Record Batch := mkBatch {
  batchDepth : nat;
  batchQueue : list nat
}.

Context {W : Type}.
Variable bsel : W -> Batch.
Variable bupd : Batch -> W -> W.
Variable run : nat -> W -> option W.

Fixpoint runQueue (queue : list nat) (w : W) : option W :=
  match queue with
  | [] => Some w
  | callback :: rest =>
      match run callback w with
      | Some w' => runQueue rest w'
      | None => None
      end
  end.

Definition batch (fn : W -> option W) (w : W) : option W :=
  let w1 := bupd {| batchDepth := S (batchDepth (bsel w));
                    batchQueue := batchQueue (bsel w) |} w in
  match fn w1 with
  | None => None
  | Some w2 =>
      let w3 := bupd {| batchDepth := Nat.pred (batchDepth (bsel w2));
                        batchQueue := batchQueue (bsel w2) |} w2 in
      if Nat.eqb (batchDepth (bsel w3)) 0
      then let queue := batchQueue (bsel w3) in
           runQueue queue (bupd {| batchDepth := batchDepth (bsel w3);
                                   batchQueue := [] |} w3)
      else Some w3
  end.

Definition isBatching (w : W) : bool :=
  negb (Nat.eqb (batchDepth (bsel w)) 0).

Definition queueBatchCallback (fn : nat) (w : W) : option W :=
  if negb (Nat.eqb (batchDepth (bsel w)) 0)
  then Some (bupd {| batchDepth := batchDepth (bsel w);
                     batchQueue := batchQueue (bsel w) ++ [fn] |} w)
  else run fn w.
End Batch.

(** ** Programs that queue callbacks

    A step of such a program calls [queueBatchCallback] with a callback,
    calls a callback directly, or runs a nested [batch] around further
    steps.  A callback records that it ran. *)
Module Queue.
Record world := mkWorld {
  batching : Batch;
  ran : list nat
}.

Definition updBatch (x : Batch) (w : world) : world :=
  {| batching := x; ran := ran w |}.

Definition run (n : nat) (w : world) : option world :=
  Some {| batching := batching w; ran := ran w ++ [n] |}.

Unset Elimination Schemes.
Inductive step :=
| Enqueue (n : nat)
| Direct (n : nat)
| Nested (body : list step).
Set Elimination Schemes.

Fixpoint exec (s : step) (w : world) {struct s} : option world :=
  match s with
  | Enqueue n => queueBatchCallback batching updBatch run n w
  | Direct n => run n w
  | Nested body =>
      batch batching updBatch run
            ((fix all (l : list step) (w : world) {struct l} : option world :=
                match l with
                | [] => Some w
                | s :: l' =>
                    match exec s w with
                    | Some w' => all l' w'
                    | None => None
                    end
                end) body) w
  end.

Fixpoint execAll (l : list step) (w : world) : option world :=
  match l with
  | [] => Some w
  | s :: l' =>
      match exec s w with
      | Some w' => execAll l' w'
      | None => None
      end
  end.

(** The callbacks that a step inside a batch calls at once, and those it
    leaves in the queue, in order. *)
Fixpoint direct (s : step) : list nat :=
  match s with
  | Enqueue _ => []
  | Direct n => [n]
  | Nested body => flat_map direct body
  end.

Fixpoint queued (s : step) : list nat :=
  match s with
  | Enqueue n => [n]
  | Direct _ => []
  | Nested body => flat_map queued body
  end.
End Queue.

(** ** createPersistentState

    [localStorage] is a map from keys to strings.  [stringify] and
    [parse] are [JSON.stringify] and [JSON.parse] at the type of the
    values; [parse] gives [None] where [JSON.parse] throws.  [accepts]
    says whether [setItem] stores the item or throws, as a full storage
    does. *)
Inductive pcallback :=
| Persist                           (* the subscriber that writes to localStorage *)
| Observer (n : nat).

#[global] Instance pcallback_eq_dec : EqDecision pcallback.
Proof. solve_decision. Defined.

Section Persistent.
Context {T : Type} (strict_eq : T -> T -> bool).
Variable stringify : T -> string.
Variable parse : string -> option T.
Variable accepts : gmap string string -> string -> string -> bool.

Record pworld := mkPWorld {
  pcell : State T pcallback;
  localStorage : gmap string string;
  observed : list (nat * T * T)
}.

Definition pref : Ref T pcallback pworld :=
  {| sel := pcell;
     upd := fun s w => {| pcell := s; localStorage := localStorage w;
                          observed := observed w |} |}.

Variable key : string.

Definition pcall (cb : pcallback) (v prev : T) (w : pworld) : option pworld :=
  match cb with
  | Persist =>
      (* try { localStorage.setItem(key, JSON.stringify(value)) } catch { } *)
      Some (if accepts (localStorage w) key (stringify v)
            then {| pcell := pcell w;
                    localStorage := <[key := stringify v]> (localStorage w);
                    observed := observed w |}
            else w)
  | Observer n =>
      Some {| pcell := pcell w; localStorage := localStorage w;
              observed := observed w ++ [(n, v, prev)] |}
  end.

Definition createPersistentState (defaultValue : T) (storage : gmap string string)
  : pworld :=
  let initial := match storage !! key with
                 | Some stored =>
                     match parse stored with
                     | Some v => v
                     | None => defaultValue     (* use default if parsing fails *)
                     end
                 | None => defaultValue
                 end in
  subscribe pref Persist
            {| pcell := createState initial; localStorage := storage; observed := [] |}.

Definition pset (fuel : nat) (newValue : SetArg T) (w : pworld) : option pworld :=
  set strict_eq pref pcall fuel newValue w.
End Persistent.
Arguments pworld : clear implicits.

(** ** The program of the specification's example

    [a = createState(0); b = createState(0);
     c = createComputed([a, b], (x, y) => x + y); c.subscribe(fn)]. *)
Module Sum.
(** The functions subscribed to [a] and [b]: user callbacks, and the
    closures that [createComputed] installs. *)
Inductive callback :=
| User (n : nat)
| Listener (i : nat).

#[global] Instance callback_eq_dec : EqDecision callback.
Proof. solve_decision. Defined.

Record world := mkWorld {
  a : State Z callback;
  b : State Z callback;
  c : Computed Z;
  batching : Batch;
  notified : list (nat * Z * Z)     (* user callback, value, prevValue *)
}.

Definition refA : Ref Z callback world :=
  {| sel := a;
     upd := fun s w => {| a := s; b := b w; c := c w;
                          batching := batching w; notified := notified w |} |}.
Definition refB : Ref Z callback world :=
  {| sel := b;
     upd := fun s w => {| a := a w; b := s; c := c w;
                          batching := batching w; notified := notified w |} |}.
Definition updC (x : Computed Z) (w : world) : world :=
  {| a := a w; b := b w; c := x;
     batching := batching w; notified := notified w |}.
Definition updBatch (x : Batch) (w : world) : world :=
  {| a := a w; b := b w; c := c w;
     batching := x; notified := notified w |}.

(** The numbers of this program are integers.  On the integers that
    [Number.isSafeInteger] accepts, [!==] is the inequality of integers,
    and [+] is their addition as long as the sum is such an integer too;
    beyond them [+] rounds, which [sum] below does not follow.  What is
    proved for all inputs assumes that they and their sum are safe. *)
Definition isSafeInteger (n : Z) : bool :=
  (- 9007199254740991 <=? n) && (n <=? 9007199254740991).

Definition strictEqZ (x y : Z) : bool := Z.eqb x y.

(** A user callback only records that it was called. *)
Definition callUser (n : nat) (v prev : Z) (w : world) : option world :=
  Some {| a := a w; b := b w; c := c w; batching := batching w;
          notified := notified w ++ [(n, v, prev)] |}.

Definition sum (values : list Z) : Z :=
  match values with
  | [x; y] => x + y
  | _ => 0
  end.

Definition callDep (fuel : nat) (cb : callback) (v prev : Z) (w : world)
  : option world :=
  match cb with
  | User n => callUser n v prev w
  | Listener _ =>
      onDependency strictEqZ [refA; refB] sum c updC callUser fuel w
  end.

Definition setA (fuel : nat) (x : Z) (w : world) : option world :=
  set strictEqZ refA (callDep fuel) fuel (Literal x) w.
Definition setB (fuel : nat) (x : Z) (w : world) : option world :=
  set strictEqZ refB (callDep fuel) fuel (Literal x) w.

Definition initial : world :=
  {| a := createState 0; b := createState 0;
     c := {| cachedValue := 0; csubscribers := [] |};
     batching := {| batchDepth := 0; batchQueue := [] |};
     notified := [] |}.

(** The example's set-up, with [fn] subscribed to [c]. *)
Definition program (fn : nat) : world :=
  csubscribe c updC fn
    (createComputed [refA; refB] sum updC Listener initial).

Definition timesNotified (fn : nat) (w : world) : nat :=
  length (filter (fun e => e.1.1 = fn) (notified w)).

(** [a.set(x); b.set(y)] *)
Definition sets (fuel : nat) (x y : Z) (w : world) : option world :=
  setA fuel x w ≫= setB fuel y.

(** [batch(() => { a.set(x); b.set(y); })].  Nothing in this program
    calls [queueBatchCallback], so the queue stays empty and what a
    queued callback would do does not matter. *)
Definition batchSets (fuel : nat) (x y : Z) (w : world) : option world :=
  batch batching updBatch (fun _ w => Some w) (sets fuel x y) w.
End Sum.
End State.

(* ===================================================================== *)
(** * src/core/plugins.ts                                                *)
(* ===================================================================== *)

Module Plugins.

(** Hook functions and provided values are named by numbers. *)
Record PluginHooks := mkHooks {
  install : option nat;
  onMount : option nat;
  onUnmount : option nat;
  beforeStateUpdate : option nat;
  afterStateUpdate : option nat
}.

(** [provides] lists the entries in the order of [Object.entries]. *)
Record Plugin := mkPlugin {
  name : string;
  version : option string;
  hooks : option PluginHooks;
  provides : option (list (string * nat));
  dependencies : option (list string)
}.

(** [state.plugins] and [state.provides]. *)
Record PluginManagerState := mkManager {
  state_plugins : gmap string Plugin;
  state_provides : gmap string nat
}.

Record HookSubscribers := mkSubscribers {
  subs_onMount : list nat;
  subs_onUnmount : list nat;
  subs_beforeStateUpdate : list nat;
  subs_afterStateUpdate : list nat
}.

(** A line on the console.  The texts are those of the source, without
    the quotation marks that the source puts around names. *)
Inductive output :=
| Warn (text : string)
| Log (text : string)
| Error (text : string).

(** A hook function was called. *)
Inductive hookCall :=
| CallInstall (hook : nat)
| CallMount (hook element : nat)
| CallUnmount (hook element : nat)
| CallBefore (hook : nat)
| CallAfter (hook : nat).

Record world := mkWorld {
  state : PluginManagerState;
  hookSubscribers : HookSubscribers;
  console : list output;
  called : list hookCall
}.

Definition initial : world :=
  {| state := {| state_plugins := ∅; state_provides := ∅ |};
     hookSubscribers := {| subs_onMount := []; subs_onUnmount := [];
                           subs_beforeStateUpdate := [];
                           subs_afterStateUpdate := [] |};
     console := [];
     called := [] |}.

Inductive result :=
| Returned (w : world)
| Threw (message : string) (w : world).

Definition has (w : world) (n : string) : bool :=
  bool_decide (is_Some (state_plugins (state w) !! n)).

Definition print (o : output) (w : world) : world :=
  {| state := state w; hookSubscribers := hookSubscribers w;
     console := console w ++ [o]; called := called w |}.

Definition record (c : hookCall) (w : world) : world :=
  {| state := state w; hookSubscribers := hookSubscribers w;
     console := console w; called := called w ++ [c] |}.

Definition push (h : option nat) (l : list nat) : list nat :=
  match h with
  | Some f => l ++ [f]
  | None => l
  end.

Definition registerHooks (h : PluginHooks) (s : HookSubscribers) : HookSubscribers :=
  {| subs_onMount := push (onMount h) (subs_onMount s);
     subs_onUnmount := push (onUnmount h) (subs_onUnmount s);
     subs_beforeStateUpdate := push (beforeStateUpdate h) (subs_beforeStateUpdate s);
     subs_afterStateUpdate := push (afterStateUpdate h) (subs_afterStateUpdate s) |}.

Definition registerProvide (pluginName : string) (w : world) (entry : string * nat) : world :=
  let w1 := if bool_decide (is_Some (state_provides (state w) !! entry.1))
            then print (Warn ("Provider " +:+ entry.1 +:+ " from plugin "
                              +:+ pluginName +:+ " overwrites existing provider.")) w
            else w in
  {| state := {| state_plugins := state_plugins (state w1);
                 state_provides := <[entry.1 := entry.2]> (state_provides (state w1)) |};
     hookSubscribers := hookSubscribers w1;
     console := console w1; called := called w1 |}.

Definition installedMessage (plugin : Plugin) : output :=
  Log ("Plugin " +:+ name plugin
       +:+ match version plugin with
           | Some v => if bool_decide (v = EmptyString) then EmptyString else " v" +:+ v
           | None => EmptyString
           end
       +:+ " installed.").

Section Hooks.
(** Whether the hook function throws when called. *)
Variable throws : nat -> bool.

Definition use (plugin : Plugin) (w : world) : result :=
  if has w (name plugin)
  then Returned (print (Warn ("Plugin " +:+ name plugin +:+ " is already installed.")) w)
  else
    (* Check dependencies *)
    match list_find (fun dep => has w dep = false) (default [] (dependencies plugin)) with
    | Some (_, dep) =>
        Threw ("Plugin " +:+ name plugin +:+ " requires plugin " +:+ dep
               +:+ " to be installed first.") w
    | None =>
        (* Register plugin *)
        let w1 := {| state := {| state_plugins := <[name plugin := plugin]> (state_plugins (state w));
                                 state_provides := state_provides (state w) |};
                     hookSubscribers := hookSubscribers w;
                     console := console w; called := called w |} in
        (* Register hooks *)
        let w2 := match hooks plugin with
                  | Some h => {| state := state w1;
                                 hookSubscribers := registerHooks h (hookSubscribers w1);
                                 console := console w1; called := called w1 |}
                  | None => w1
                  end in
        (* Register provides *)
        let w3 := foldl (registerProvide (name plugin)) w2 (default [] (provides plugin)) in
        (* Call install hook *)
        match hooks plugin ≫= install with
        | Some f =>
            if throws f                 (* the exception of the hook goes on to the caller *)
            then Threw "install hook" (record (CallInstall f) w3)
            else Returned (print (installedMessage plugin) (record (CallInstall f) w3))
        | None => Returned (print (installedMessage plugin) w3)
        end
    end.

Definition inject (key : string) (w : world) : option nat :=
  state_provides (state w) !! key.

Definition getPlugin (n : string) (w : world) : option Plugin :=
  state_plugins (state w) !! n.

Definition hasPlugin (n : string) (w : world) : bool := has w n.

Definition uninstall (n : string) (w : world) : bool * world :=
  match state_plugins (state w) !! n with
  | None => (false, w)
  | Some plugin =>
      (* Remove provides *)
      let provides' := foldl (fun m entry => delete entry.1 m)
                             (state_provides (state w))
                             (default [] (provides plugin)) in
      (* Remove hooks (simplified - in production would need proper cleanup) *)
      (true,
       print (Log ("Plugin " +:+ n +:+ " uninstalled."))
             {| state := {| state_plugins := delete n (state_plugins (state w));
                            state_provides := provides' |};
                hookSubscribers := hookSubscribers w;
                console := console w; called := called w |})
  end.

(** [try { hook(...) } catch (e) { console.error(...) }] *)
Definition guarded (where_ : string) (c : hookCall) (hook : nat) (w : world) : world :=
  if throws hook
  then print (Error ("Error in " +:+ where_ +:+ " hook:")) (record c w)
  else record c w.

Definition triggerMount (element : nat) (w : world) : world :=
  foldl (fun w hook => guarded "onMount" (CallMount hook element) hook w)
        w (subs_onMount (hookSubscribers w)).

Definition triggerUnmount (element : nat) (w : world) : world :=
  foldl (fun w hook => guarded "onUnmount" (CallUnmount hook element) hook w)
        w (subs_onUnmount (hookSubscribers w)).

Definition triggerAfterStateUpdate (w : world) : world :=
  foldl (fun w hook => guarded "afterStateUpdate" (CallAfter hook) hook w)
        w (subs_afterStateUpdate (hookSubscribers w)).

(** What a [beforeStateUpdate] hook returns for [(oldValue, result)]. *)
Variable V : Type.
Variable before : nat -> V -> V -> V.

Definition applyBeforeStateUpdate (oldValue newValue : V) (w : world) : V * world :=
  foldl (fun rw hook =>
           if throws hook
           then (rw.1, print (Error "Error in beforeStateUpdate hook:")
                             (record (CallBefore hook) rw.2))
           else (before hook oldValue rw.1, record (CallBefore hook) rw.2))
        (newValue, w) (subs_beforeStateUpdate (hookSubscribers w)).
End Hooks.

(** Example plugins. *)
Definition logger : Plugin :=
  {| name := "logger"; version := Some "1.0.0";
     hooks := Some {| install := Some 1%nat; onMount := Some 2%nat;
                      onUnmount := Some 3%nat; beforeStateUpdate := Some 4%nat;
                      afterStateUpdate := Some 5%nat |};
     provides := Some [("log", 10%nat)];
     dependencies := None |}.

(** Another plugin object with the name of [logger], and a dependency. *)
Definition loggerAgain : Plugin :=
  {| name := "logger"; version := None; hooks := None; provides := None;
     dependencies := Some ["router"] |}.

Definition devtools : Plugin :=
  {| name := "devtools"; version := None; hooks := None;
     provides := Some [("inspect", 11%nat)];
     dependencies := Some ["logger"; "router"] |}.

(** No hook throws. *)
Definition quiet (hook : nat) : bool := false.

Definition after (r : result) : world :=
  match r with
  | Returned w => w
  | Threw _ w => w
  end.

(** The program state after [use(logger)]. *)
Definition withLogger : world := after (use quiet logger initial).
End Plugins.

(* ===================================================================== *)
(** * src/components/table/table.ts                                      *)
(* ===================================================================== *)

Module Table.

Inductive Direction := asc | desc.

#[global] Instance Direction_eq_dec : EqDecision Direction.
Proof. solve_decision. Defined.

(** [SortDirection] is ['asc' | 'desc' | null]. *)
Record SortState := mkSort {
  key : option string;
  direction : option Direction
}.

Record PaginationOptions := mkPagination {
  enabled : bool;
  pageSize : Z
}.

Record TableColumn := mkColumn {
  col_key : string;
  label : string;
  sortable : bool
}.

(** [Array.prototype.slice] for integer arguments. *)
Definition slice {A : Type} (l : list A) (from to : Z) : list A :=
  let len := Z.of_nat (length l) in
  let k := if from <? 0 then Z.max (len + from) 0 else Z.min from len in
  let final := if to <? 0 then Z.max (len + to) 0 else Z.min to len in
  take (Z.to_nat (final - k)) (drop (Z.to_nat k) l).

(** [Array.prototype.sort] with a comparison function.  When the
    function is a consistent comparator for the elements, the result is
    the stable sort, here by insertion.  When it is not, the order that
    [Array.prototype.sort] gives is left to the implementation, and
    nothing that depends on the order is proved of it: see
    [consistent] below. *)
Section Sort.
Context {A : Type} (comparefn : A -> A -> Z).

Fixpoint insert (x : A) (sorted : list A) : list A :=
  match sorted with
  | [] => [x]
  | y :: rest =>
      if comparefn x y <? 0 then x :: y :: rest else y :: insert x rest
  end.

Definition sort (l : list A) : list A :=
  foldl (fun sorted x => insert x sorted) [] l.
End Sort.

Section Table.
(** A row is any record; [prop row k] is [row[k]], and [lt] is
    JavaScript's [<] on the property values ([x > y] is [lt y x]). *)
Context {Row Val : Type}.
Variable prop : Row -> string -> Val.
Variable lt : Val -> Val -> bool.

Record TableProps := mkProps {
  columns : list TableColumn;
  data : list Row;
  pagination : option PaginationOptions;
  onSortChange : bool              (* whether the callback is given *)
}.

(** The three state cells of a table, and the calls of
    [onSortChange] made so far. *)
Record TableState := mkTable {
  sortState : SortState;
  currentPage : Z;
  selectedKeys : list Z;
  sortChanges : list SortState
}.

Definition initial : TableState :=
  {| sortState := {| key := None; direction := None |};
     currentPage := 1;
     selectedKeys := [];
     sortChanges := [] |}.

Variable props : TableProps.

Definition compareRows (k : string) (d : Direction) (a b : Row) : Z :=
  let aVal := prop a k in
  let bVal := prop b k in
  let cmp := if lt aVal bVal then -1 else if lt bVal aVal then 1 else 0 in
  match d with
  | asc => cmp
  | desc => - cmp
  end.

(** Get sorted data *)
Definition getProcessedData (t : TableState) : list Row :=
  let result := data props in                       (* [...data] *)
  match key (sortState t), direction (sortState t) with
  | Some k, Some d =>
      if bool_decide (k = EmptyString) then result  (* '' is falsy *)
      else sort (compareRows k d) result
  | _, _ => result
  end.

(** Whether the comparison function that [getProcessedData] passes to
    [sort] for column [k] is a consistent comparator for the rows of
    [data]: on the values of the column, [<] is irreflexive and
    transitive, and so is being neither smaller nor larger.  A row
    without a value in the column breaks this as soon as two other rows
    differ in it. *)
Definition consistent (k : string) : bool :=
  let rows := data props in
  let less a b := lt (prop a k) (prop b k) in
  let same a b := negb (less a b) && negb (less b a) in
  forallb (fun a => negb (less a a)) rows
  && forallb (fun a => forallb (fun b => forallb (fun c =>
       implb (less a b && less b c) (less a c)
       && implb (same a b && same b c) (same a c)) rows) rows) rows.

(** [rows] holds the rows of [data], each as often as [data] does, and no
    row comes after a row with a larger value (ascending) or a smaller
    value (descending) in column [k]. *)
Definition sortedBy (k : string) (d : Direction) (rows : list Row) : Prop :=
  rows ≡ₚ data props
  /\ StronglySorted
       (fun a b => match d with
                   | asc => lt (prop b k) (prop a k) = false
                   | desc => lt (prop a k) (prop b k) = false
                   end) rows.

Definition getPaginatedData (t : TableState) : list Row :=
  let result := getProcessedData t in
  match pagination props with
  | Some pg =>
      if enabled pg
      then let start := (currentPage t - 1) * pageSize pg in
           slice result start (start + pageSize pg)
      else result
  | None => result
  end.

Definition toggleSort (k : string) (t : TableState) : TableState :=
  let current := sortState t in
  let dir :=
    if negb (bool_decide (key current = Some k)) then Some asc
    else if bool_decide (direction current = Some asc) then Some desc
    else None in
  let newSort := {| key := match dir with Some _ => Some k | None => None end;
                    direction := dir |} in
  {| sortState := newSort;
     currentPage := currentPage t;
     selectedKeys := selectedKeys t;
     sortChanges := if onSortChange props then sortChanges t ++ [newSort]
                    else sortChanges t |}.

(** The rows that [renderTable] puts in the table body. *)
Definition renderedRows (t : TableState) : list Row := getPaginatedData t.

(** The page window that [getPaginatedData] cuts out of a list. *)
Definition page (t : TableState) (rows : list Row) : list Row :=
  match pagination props with
  | Some pg =>
      if enabled pg
      then slice rows ((currentPage t - 1) * pageSize pg)
                      ((currentPage t - 1) * pageSize pg + pageSize pg)
      else rows
  | None => rows
  end.

(** Row keys are numbers here.  [rowKey] is the key extractor of the
    props; the default one returns the index. *)
Variable rowKey : Row -> nat -> Z.

Definition withSelection (newKeys : list Z) (t : TableState) : TableState :=
  {| sortState := sortState t; currentPage := currentPage t;
     selectedKeys := newKeys; sortChanges := sortChanges t |}.

(** [onSelectionChange], when given, receives the selection stored. *)
Definition toggleSelection (k : Z) (t : TableState) : TableState :=
  let current := selectedKeys t in
  let newKeys := if bool_decide (k ∈ current)
                 then filter (fun x => x <> k) current
                 else current ++ [k] in
  withSelection newKeys t.

Definition toggleAllSelection (t : TableState) : TableState :=
  let current := selectedKeys t in
  let allKeys := imap (fun i row => rowKey row i) (data props) in
  let allSelected := forallb (fun k => bool_decide (k ∈ current)) allKeys in
  let newKeys := if allSelected then [] else allKeys in
  withSelection newKeys t.

(** [Math.ceil(data.length / pagination.pageSize)], for a page size that
    is not 0. *)
Definition totalPages (pg : PaginationOptions) : Z :=
  - ((- Z.of_nat (length (data props))) / pageSize pg).

Definition withPage (n : Z) (t : TableState) : TableState :=
  {| sortState := sortState t; currentPage := n;
     selectedKeys := selectedKeys t; sortChanges := sortChanges t |}.

(** The click handlers of the two page buttons; there are no buttons
    when pagination is off. *)
Definition previousPage (t : TableState) : TableState :=
  match pagination props with
  | Some pg =>
      if enabled pg && (1 <? currentPage t) then withPage (currentPage t - 1) t else t
  | None => t
  end.

Definition nextPage (t : TableState) : TableState :=
  match pagination props with
  | Some pg =>
      if enabled pg && (currentPage t <? totalPages pg)
      then withPage (currentPage t + 1) t else t
  | None => t
  end.
End Table.

(** An example table: rows are objects with number-valued properties. *)
Definition row := list (string * Z).

Fixpoint property (r : row) (k : string) : option Z :=
  match r with
  | [] => None                                        (* undefined *)
  | (k', v) :: rest => if bool_decide (k' = k) then Some v else property rest k
  end.

(** [<] on numbers; a comparison with [undefined] is false. *)
Definition less (x y : option Z) : bool :=
  match x, y with
  | Some a, Some b => a <? b
  | _, _ => false
  end.

Definition users : list row :=
  [ [("id", 1); ("age", 41)]; [("id", 2); ("age", 27)];
    [("id", 3); ("age", 35)]; [("id", 4); ("age", 27)] ].

Definition usersTable : TableProps :=
  {| columns := [ {| col_key := "id"; label := "Id"; sortable := false |};
                  {| col_key := "age"; label := "Age"; sortable := true |} ];
     data := users;
     pagination := Some {| enabled := true; pageSize := 3 |};
     onSortChange := true |}.

(** A table in which the second row has no age. *)
Definition gappyTable : TableProps :=
  {| columns := [ {| col_key := "age"; label := "Age"; sortable := true |} ];
     data := [ [("id", 1); ("age", 3)]; [("id", 2)]; [("id", 3); ("age", 1)] ];
     pagination := None;
     onSortChange := false |}.
End Table.

(* ===================================================================== *)
(** * Form validation (the module that exports [rules],
      [createFieldValidator] and [createForm])                           *)
(* ===================================================================== *)

Module Validation.

Module Result.
(** Validation rule result *)
Record ValidationResult := mkResult {
  valid : bool;
  message : option string       (* [None] is [undefined] *)
}.
End Result.
Abbreviation ValidationResult := Result.ValidationResult.

(** Validation rule function, on string values. *)
Definition ValidationRule := string -> ValidationResult.

(** Some of the built-in rules. *)
Module rules.
Definition required (message : string) : ValidationRule :=
  fun value =>
    {| Result.valid := negb (bool_decide (value = EmptyString));
       Result.message := if bool_decide (value = EmptyString)
                         then Some message else None |}.

Definition minLength (min : Z) (message : string) : ValidationRule :=
  fun value =>
    {| Result.valid := min <=? Z.of_nat (String.length value);
       Result.message := if Z.of_nat (String.length value) <? min
                         then Some message else None |}.

Definition maxLength (max : Z) (message : string) : ValidationRule :=
  fun value =>
    {| Result.valid := Z.of_nat (String.length value) <=? max;
       Result.message := if max <? Z.of_nat (String.length value)
                         then Some message else None |}.

(** [getValue] reads another field; here it is the value read. *)
Definition matches (other : string) (message : string) : ValidationRule :=
  fun value =>
    {| Result.valid := bool_decide (value = other);
       Result.message := if bool_decide (value = other)
                         then None else Some message |}.

Definition custom (validator : string -> bool) (message : string) : ValidationRule :=
  fun value =>
    {| Result.valid := validator value;
       Result.message := if validator value then None else Some message |}.
End rules.

(** What a list of rules says about a value: whether every rule accepts
    it, and the messages of the rules that do not, in the order of the
    rules. *)
Definition passes (rs : list ValidationRule) (v : string) : bool :=
  forallb (fun rule => Result.valid (rule v)) rs.

Definition failures (rs : list ValidationRule) (v : string) : list (option string) :=
  Result.message <$> filter (fun r => Result.valid r = false) ((fun rule => rule v) <$> rs).

(** Field validation state *)
Record FieldState := mkFieldState {
  value : string;
  touched : bool;
  dirty : bool;
  valid : bool;
  errors : list (option string)   (* [r.message!] may be [undefined] *)
}.

(** What the closures of [createFieldValidator] share: the options and
    the state cell.  The cell is used as a plain variable here (every
    [set] stores a new object); its subscribers are not modelled. *)
Record FieldValidator := mkField {
  fieldRules : list ValidationRule;
  validateOnChange : bool;
  validateOnBlur : bool;
  state : FieldState
}.

Definition withState (s : FieldState) (f : FieldValidator) : FieldValidator :=
  {| fieldRules := fieldRules f;
     validateOnChange := validateOnChange f;
     validateOnBlur := validateOnBlur f;
     state := s |}.

Module Field.
Definition createFieldValidator (fieldRules : list ValidationRule)
    (validateOnChange validateOnBlur : option bool) : FieldValidator :=
  {| fieldRules := fieldRules;
     validateOnChange := default true validateOnChange;
     validateOnBlur := default true validateOnBlur;
     state := {| value := EmptyString; touched := false; dirty := false;
                 valid := true; errors := [] |} |}.

(** The inner function [validate(value)]. *)
Definition results (f : FieldValidator) (value : string) : list ValidationResult :=
  (fun rule => rule value) <$> fieldRules f.

Definition updateState (newValue : string) (f : FieldValidator) : FieldValidator :=
  let results := results f newValue in
  let errors := Result.message <$> filter (fun r => Result.valid r = false) results in
  let s := state f in
  withState {| value := newValue; touched := touched s; dirty := true;
               valid := Nat.eqb (length errors) 0; errors := errors |} f.

Definition setValue (v : string) (f : FieldValidator) : FieldValidator :=
  if validateOnChange f
  then updateState v f
  else let s := state f in
       withState {| value := v; touched := touched s; dirty := true;
                    valid := valid s; errors := errors s |} f.

Definition setTouched (f : FieldValidator) : FieldValidator :=
  let s := state f in
  withState {| value := value s; touched := true; dirty := dirty s;
               valid := valid s; errors := errors s |} f.

Definition touch (f : FieldValidator) : FieldValidator :=
  let current := state f in
  let f1 := setTouched f in
  if validateOnBlur f && negb (dirty current)
  then updateState (value current) f1
  else f1.

(** Force validation *)
Definition validate (f : FieldValidator) : bool * FieldValidator :=
  let current := state f in
  let f1 := updateState (value current) f in
  let f2 := setTouched f1 in
  (valid (state f2), f2).

Definition reset (f : FieldValidator) : FieldValidator :=
  withState {| value := EmptyString; touched := false; dirty := false;
               valid := true; errors := [] |} f.

Definition getErrors (f : FieldValidator) : list (option string) := errors (state f).
Definition isValid (f : FieldValidator) : bool := valid (state f).
End Field.

(** Form field configuration *)
Record FormFieldConfig := mkConfig {
  rules_ : list ValidationRule;
  initialValue : option string
}.

(** The entries of the configuration object, in property order. *)
Definition FormConfig := list (string * FormFieldConfig).

Record Form := mkForm {
  config : FormConfig;
  fields : list (string * FieldValidator);
  submitting : bool               (* [formState.get().submitting] *)
}.

Definition createForm (config : FormConfig) : Form :=
  {| config := config;
     fields := (fun entry =>
                  let field := Field.createFieldValidator (rules_ entry.2) None None in
                  (entry.1,
                   match initialValue entry.2 with
                   | Some v => if bool_decide (v = EmptyString) then field
                               else Field.setValue v field
                   | None => field
                   end)) <$> config;
     submitting := false |}.

Fixpoint lookupField (n : string) (fs : list (string * FieldValidator)) : option FieldValidator :=
  match fs with
  | [] => None
  | (m, f) :: rest => if bool_decide (m = n) then Some f else lookupField n rest
  end.

(** The outcome of a call that can throw a [TypeError]. *)
Inductive outcome (A : Type) :=
| Returned (a : A)
| TypeError.
Arguments Returned {A}.
Arguments TypeError {A}.

(** [fields] is a plain object: besides the fields of the form, which
    are its own properties and are found first, it has the properties
    of [Object.prototype]. *)
Definition inherited (n : string) : bool :=
  bool_decide (n ∈ [ "constructor"; "toString"; "toLocaleString"; "valueOf";
                     "hasOwnProperty"; "isPrototypeOf"; "propertyIsEnumerable";
                     "__proto__"; "__defineGetter__"; "__defineSetter__";
                     "__lookupGetter__"; "__lookupSetter__" ]).

(** [fields[name]] *)
Inductive property :=
| Own (field : FieldValidator)
| Inherited
| Undefined.

Definition getField (n : string) (fs : list (string * FieldValidator)) : property :=
  match lookupField n fs with
  | Some field => Own field
  | None => if inherited n then Inherited else Undefined
  end.

(** The form after [g] has been applied to the field named [n]. *)
Definition onField (g : FieldValidator -> FieldValidator) (n : string) (f : Form) : Form :=
  {| config := config f;
     fields := (fun entry => if bool_decide (entry.1 = n)
                             then (entry.1, g entry.2)
                             else entry) <$> fields f;
     submitting := submitting f |}.

(** [fields[name]?.setValue(value)].  The optional chain stops at
    [undefined] only: an inherited property is an object or a function
    without a [setValue] method, and calling that throws. *)
Definition setValue (n : string) (v : string) (f : Form) : outcome Form :=
  match getField n (fields f) with
  | Own _ => Returned (onField (Field.setValue v) n f)
  | Inherited => TypeError
  | Undefined => Returned f
  end.

Definition getValues (f : Form) : list (string * string) :=
  (fun entry => (entry.1,
                 match lookupField entry.1 (fields f) with
                 | Some field => value (state field)
                 | None => EmptyString
                 end)) <$> config f.

(** The loop of [validate]: every field is validated, and [allValid]
    only remembers whether one of them failed. *)
Fixpoint validateAll (fs : list (string * FieldValidator)) (allValid : bool)
  : bool * list (string * FieldValidator) :=
  match fs with
  | [] => (allValid, [])
  | (n, field) :: rest =>
      let r := Field.validate field in
      let allValid' := if negb r.1 then false else allValid in
      let rs := validateAll rest allValid' in
      (rs.1, (n, r.2) :: rs.2)
  end.

Definition validate (f : Form) : bool * Form :=
  let r := validateAll (fields f) true in
  (r.1, {| config := config f; fields := r.2; submitting := submitting f |}).

Definition isSubmitting (f : Form) : bool := submitting f.

Definition setSubmitting (b : bool) (f : Form) : Form :=
  {| config := config f; fields := fields f; submitting := b |}.

(** How the promise returned by the submit callback ends. *)
Inductive settled (R E : Type) :=
| Resolved (r : R)
| Rejected (e : E).
Arguments Resolved {R E}.
Arguments Rejected {R E}.

(** [handleSubmit] up to its [await]: either it has returned [null]
    ([None]), or the callback has been called with the values and the
    function is suspended. *)
Definition handleSubmit_begin (f : Form) : option (list (string * string)) * Form :=
  let r := validate f in
  if negb r.1 then (None, r.2)
  else let f1 := setSubmitting true r.2 in
       (Some (getValues f1), f1).

(** [handleSubmit] after the [await]: the [finally] block runs on both
    outcomes, then the outcome is passed on. *)
Definition handleSubmit_end {R E : Type} (outcome : settled R E) (f : Form)
  : settled (option R) E * Form :=
  let f1 := setSubmitting false f in
  match outcome with
  | Resolved r => (Resolved (Some r), f1)
  | Rejected e => (Rejected e, f1)
  end.

(** The whole call, for a callback whose promise settles as [onSubmit]
    says; the second component lists the calls of the callback. *)
Definition handleSubmit {R E : Type}
    (onSubmit : list (string * string) -> settled R E) (f : Form)
  : settled (option R) E * list (list (string * string)) * Form :=
  match handleSubmit_begin f with
  | (None, f1) => (Resolved None, [], f1)
  | (Some values, f1) =>
      let r := handleSubmit_end (onSubmit values) f1 in
      (r.1, [values], r.2)
  end.

(** Check if entire form is valid *)
Definition isValid (f : Form) : bool :=
  forallb (fun entry => Field.isValid entry.2) (fields f).

(** Reset form *)
Definition reset (f : Form) : Form :=
  {| config := config f;
     fields := (fun entry => (entry.1, Field.reset entry.2)) <$> fields f;
     submitting := false |}.

(** [fields[name]?.state.get().value || '']: an inherited property has
    no [state], and [undefined.get()] throws. *)
Definition getValue (n : string) (f : Form) : outcome string :=
  match getField n (fields f) with
  | Own field => Returned (value (state field))
  | Inherited => TypeError
  | Undefined => Returned EmptyString
  end.

(** [fields[name]?.touch()] *)
Definition touchField (n : string) (f : Form) : outcome Form :=
  match getField n (fields f) with
  | Own _ => Returned (onField Field.touch n f)
  | Inherited => TypeError
  | Undefined => Returned f
  end.

(** [fields[name]?.getErrors() || []] *)
Definition getFieldErrors (n : string) (f : Form) : outcome (list (option string)) :=
  match getField n (fields f) with
  | Own field => Returned (Field.getErrors field)
  | Inherited => TypeError
  | Undefined => Returned []
  end.

(** The calls that a user of a field validator can make. *)
Inductive fieldCall :=
| CallSetValue (v : string)
| CallTouch
| CallValidate
| CallReset.

Definition fieldStep (f : FieldValidator) (c : fieldCall) : FieldValidator :=
  match c with
  | CallSetValue v => Field.setValue v f
  | CallTouch => Field.touch f
  | CallValidate => (Field.validate f).2
  | CallReset => Field.reset f
  end.

(** The state of a field that nothing has been done to. *)
Definition pristine : FieldState :=
  {| value := EmptyString; touched := false; dirty := false; valid := true; errors := [] |}.

(** The state of a field is either untouched by any validation, or it
    tells the truth about the current value. *)
Definition truthful (f : FieldValidator) : Prop :=
  (dirty (state f) = false
   /\ value (state f) = EmptyString /\ valid (state f) = true /\ errors (state f) = [])
  \/ (dirty (state f) = true
      /\ valid (state f) = passes (fieldRules f) (value (state f))
      /\ errors (state f) = failures (fieldRules f) (value (state f))).

(** An example form. *)
Definition signup : Form :=
  createForm
    [ ("name", {| rules_ := [rules.required "This field is required"];
                  initialValue := None |});
      ("password", {| rules_ := [rules.required "This field is required";
                                 rules.minLength 8 "Must be at least 8 characters"];
                      initialValue := None |}) ].

(** [form.setValue('name', 'Ada'); form.setValue('password', 'correct horse')] *)
Definition filled : Form :=
  match setValue "name" "Ada" signup with
  | Returned f =>
      match setValue "password" "correct horse" f with
      | Returned f' => f'
      | TypeError => f
      end
  | TypeError => signup
  end.

(** A submit callback that rejects when the name is taken. *)
Definition register (values : list (string * string)) : settled nat string :=
  if bool_decide (("name", "Ada") ∈ values) then Rejected "taken" else Resolved 1%nat.
End Validation.

(* ===================================================================== *)
(** * src/components/datepicker/datepicker.ts                            *)
(* ===================================================================== *)

Module DatePicker.

(** A [Date] is its time value: milliseconds since the epoch.  The
    local time zone of the model is UTC, and invalid dates are left
    out. *)
Record Date := mkDate { time : Z }.

#[global] Instance Date_eq_dec : EqDecision Date.
Proof. solve_decision. Defined.

Definition msPerDay : Z := 86400000.

(** Day number of a time value. *)
Definition dayOf (d : Date) : Z := time d / msPerDay.

(** Year, month (1..12) and day of the month of a day number, in the
    proleptic Gregorian calendar. *)
Definition civil (days : Z) : Z * Z * Z :=
  let z := days + 719468 in
  let era := z / 146097 in
  let doe := z - era * 146097 in
  let yoe := (doe - doe / 1460 + doe / 36524 - doe / 146096) / 365 in
  let doy := doe - (365 * yoe + yoe / 4 - yoe / 100) in
  let mp := (5 * doy + 2) / 153 in
  let d := doy - (153 * mp + 2) / 5 + 1 in
  let m := if mp <? 10 then mp + 3 else mp - 9 in
  (yoe + era * 400 + (if m <=? 2 then 1 else 0), m, d).

(** Day number of the first day of month [m] (1..12) of year [y]. *)
Definition daysFromCivil (y m : Z) : Z :=
  let y' := if m <=? 2 then y - 1 else y in
  let era := y' / 400 in
  let yoe := y' - era * 400 in
  let mp := if m <=? 2 then m + 9 else m - 3 in
  let doy := (153 * mp + 2) / 5 in
  let doe := yoe * 365 + yoe / 4 - yoe / 100 + doy in
  era * 146097 + doe - 719468.

Definition getFullYear (d : Date) : Z := (civil (dayOf d)).1.1.
Definition getMonth (d : Date) : Z := (civil (dayOf d)).1.2 - 1.
Definition getDate (d : Date) : Z := (civil (dayOf d)).2.
Definition getDay (d : Date) : Z := (dayOf d + 4) mod 7.

(** [new Date(year, month, day)]: midnight; a year from 0 to 99 stands
    for 1900 + year; a month outside 0..11 and a day outside the month
    carry over. *)
Definition newDate (year month day : Z) : Date :=
  let yr := if (0 <=? year) && (year <=? 99) then 1900 + year else year in
  {| time := (daysFromCivil (yr + month / 12) (month mod 12 + 1) + (day - 1))
             * msPerDay |}.

(** The time values of valid dates are at most 100 000 000 days away
    from the epoch; [inRange margin d] leaves [margin] days to both
    ends, so that dates up to [margin] days around [d] are valid too. *)
Definition inRange (margin : Z) (d : Date) : Prop :=
  Z.abs (time d) <= (100000000 - margin) * msPerDay.

(** Check if two dates are the same day *)
Definition isSameDay (a b : Date) : bool :=
  (getFullYear a =? getFullYear b) &&
  (getMonth a =? getMonth b) &&
  (getDate a =? getDate b).

(** Check if date is disabled.  [date < minDate] compares time values. *)
Definition isDateDisabled (date : Date) (minDate maxDate : option Date)
    (disabledDates : option (list Date)) : bool :=
  if match minDate with Some m => time date <? time m | None => false end then true
  else if match maxDate with Some m => time m <? time date | None => false end then true
  else match disabledDates with
       | Some ds => existsb (fun d => isSameDay d date) ds
       | None => false
       end.

(** Get days in month *)
Definition getDaysInMonth (year month : Z) : Z :=
  getDate (newDate year (month + 1) 0).

(** Get first day of month (0 = Sunday) *)
Definition getFirstDayOfMonth (year month : Z) : Z :=
  getDay (newDate year month 1).

Record DatePickerProps := mkProps {
  firstDayOfWeek : Z;
  minDate : option Date;
  maxDate : option Date;
  disabledDates : option (list Date);
  onChange : bool;                (* whether the callback is given *)
  disabled : bool
}.

(** The state cells of a date picker, and the calls of [onChange]. *)
Record PickerState := mkPicker {
  isOpen : bool;
  selectedDate : option Date;
  viewDate : Date;
  changes : list (option Date)
}.

(** A day button of the calendar grid: the date it stands for, whether
    it belongs to a neighbouring month, and the constant [isDisabled]
    that is both its [disabled] attribute and the guard captured by its
    click handler. *)
Record DayButton := mkButton {
  date : Date;
  outside : bool;
  isDisabled : bool
}.

Section Picker.
Variable props : DatePickerProps.

Definition selectDate (d : Date) (s : PickerState) : PickerState :=
  {| isOpen := false;
     selectedDate := Some d;
     viewDate := viewDate s;
     changes := if onChange props then changes s ++ [Some d] else changes s |}.

Definition createDayButton (d : Date) (outside : bool) : DayButton :=
  {| date := d; outside := outside;
     isDisabled := isDateDisabled d (minDate props) (maxDate props) (disabledDates props) |}.

(** The buttons of the days of the viewed month are built in the loop
    of [buildCalendarGrid]. *)
Definition currentDayButton (d : Date) : DayButton :=
  {| date := d; outside := false;
     isDisabled := isDateDisabled d (minDate props) (maxDate props) (disabledDates props) |}.

(** The [onClick] handler of a day button. *)
Definition onClick (b : DayButton) (s : PickerState) : PickerState :=
  if negb (isDisabled b)
  then if outside b
       then selectDate (date b)
              {| isOpen := isOpen s; selectedDate := selectedDate s;
                 viewDate := newDate (getFullYear (date b)) (getMonth (date b)) 1;
                 changes := changes s |}
       else selectDate (date b) s
  else s.

(** A click on the button: the browser sends no click event to a
    button whose [disabled] attribute is set. *)
Definition click (b : DayButton) (s : PickerState) : PickerState :=
  if isDisabled b then s else onClick b s.

Definition buildCalendarGrid (s : PickerState) : list DayButton :=
  let view := viewDate s in
  let year := getFullYear view in
  let month := getMonth view in
  let daysInMonth := getDaysInMonth year month in
  let firstDay0 := getFirstDayOfMonth year month in
  let firstDay := if firstDayOfWeek props =? 1
                  then (if firstDay0 =? 0 then 6 else firstDay0 - 1)
                  else firstDay0 in
  (* Previous month days *)
  let prevMonth := if month =? 0 then 11 else month - 1 in
  let prevYear := if month =? 0 then year - 1 else year in
  let daysInPrevMonth := getDaysInMonth prevYear prevMonth in
  let before :=
    (fun i => createDayButton
                (newDate prevYear prevMonth (daysInPrevMonth - (firstDay - 1 - Z.of_nat i)))
                true)
    <$> seq 0 (Z.to_nat firstDay) in
  (* Current month days *)
  let current :=
    (fun i => currentDayButton (newDate year month (Z.of_nat i + 1)))
    <$> seq 0 (Z.to_nat daysInMonth) in
  (* Next month days *)
  let totalCells := ((firstDay + daysInMonth + 6) / 7) * 7 in
  let nextMonthDays := totalCells - (firstDay + daysInMonth) in
  let nextMonth := if month =? 11 then 0 else month + 1 in
  let nextYear := if month =? 11 then year + 1 else year in
  let after :=
    (fun i => createDayButton (newDate nextYear nextMonth (Z.of_nat i + 1)) true)
    <$> seq 0 (Z.to_nat nextMonthDays) in
  before ++ current ++ after.
End Picker.

(** The disabled predicate in the words of the specification, with
    "exactly matching an entry" read as being that entry. *)
Definition disabledPerSpec (date : Date) (minDate maxDate : option Date)
    (disabledDates : option (list Date)) : bool :=
  match minDate with Some m => time date <? time m | None => false end
  || match maxDate with Some m => time m <? time date | None => false end
  || match disabledDates with Some ds => bool_decide (date ∈ ds) | None => false end.

(** Example dates: a calendar-grid date and a moment later that day. *)
Definition jan15 : Date := newDate 2024 0 15.
Definition jan15noon : Date := {| time := time jan15 + 12 * 3600000 |}.

Definition holidays : DatePickerProps :=
  {| firstDayOfWeek := 0; minDate := Some (newDate 2024 0 3); maxDate := None;
     disabledDates := Some [jan15noon]; onChange := true; disabled := false |}.

Definition january : PickerState :=
  {| isOpen := true; selectedDate := None; viewDate := newDate 2024 0 1; changes := [] |}.

(** The parts of the widget that the calendar code works on: the state
    cells, the month and year written on the header label, the days
    grid that is a child of the dropdown, and whether the element held
    by the constant [daysGrid] still has a parent. *)
Record Widget := mkWidget {
  picker : PickerState;
  monthYearLabel : Z * Z;
  shownGrid : list DayButton;
  daysGridAttached : bool
}.

Inductive navigation := Prev | Next.

Section Calendar.
Variable props : DatePickerProps.

(** [DatePicker(props)] at the moment [now], up to the built UI. *)
Definition DatePicker (initialValue : option Date) (now : Date) : Widget :=
  let s := {| isOpen := false; selectedDate := initialValue;
              viewDate := default now initialValue; changes := [] |} in
  {| picker := s;
     monthYearLabel := (getMonth (viewDate s), getFullYear (viewDate s));
     shownGrid := buildCalendarGrid props s;
     daysGridAttached := true |}.

Definition setViewDate (d : Date) (w : Widget) : Widget :=
  {| picker := {| isOpen := isOpen (picker w); selectedDate := selectedDate (picker w);
                  viewDate := d; changes := changes (picker w) |};
     monthYearLabel := monthYearLabel w;
     shownGrid := shownGrid w;
     daysGridAttached := daysGridAttached w |}.

(** [daysGrid.replaceWith(newGrid)] does nothing when [daysGrid] has no
    parent, and takes [daysGrid] out of the dropdown otherwise. *)
Definition updateCalendar (w : Widget) : Widget :=
  let view := viewDate (picker w) in
  let newGrid := buildCalendarGrid props (picker w) in
  {| picker := picker w;
     monthYearLabel := (getMonth view, getFullYear view);
     shownGrid := if daysGridAttached w then newGrid else shownGrid w;
     daysGridAttached := false |}.

Definition goToPrevMonth (w : Widget) : Widget :=
  let view := viewDate (picker w) in
  updateCalendar (setViewDate (newDate (getFullYear view) (getMonth view - 1) 1) w).

Definition goToNextMonth (w : Widget) : Widget :=
  let view := viewDate (picker w) in
  updateCalendar (setViewDate (newDate (getFullYear view) (getMonth view + 1) 1) w).

Definition navigate (w : Widget) (c : navigation) : Widget :=
  match c with
  | Prev => goToPrevMonth w
  | Next => goToNextMonth w
  end.

(** The Today button, pressed at the moment [todayDate]. *)
Definition goToToday (todayDate : Date) (s : PickerState) : PickerState :=
  selectDate props todayDate
    {| isOpen := isOpen s; selectedDate := selectedDate s;
       viewDate := newDate (getFullYear todayDate) (getMonth todayDate) 1;
       changes := changes s |}.

(** The Clear button. *)
Definition clearDate (s : PickerState) : PickerState :=
  {| isOpen := isOpen s; selectedDate := None; viewDate := viewDate s;
     changes := if onChange props then changes s ++ [None] else changes s |}.
End Calendar.
End DatePicker.


(* ===================================================================== *)
(** * src/components/modal/modal.ts, with the helpers it uses from
      src/core/events.ts                                                 *)
(* ===================================================================== *)

Module Modal.

(** The elements that matter.  The [k]-th call of [openModal] builds
    [Backdrop k] with the dialog [Dialog k] inside it; [Focusable k i]
    is the [i]-th focusable descendant of that dialog.  [Page n] is a
    focusable element of the page below. *)
Inductive node :=
| Body
| Page (n : nat)
| Backdrop (k : nat)
| Dialog (k : nat)
| Focusable (k i : nat).

#[global] Instance node_eq_dec : EqDecision node.
Proof. solve_decision. Defined.

(** [content] counts the focusable elements that the caller put into
    the header, the body and the footer; [onClose] names the callback. *)
Record ModalProps := mkProps {
  closeOnBackdrop : option bool;
  closeOnEscape : option bool;
  showCloseButton : option bool;
  onClose : option nat;
  content : nat
}.

(** The variables captured by the closures of one [openModal] call. *)
Record instance := mkInstance {
  props : ModalProps;
  originalOverflow : string;
  previouslyFocused : node        (* captured by [createFocusTrap] *)
}.

(** A callback waiting in [setTimeout(..., 200)]. *)
Inductive timer :=
| FromCloseModal                  (* [() => { activeModal?.cleanup(); }] *)
| FromHandleClose (k : nat).      (* the same, then [onClose?.()] of call [k] *)

Record world := mkWorld {
  bodyChildren : list node;       (* the children of [document.body] *)
  closing : list nat;             (* backdrops with the closing class *)
  overflow : string;              (* [document.body.style.overflow] *)
  escapeListeners : list nat;     (* [onEscape] listeners on the document *)
  trapListeners : list nat;       (* focus-trap listeners on the dialogs *)
  activeElement : node;
  activeModal : option nat;       (* names the call whose backdrop and cleanup it holds *)
  instances : list instance;
  timers : list timer;
  closedCalls : list nat          (* calls of [onClose] callbacks *)
}.

Definition initial : world :=
  {| bodyChildren := []; closing := []; overflow := EmptyString;
     escapeListeners := []; trapListeners := [];
     activeElement := Body; activeModal := None;
     instances := []; timers := []; closedCalls := [] |}.

(** The number of focusable descendants of the dialog built by
    [Modal(props)]: the close button and the caller's elements. *)
Definition focusableCount (p : ModalProps) : nat :=
  ((if default true (showCloseButton p) then 1 else 0) + content p)%nat.

(** [element.focus()]: only an attached, focusable element takes it. *)
Definition focus (target : node) (w : world) : world :=
  let ok := match target with
            | Page _ => true
            | Focusable k _ => bool_decide (Backdrop k ∈ bodyChildren w)
            | _ => false
            end in
  if ok
  then {| bodyChildren := bodyChildren w; closing := closing w; overflow := overflow w;
          escapeListeners := escapeListeners w; trapListeners := trapListeners w;
          activeElement := target; activeModal := activeModal w;
          instances := instances w; timers := timers w; closedCalls := closedCalls w |}
  else w.

(** [backdrop.parentNode.removeChild(backdrop)], when attached. *)
Definition removeBackdrop (k : nat) (w : world) : world :=
  {| bodyChildren := filter (fun n => n ≠ Backdrop k) (bodyChildren w);
     closing := closing w; overflow := overflow w;
     escapeListeners := escapeListeners w; trapListeners := trapListeners w;
     activeElement := match activeElement w with
                      | Focusable j i => if bool_decide (j = k) then Body else Focusable j i
                      | n => n
                      end;
     activeModal := activeModal w;
     instances := instances w; timers := timers w; closedCalls := closedCalls w |}.

(** The master [cleanup] of call [k]. *)
Definition cleanup (k : nat) (w : world) : world :=
  match instances w !! k with
  | None => w
  | Some inst =>
      (* cleanupFns: body scroll, ESC listener, focus trap *)
      let w1 := {| bodyChildren := bodyChildren w; closing := closing w;
                   overflow := originalOverflow inst;
                   escapeListeners :=
                     if default true (closeOnEscape (props inst))
                     then filter (fun j => j ≠ k) (escapeListeners w)
                     else escapeListeners w;
                   trapListeners := filter (fun j => j ≠ k) (trapListeners w);
                   activeElement := activeElement w; activeModal := activeModal w;
                   instances := instances w; timers := timers w;
                   closedCalls := closedCalls w |} in
      let w2 := focus (previouslyFocused inst) w1 in
      let w3 := removeBackdrop k w2 in
      {| bodyChildren := bodyChildren w3; closing := closing w3; overflow := overflow w3;
         escapeListeners := escapeListeners w3; trapListeners := trapListeners w3;
         activeElement := activeElement w3; activeModal := None;
         instances := instances w3; timers := timers w3; closedCalls := closedCalls w3 |}
  end.

(** The part shared by [closeModal] and [handleClose]: the closing
    classes go on the active modal, and a timer is set. *)
Definition startClosing (t : timer) (w : world) : world :=
  match activeModal w with
  | Some k =>
      {| bodyChildren := bodyChildren w; closing := closing w ++ [k];
         overflow := overflow w;
         escapeListeners := escapeListeners w; trapListeners := trapListeners w;
         activeElement := activeElement w; activeModal := activeModal w;
         instances := instances w; timers := timers w ++ [t];
         closedCalls := closedCalls w |}
  | None => w
  end.

Definition closeModal (w : world) : world := startClosing FromCloseModal w.

(** [handleClose] of call [k]: the close button, Escape, and a click on
    the backdrop all come here. *)
Definition handleClose (k : nat) (w : world) : world := startClosing (FromHandleClose k) w.

Definition isModalOpen (w : world) : bool := bool_decide (is_Some (activeModal w)).

Definition openModal (p : ModalProps) (w : world) : world :=
  (* Close any existing modal first *)
  let w0 := if isModalOpen w then closeModal w else w in
  let k := length (instances w0) in
  let inst := {| props := p;
                 originalOverflow := overflow w0;
                 previouslyFocused := activeElement w0 |} in
  (* Mount to body, prevent body scroll, ESC key handler, focus trap *)
  let w1 := {| bodyChildren := bodyChildren w0 ++ [Backdrop k];
               closing := closing w0;
               overflow := "hidden";
               escapeListeners := if default true (closeOnEscape p)
                                  then escapeListeners w0 ++ [k]
                                  else escapeListeners w0;
               trapListeners := trapListeners w0 ++ [k];
               activeElement := activeElement w0;
               activeModal := Some k;
               instances := instances w0 ++ [inst];
               timers := timers w0;
               closedCalls := closedCalls w0 |} in
  if Nat.ltb 0 (focusableCount p) then focus (Focusable k 0) w1 else w1.

(** The callback of one timer runs. *)
Definition fire (t : timer) (w : world) : world :=
  let w1 := match activeModal w with
            | Some j => cleanup j w
            | None => w
            end in
  match t with
  | FromCloseModal => w1
  | FromHandleClose k =>
      match instances w1 !! k ≫= (fun inst => onClose (props inst)) with
      | Some f =>
          {| bodyChildren := bodyChildren w1; closing := closing w1; overflow := overflow w1;
             escapeListeners := escapeListeners w1; trapListeners := trapListeners w1;
             activeElement := activeElement w1; activeModal := activeModal w1;
             instances := instances w1; timers := timers w1;
             closedCalls := closedCalls w1 ++ [f] |}
      | None => w1
      end
  end.

(** 200 ms pass: the waiting timers run, oldest first. *)
Definition elapse (w : world) : world :=
  foldl (fun w t => fire t w)
        {| bodyChildren := bodyChildren w; closing := closing w; overflow := overflow w;
           escapeListeners := escapeListeners w; trapListeners := trapListeners w;
           activeElement := activeElement w; activeModal := activeModal w;
           instances := instances w; timers := []; closedCalls := closedCalls w |}
        (timers w).

(** A click on the backdrop of call [k] itself. *)
Definition clickBackdrop (k : nat) (w : world) : world :=
  match instances w !! k with
  | Some inst => if default true (closeOnBackdrop (props inst)) then handleClose k w else w
  | None => w
  end.

(** The Escape key is pressed: every [onEscape] listener runs. *)
Definition pressEscape (w : world) : world :=
  foldl (fun w k => handleClose k w) w (escapeListeners w).

(** The dialogs attached to the document. *)
Definition dialogs (w : world) : list nat :=
  omap (fun n => match n with Backdrop k => Some k | _ => None end) (bodyChildren w).

(** The names that the next call of [openModal] gives to its elements
    and listeners are not in use. *)
Definition fresh (w : world) : Prop :=
  let k := length (instances w) in
  (Backdrop k ∉ bodyChildren w) /\ (k ∉ escapeListeners w) /\ (k ∉ trapListeners w)
  /\ forall i, activeElement w ≠ Focusable k i.

(** The active element is in the document. *)
Definition focusAttached (w : world) : Prop :=
  match activeElement w with
  | Focusable j _ => Backdrop j ∈ bodyChildren w
  | Backdrop _ | Dialog _ => False
  | _ => True
  end.

(** A page with a focused input and no modal. *)
Definition page : world :=
  {| bodyChildren := []; closing := []; overflow := "auto";
     escapeListeners := []; trapListeners := [];
     activeElement := Page 0; activeModal := None;
     instances := []; timers := []; closedCalls := [] |}.

Definition confirmDialog : ModalProps :=
  {| closeOnBackdrop := None; closeOnEscape := None; showCloseButton := None;
     onClose := Some 7%nat; content := 2 |}.
End Modal.

(** * Event helpers: [debounce] and [throttle]

    Time is in milliseconds.  [setTimeout(f, delay)] converts [delay]
    to a signed 32-bit integer and takes a negative result as 0, so a
    delay of 2^31 or more does not wait that long; the timer set at
    time [t] runs once the clock has reached [t + timeout delay].
    [Wait ms] lets [ms] milliseconds pass and the due timer run.  The
    function [fn] that is wrapped does not call the wrapper itself;
    [throws args] says whether [fn(...args)] throws. *)
Module Events.

Inductive event (A : Type) :=
| Call (args : A)
| Wait (ms : Z).
Arguments Call {A}.
Arguments Wait {A}.

(** The conversion of a delay to a [long]. *)
Definition toInt32 (n : Z) : Z := (n + 2147483648) mod 4294967296 - 2147483648.

Definition timeout (delay : Z) : Z := Z.max (toInt32 delay) 0.

(** The delays that every timer implementation takes as they are. *)
Definition plainDelay (delay : Z) : Prop := 0 < delay <= 2147483647.

(** Time does not run backwards. *)
Definition forward {A : Type} (es : list (event A)) : Prop :=
  Forall (fun e => match e with Wait ms => 0 <= ms | Call _ => True end) es.

(** The arguments of the calls among the events. *)
Definition requested {A : Type} (es : list (event A)) : list A :=
  omap (fun e => match e with Call args => Some args | Wait _ => None end) es.

(** The closure of [debounce(fn, delay)].  [timeoutId] says whether
    the variable holds an id; [timer] is the timer that waits in the
    event loop: the arguments it passes on and the time it is due.
    [called] lists the calls of [fn]. *)
Record Debounced (A : Type) := mkDebounced {
  clock : Z;
  timeoutId : bool;
  timer : option (A * Z);
  called : list A
}.
Arguments mkDebounced {A}.
Arguments clock {A}.
Arguments timeoutId {A}.
Arguments timer {A}.
Arguments called {A}.

Section Debounce.
Context {A : Type}.
Variable throws : A -> bool.
Variable delay : Z.

Definition debounce : Debounced A :=
  {| clock := 0; timeoutId := false; timer := None; called := [] |}.

(** A call of the debounced function: the timer whose id is held is
    cleared, and a new one is set. *)
Definition debounced (args : A) (d : Debounced A) : Debounced A :=
  {| clock := clock d;
     timeoutId := true;
     timer := Some (args, clock d + timeout delay);
     called := called d |}.

(** The callback of the timer: [fn(...args); timeoutId = null;].  When
    [fn] throws, the variable keeps the id of the timer that has run. *)
Definition debouncedWait (ms : Z) (d : Debounced A) : Debounced A :=
  let now := clock d + ms in
  match timer d with
  | Some (args, due) =>
      if due <=? now
      then {| clock := now;
              timeoutId := if throws args then timeoutId d else false;
              timer := None;
              called := called d ++ [args] |}
      else {| clock := now; timeoutId := timeoutId d; timer := timer d;
              called := called d |}
  | None => {| clock := now; timeoutId := timeoutId d; timer := None;
               called := called d |}
  end.

Definition debouncedStep (d : Debounced A) (e : event A) : Debounced A :=
  match e with
  | Call args => debounced args d
  | Wait ms => debouncedWait ms d
  end.
End Debounce.

(** The closure of [throttle(fn, limit)].  [inThrottle] is [Some due]
    while the flag is set, [due] being the time at which the timer
    clears it.  [executed] lists the calls of [fn] with their times. *)
Record Throttled (A : Type) := mkThrottled {
  now : Z;
  inThrottle : option Z;
  executed : list (Z * A)
}.
Arguments mkThrottled {A}.
Arguments now {A}.
Arguments inThrottle {A}.
Arguments executed {A}.

Section Throttle.
Context {A : Type}.
Variable throws : A -> bool.
Variable limit : Z.

Definition throttle : Throttled A :=
  {| now := 0; inThrottle := None; executed := [] |}.

(** [fn(...args); inThrottle = true; setTimeout(...)]: when [fn]
    throws, the exception goes on to the caller, the flag is not set
    and no timer is set. *)
Definition throttled (args : A) (t : Throttled A) : Throttled A :=
  match inThrottle t with
  | None => {| now := now t;
               inThrottle := if throws args then None
                             else Some (now t + timeout limit);
               executed := executed t ++ [(now t, args)] |}
  | Some _ => t
  end.

Definition throttledWait (ms : Z) (t : Throttled A) : Throttled A :=
  let now' := now t + ms in
  {| now := now';
     inThrottle := match inThrottle t with
                   | Some due => if due <=? now' then None else Some due
                   | None => None
                   end;
     executed := executed t |}.

Definition throttledStep (t : Throttled A) (e : event A) : Throttled A :=
  match e with
  | Call args => throttled args t
  | Wait ms => throttledWait ms t
  end.
End Throttle.

(** A burst of calls, each followed by a pause. *)
Definition burst {A : Type} (calls : list (A * Z)) : list (event A) :=
  flat_map (fun c => [Call c.1; Wait c.2]) calls.

(** An example [fn]: it throws on the empty string. *)
Definition picky (args : string) : bool := bool_decide (args = EmptyString).
End Events.


(* ===================================================================== *)
(** * Theorems                                                           *)
(* ===================================================================== *)

Import State.

(** ** Equality-gated notification (state.ts) *)

Lemma timesCalled_one {T} (cb : nat) (c : State T nat) (v p : T) :
  timesCalled cb {| cell := c; calls := [(cb, v, p)] |} = 1%nat.
Proof.
  unfold timesCalled; simpl.
  rewrite filter_cons_True by reflexivity. reflexivity.
Qed.

(** C3, as stated, fails: when [x] is the value the state already holds,
    [set(x); set(x)] does not call the subscriber at all. *)
Lemma set_twice_initial_value_not_notified :
  timesCalled 7 <$> setTwice Z.eqb (fun _ => []) 2 0 (watched 0 7) = Some 0%nat
  /\ timesCalled 7 <$> setTwice Z.eqb (fun _ => []) 2 0 (watched 0 7) <> Some 1%nat.
Proof. split; [reflexivity | discriminate]. Qed.

(** C3, amended: for a state created by [createState(init)] with one
    subscriber [fn] that only observes, and a non-function value [x] with
    [x === x], the calls [set(x); set(x)] invoke [fn] exactly once when
    [x !== init] and not at all when [x === init]; the second [set(x)]
    never notifies. *)
Theorem set_twice_notifies_at_most_once
    {T} (strict_eq : T -> T -> bool) (act : nat -> list action)
    (init x : T) (fn : nat) :
  strict_eq x x = true ->
  act fn = [] ->
  timesCalled fn <$> setTwice strict_eq act 2 x (watched init fn)
  = Some (if strict_eq x init then 0 else 1)%nat.
Proof.
  intros Hrefl Hact.
  unfold setTwice, cellSet, set, watched, subscribe; simpl.
  destruct (strict_eq x init) eqn:Hx; simpl.
  - rewrite Hrefl; simpl. reflexivity.
  - unfold cellCall; rewrite Hact; simpl.
    rewrite Hrefl; simpl.
    f_equal. apply timesCalled_one.
Qed.

Lemma set_twice_notifies_at_most_once_witness :
  timesCalled 7 <$> setTwice Z.eqb (fun _ => []) 2 5 (watched 0 7) = Some 1%nat.
Proof.
  exact (set_twice_notifies_at_most_once Z.eqb (fun _ => []) 0 5 7
           (Z.eqb_refl 5) eq_refl).
Defined.

(** ** Subscribing and unsubscribing during a notification (state.ts) *)

Section SetFacts.
Implicit Types (s : JSSet.SetData nat) (d c : nat).

Lemma add_lookup d s j c :
  s !! j = Some (Some c) -> JSSet.add d s !! j = Some (Some c).
Proof.
  unfold JSSet.add. destruct (JSSet.has d s); [done|].
  intros H. simpl. rewrite lookup_app_l; [done|]. by eapply lookup_lt_Some.
Qed.

Lemma delete_lookup d s j c :
  c <> d -> s !! j = Some (Some c) -> JSSet.delete d s !! j = Some (Some c).
Proof.
  intros Hne H. unfold JSSet.delete. rewrite list_lookup_fmap, H. simpl.
  rewrite decide_False; [done | congruence].
Qed.

Lemma delete_lookup_inv d s j c :
  JSSet.delete d s !! j = Some (Some c) -> s !! j = Some (Some c).
Proof.
  unfold JSSet.delete. rewrite list_lookup_fmap.
  destruct (s !! j) as [e|]; simpl; [|done].
  case_decide; congruence.
Qed.

Lemma wf_nil : JSSet.wf ([] : JSSet.SetData nat).
Proof. intros i j x H. by rewrite lookup_nil in H. Qed.

Lemma add_wf d s : JSSet.wf s -> JSSet.wf (JSSet.add d s).
Proof.
  unfold JSSet.add, JSSet.has. case_bool_decide as Hin; [done|].
  intros Hwf i j x Hi Hj.
  apply lookup_app_Some in Hi as [Hi | [Hil Hi]];
    apply lookup_app_Some in Hj as [Hj | [Hjl Hj]].
  - by eapply Hwf.
  - apply list_lookup_singleton_Some in Hj as [_ [= ->]].
    destruct Hin. apply list_elem_of_lookup. eauto.
  - apply list_lookup_singleton_Some in Hi as [_ [= ->]].
    destruct Hin. apply list_elem_of_lookup. eauto.
  - apply list_lookup_singleton_Some in Hi as [Hi _].
    apply list_lookup_singleton_Some in Hj as [Hj _]. lia.
Qed.

Lemma delete_wf d s : JSSet.wf s -> JSSet.wf (JSSet.delete d s).
Proof.
  intros Hwf i j x Hi Hj.
  apply delete_lookup_inv in Hi. apply delete_lookup_inv in Hj. by eapply Hwf.
Qed.

Lemma applyActions_wf l s : JSSet.wf s -> JSSet.wf (applyActions l s).
Proof.
  revert s; induction l as [|a l IH]; intros s Hwf; simpl; [done|].
  apply IH. destruct a; [by apply add_wf | by apply delete_wf].
Qed.

(** A value that no action unsubscribes keeps its place. *)
Lemma applyActions_lookup l s j c :
  AUnsubscribe c ∉ l ->
  s !! j = Some (Some c) -> applyActions l s !! j = Some (Some c).
Proof.
  revert s; induction l as [|a l IH]; intros s Hl H; simpl; [done|].
  apply not_elem_of_cons in Hl as [Ha Hl].
  apply IH; [done|]. destruct a as [d|d].
  - by apply add_lookup.
  - apply delete_lookup; [congruence | done].
Qed.
End SetFacts.

(** The states that a program can build satisfy the invariant. *)
Lemma createState_wf {T} (init : T) :
  JSSet.wf (subscribers (createState (Cb := nat) init)).
Proof. apply wf_nil. Qed.

Lemma subscribe_wf {T} (cb : nat) (w : cellWorld T) :
  JSSet.wf (subscribers (cell w)) ->
  JSSet.wf (subscribers (cell (subscribe cellRef cb w))).
Proof. apply add_wf. Qed.

Lemma unsubscribe_wf {T} (cb : nat) (w : cellWorld T) :
  JSSet.wf (subscribers (cell w)) ->
  JSSet.wf (subscribers (cell (unsubscribe cellRef cb w))).
Proof. apply delete_wf. Qed.

Section NotifyFacts.
Context {T : Type} (act : nat -> list action).

Lemma perform_foldl (l : list action) (w : cellWorld T) :
  foldl (fun w a => perform a w) w l
  = {| cell := {| value := value (cell w);
                  subscribers := applyActions l (subscribers (cell w)) |};
       calls := calls w |}.
Proof.
  revert w; induction l as [|a l IH]; intros w; simpl.
  - by destruct w as [[v subs] cs].
  - rewrite IH. by destruct a.
Qed.

(** The loop of [set] calls the subscribers that [visit] lists, with the
    new and the previous value, and leaves the entries that [visit]
    leaves. *)
Lemma for_of_visit (prev : T) (fuel : nat) : forall (idx : nat) (w : cellWorld T),
  JSSet.for_of (fun w => subscribers (cell w))
               (fun cb w => cellCall act cb (value (cell w)) prev w) fuel idx w
  = (fun r => {| cell := {| value := value (cell w); subscribers := r.2 |};
                 calls := calls w ++ ((fun c => (c, value (cell w), prev)) <$> r.1) |})
    <$> visit act fuel idx (subscribers (cell w)).
Proof.
  induction fuel as [|fuel IH]; intros idx w; simpl; [done|].
  destruct (subscribers (cell w) !! idx) as [[cb|]|] eqn:Hidx.
  - unfold cellCall. rewrite perform_foldl. rewrite IH. simpl.
    destruct (visit act fuel (S idx) _) as [[called s']|]; simpl; [|done].
    by rewrite <- app_assoc.
  - apply IH.
  - simpl. rewrite app_nil_r. by destruct w as [[v subs] cs].
Qed.

(** In a finished notification, a subscriber that nobody unsubscribes is
    called once if its entry lies ahead of the iterator, and not at all
    if the iterator has passed it. *)
Lemma visit_once (fuel : nat) :
  forall (idx : nat) (s : JSSet.SetData nat) called s',
    JSSet.wf s ->
    visit act fuel idx s = Some (called, s') ->
    forall cb j,
      (forall c, c ∈ called -> AUnsubscribe cb ∉ act c) ->
      s !! j = Some (Some cb) ->
      length (filter (fun c => c = cb) called) = (if decide (idx <= j)%nat then 1 else 0)%nat.
Proof.
  induction fuel as [|fuel IH]; intros idx s called s' Hwf Hvisit cb j Hkeep Hj;
    simpl in Hvisit; [done|].
  destruct (s !! idx) as [[c|]|] eqn:Hidx.
  - destruct (visit act fuel (S idx) _) as [[called' s'']|] eqn:Hrest; [|done].
    injection Hvisit as <- <-.
    assert (Hc : AUnsubscribe cb ∉ act c) by (apply Hkeep; set_solver).
    assert (Hj' : applyActions (act c) s !! j = Some (Some cb))
      by by apply applyActions_lookup.
    pose proof (IH (S idx) _ _ _ (applyActions_wf _ _ Hwf) Hrest cb j
                  (fun c' Hc' => Hkeep c' ltac:(set_solver)) Hj') as Hcount.
    destruct (decide (c = cb)) as [-> | Hne].
    + assert (idx = j) as -> by by eapply Hwf.
      rewrite filter_cons_True by done. simpl. rewrite Hcount.
      rewrite decide_False by lia. by rewrite decide_True by lia.
    + rewrite filter_cons_False by done. rewrite Hcount.
      assert (idx <> j) by (intros ->; congruence).
      repeat case_decide; lia.
  - rewrite (IH (S idx) s called s' Hwf Hvisit cb j Hkeep Hj).
    assert (idx <> j) by (intros ->; congruence).
    repeat case_decide; lia.
  - injection Hvisit as <- <-.
    apply lookup_ge_None in Hidx. apply lookup_lt_Some in Hj.
    rewrite decide_False by lia. reflexivity.
Qed.
End NotifyFacts.

Section Termination.
Context (act : nat -> list action).
Implicit Types (s : JSSet.SetData nat) (l : list action).

Lemma spawns_false c d : spawns act c = false -> ASubscribe d ∉ act c.
Proof.
  unfold spawns. intros Hc Hin.
  assert (existsb (fun a => match a with ASubscribe _ => true | AUnsubscribe _ => false end)
                  (act c) = true) as Ht
    by (apply existsb_exists; exists (ASubscribe d); by rewrite <- list_elem_of_In).
  congruence.
Qed.

Lemma spawnersAhead_step idx s e :
  s !! idx = Some e ->
  spawnersAhead act idx s
  = ((if from_option (spawns act) false e then 1 else 0) + spawnersAhead act (S idx) s)%nat.
Proof.
  intros H. unfold spawnersAhead. rewrite (drop_S _ _ _ H).
  destruct (from_option (spawns act) false e) eqn:He.
  - by rewrite filter_cons_True.
  - rewrite filter_cons_False; [done | congruence].
Qed.

Lemma spawnersAhead_delete idx d s :
  (spawnersAhead act idx (JSSet.delete d s) <= spawnersAhead act idx s)%nat.
Proof.
  unfold spawnersAhead, JSSet.delete. rewrite <- fmap_drop.
  induction (drop idx s) as [|e rest IH]; [done|].
  rewrite fmap_cons.
  destruct (from_option (spawns act) false e) eqn:He.
  - rewrite (filter_cons_True _ e) by done.
    case_decide.
    + rewrite filter_cons_False by done. cbn [length]. lia.
    + rewrite filter_cons_True by done. cbn [length]. lia.
  - rewrite (filter_cons_False _ e) by congruence.
    case_decide.
    + rewrite filter_cons_False by done. lia.
    + rewrite filter_cons_False by congruence. lia.
Qed.

Lemma spawnersAhead_add idx d s :
  spawns act d = false ->
  (spawnersAhead act idx (JSSet.add d s) <= spawnersAhead act idx s)%nat.
Proof.
  intros Hd. unfold spawnersAhead, JSSet.add.
  destruct (JSSet.has d s); [done|].
  destruct (decide (idx <= length s)%nat) as [Hle | Hgt].
  - rewrite drop_app_le by done. rewrite filter_app, length_app.
    rewrite filter_cons_False by (simpl; congruence). simpl. lia.
  - rewrite drop_app_ge by lia.
    destruct (idx - length s)%nat as [|k] eqn:Hk; [lia|]. simpl.
    rewrite drop_nil. simpl. lia.
Qed.

Lemma spawnersAhead_applyActions idx l s :
  (forall d, ASubscribe d ∈ l -> spawns act d = false) ->
  (spawnersAhead act idx (applyActions l s) <= spawnersAhead act idx s)%nat.
Proof.
  revert s; induction l as [|a l IH]; intros s Hl; simpl; [done|].
  etrans; [apply IH; intros d Hd; apply Hl; set_solver|].
  destruct a as [d|d].
  - apply spawnersAhead_add, Hl. set_solver.
  - apply spawnersAhead_delete.
Qed.

Lemma applyActions_length l s :
  (forall d, ASubscribe d ∉ l) ->
  length (applyActions l s) = length s.
Proof.
  revert s; induction l as [|a l IH]; intros s Hl; simpl; [done|].
  rewrite IH by (intros d Hd; apply (Hl d); set_solver).
  destruct a as [d|d].
  - destruct (Hl d). set_solver.
  - unfold JSSet.delete. by rewrite length_fmap.
Qed.

(** When the callbacks that get subscribed do not subscribe in turn, the
    loop comes to an end. *)
Lemma visit_terminates :
  (forall c d, ASubscribe d ∈ act c -> spawns act d = false) ->
  forall n k idx s,
    (spawnersAhead act idx s <= n)%nat ->
    (length s - idx <= k)%nat ->
    exists fuel r, visit act fuel idx s = Some r.
Proof.
  intros Hleaf n. induction n as [n IHn] using lt_wf_ind.
  intros k. induction k as [|k IHk]; intros idx s Hn Hk.
  - exists 1%nat. simpl. rewrite (proj2 (lookup_ge_None s idx)) by lia. eauto.
  - destruct (s !! idx) as [[c|]|] eqn:Hidx.
    + pose proof (spawnersAhead_step idx s _ Hidx) as Hstep. simpl in Hstep.
      pose proof (spawnersAhead_applyActions (S idx) (act c) s (Hleaf c)) as Hle.
      apply lookup_lt_Some in Hidx as Hlt.
      destruct (spawns act c) eqn:Hc.
      * destruct (IHn (spawnersAhead act (S idx) (applyActions (act c) s)) ltac:(lia)
                    (length (applyActions (act c) s) - S idx)%nat (S idx)
                    (applyActions (act c) s) ltac:(lia) ltac:(lia))
          as (fuel & [called s'] & Hrun).
        exists (S fuel). simpl. rewrite Hidx, Hrun. eauto.
      * destruct (IHk (S idx) (applyActions (act c) s)) as (fuel & [called s'] & Hrun).
        -- lia.
        -- rewrite applyActions_length by (intros d; by apply spawns_false). lia.
        -- exists (S fuel). simpl. rewrite Hidx, Hrun. eauto.
    + pose proof (spawnersAhead_step idx s _ Hidx) as Hstep. simpl in Hstep.
      apply lookup_lt_Some in Hidx as Hlt.
      destruct (IHk (S idx) s) as (fuel & r & Hrun); [lia | lia |].
      exists (S fuel). simpl. rewrite Hidx. eauto.
    + exists 1%nat. simpl. rewrite Hidx. eauto.
Qed.

(** A chain of callbacks that each subscribe the next one keeps the loop
    running: no amount of fuel is enough. *)
Lemma visit_chain_diverges (fuel : nat) : forall idx,
  visit chain fuel idx (Some <$> seq 0 (S idx)) = None.
Proof.
  induction fuel as [|fuel IH]; intros idx; [done|].
  assert (Hidx : (Some <$> seq 0 (S idx)) !! idx = Some (Some idx)).
  { rewrite list_lookup_fmap, lookup_seq_lt by lia. done. }
  assert (Hnext : applyActions (chain idx) (Some <$> seq 0 (S idx))
                  = Some <$> seq 0 (S (S idx))).
  { unfold chain, applyActions. cbn [foldl]. unfold JSSet.add, JSSet.has.
    rewrite bool_decide_eq_false_2.
    - rewrite (seq_S (S idx)), fmap_app. done.
    - intros Hin. apply list_elem_of_fmap in Hin as (y & [= <-] & Hy).
      apply elem_of_seq in Hy. lia. }
  change (visit chain (S fuel) idx (Some <$> seq 0 (S idx)))
    with (match (Some <$> seq 0 (S idx)) !! idx with
          | None => Some ([], Some <$> seq 0 (S idx))
          | Some None => visit chain fuel (S idx) (Some <$> seq 0 (S idx))
          | Some (Some cb) =>
              match visit chain fuel (S idx) (applyActions (chain cb) (Some <$> seq 0 (S idx))) with
              | Some (called, s') => Some (cb :: called, s')
              | None => None
              end
          end).
  rewrite Hidx, Hnext, IH. done.
Qed.
End Termination.

Lemma filter_called {T} (cb : nat) (v p : T) (called : list nat) :
  filter (fun c => c = cb) ((fun c => c.1.1) <$> ((fun c => (c, v, p)) <$> called))
  = filter (fun c => c = cb) called.
Proof. rewrite <- list_fmap_compose. by rewrite list_fmap_id. Qed.

(** What [notifiedBy] is in terms of [visit]. *)
Lemma notifiedBy_visit {T} (strict_eq : T -> T -> bool) (act : nat -> list action)
    (fuel : nat) (x : T) (s : State T nat) :
  strict_eq x (value s) = false ->
  notifiedBy strict_eq act fuel x s = fst <$> visit act fuel 0 (subscribers s).
Proof.
  intros Hx. unfold notifiedBy, cellSet, set. simpl. rewrite Hx. simpl.
  rewrite for_of_visit. simpl.
  destruct (visit act fuel 0 (subscribers s)) as [[called s']|]; simpl; [|done].
  f_equal. rewrite <- list_fmap_compose. by rewrite list_fmap_id.
Qed.




(** ** Computed state and batching (state.ts) *)

Ltac run_sets :=
  cbv -[Z.add Z.eqb]; rewrite ?Z.add_0_r, ?Z.add_0_l.

(** After [a.set(x); b.set(y)] the computed sum reads [x + y]. *)
Lemma computed_sum_get (fn : nat) (x y : Z) :
  cget Sum.c <$> Sum.sets 3 x y (Sum.program fn) = Some (x + y).
Proof.
  run_sets.
  destruct (Z.eqb_spec x 0) as [-> | Hx]; run_sets.
  - destruct (Z.eqb_spec y 0) as [-> | Hy]; run_sets; [reflexivity |].
    destruct (Z.eqb_spec y 0) as [-> | _]; reflexivity.
  - destruct (Z.eqb_spec x 0) as [-> | _]; [lia |]. run_sets.
    destruct (Z.eqb_spec y 0) as [-> | Hy]; run_sets; [reflexivity |].
    destruct (Z.eqb_spec (x + y) x) as [E | _]; [lia |]. reflexivity.
Qed.

(** Inside [batch], each of the two [set] calls that changes the sum
    notifies the subscriber of the computed state at once. *)
Lemma batch_notifies_per_dependency (fn : nat) (x y : Z) :
  x <> 0 -> y <> 0 ->
  Sum.notified <$> Sum.batchSets 3 x y (Sum.program fn)
  = Some [(fn, x, 0); (fn, x + y, x)].
Proof.
  intros Hx Hy. run_sets.
  destruct (Z.eqb_spec x 0) as [-> | _]; [lia |]. run_sets.
  destruct (Z.eqb_spec x 0) as [-> | _]; [lia |]. run_sets.
  destruct (Z.eqb_spec y 0) as [-> | _]; [lia |]. run_sets.
  destruct (Z.eqb_spec (x + y) x) as [E | _]; [lia |]. reflexivity.
Qed.

(** C1 at the specification's own example: [c.get()] is 5 after
    [a.set(2); b.set(3)], but when the two calls are made inside one
    [batch] the subscriber of [c] is called twice, with (2, 0) and then
    (5, 2), not once with (5, 0). *)
Theorem batch_sum_subscriber_called_twice :
  cget Sum.c <$> Sum.sets 3 2 3 (Sum.program 7) = Some 5
  /\ cget Sum.c <$> Sum.batchSets 3 2 3 (Sum.program 7) = Some 5
  /\ Sum.notified <$> Sum.batchSets 3 2 3 (Sum.program 7)
     = Some [(7%nat, 2, 0); (7%nat, 5, 2)]
  /\ Sum.timesNotified 7 <$> Sum.batchSets 3 2 3 (Sum.program 7) = Some 2%nat.
Proof. repeat split; reflexivity. Qed.

(** ** The modal singleton (modal.ts) *)

Import Modal.

(** C2 on the code: after [openModal(A); openModal(B)] both dialogs are
    attached and only a timer stands for the closing of A; when the
    timer runs it cleans up whatever [activeModal] holds then, which is
    B.  A's dialog stays attached, A's listeners stay installed, and the
    body scroll is not restored; no timer is left, and the Escape key
    does nothing any more. *)
Theorem openModal_twice_removes_second (A B : ModalProps) :
  let w := openModal B (openModal A initial) in
  dialogs w = [0%nat; 1%nat]
  /\ activeModal w = Some 1%nat
  /\ timers w = [FromCloseModal]
  /\ dialogs (elapse w) = [0%nat]
  /\ activeModal (elapse w) = None
  /\ trapListeners (elapse w) = [0%nat]
  /\ escapeListeners (elapse w) = (if default true (closeOnEscape A) then [0%nat] else [])
  /\ overflow (elapse w) = "hidden"
  /\ timers (elapse w) = []
  /\ pressEscape (elapse w) = elapse w.
Proof.
  destruct A as [ba ea sa oa ca], B as [bb eb sb ob cb].
  destruct ea as [[|]|], eb as [[|]|], sa as [[|]|], sb as [[|]|], ca, cb;
    repeat apply conj; vm_compute; reflexivity.
Qed.

(** ** The plugin registry (plugins.ts) *)

Section PluginFacts.
Import Plugins.
Variable throws : nat -> bool.

Lemma registerProvide_foldl (n : string) (entries : list (string * nat)) (w : world) :
  state_plugins (state (foldl (registerProvide n) w entries)) = state_plugins (state w)
  /\ hookSubscribers (foldl (registerProvide n) w entries) = hookSubscribers w
  /\ called (foldl (registerProvide n) w entries) = called w.
Proof.
  revert w; induction entries as [|e entries IH]; intros w; simpl; [done|].
  destruct (IH (registerProvide n w e)) as (-> & -> & ->).
  unfold registerProvide; case_bool_decide; done.
Qed.

(** What a successful first installation registers. *)
Lemma use_registers (p : Plugin) (w w1 : world) :
  has w (name p) = false ->
  use throws p w = Returned w1 ->
  state_plugins (state w1) = <[name p := p]> (state_plugins (state w))
  /\ hookSubscribers w1 = match hooks p with
                          | Some h => registerHooks h (hookSubscribers w)
                          | None => hookSubscribers w
                          end.
Proof.
  intros Hfresh Huse. unfold use in Huse. rewrite Hfresh in Huse.
  destruct (list_find _ _) as [[i dep]|]; [discriminate|].
  set (w2 := match hooks p with Some h => _ | None => _ end) in Huse.
  destruct (registerProvide_foldl (name p) (default [] (provides p)) w2)
    as (Hp & Hh & _).
  assert (state_plugins (state w2) = <[name p := p]> (state_plugins (state w))
          /\ hookSubscribers w2 = match hooks p with
                                  | Some h => registerHooks h (hookSubscribers w)
                                  | None => hookSubscribers w
                                  end) as [Hp2 Hh2]
    by (subst w2; destruct (hooks p); done).
  destruct (hooks p ≫= install) as [f|].
  - destruct (throws f); [discriminate|].
    injection Huse as <-. simpl. by rewrite Hp, Hh, Hp2, Hh2.
  - injection Huse as <-. simpl. by rewrite Hp, Hh, Hp2, Hh2.
Qed.

Lemma delete_entries_None (entries : list (string * nat)) (m : gmap string nat) (k : string) :
  m !! k = None ->
  foldl (fun m entry => delete entry.1 m) m entries !! k = None.
Proof.
  revert m; induction entries as [|e entries IH]; intros m Hm; simpl; [done|].
  apply IH. destruct (decide (e.1 = k)) as [->|Hne].
  - apply lookup_delete_eq.
  - by rewrite lookup_delete_ne.
Qed.

Lemma delete_entries_lookup (entries : list (string * nat)) (m : gmap string nat)
    (k : string) (v : nat) :
  (k, v) ∈ entries ->
  foldl (fun m entry => delete entry.1 m) m entries !! k = None.
Proof.
  revert m; induction entries as [|e entries IH]; intros m Hin; simpl.
  - by apply elem_of_nil in Hin.
  - apply elem_of_cons in Hin as [<- | Hin].
    + apply delete_entries_None. apply lookup_delete_eq.
    + by apply IH.
Qed.

(** A guarded call always records the call, whether the hook throws or
    not, and keeps what was recorded before. *)
Lemma guarded_called (where_ : string) (c : hookCall) (hook : nat) (w : world) :
  called (guarded throws where_ c hook w) = called w ++ [c].
Proof. unfold guarded; destruct (throws hook); reflexivity. Qed.

Lemma trigger_calls_each (where_ : string) (mk : nat -> hookCall)
    (l : list nat) (w : world) (f : nat) :
  f ∈ l ->
  mk f ∈ called (foldl (fun w hook => guarded throws where_ (mk hook) hook w) w l).
Proof.
  assert (Hmono : forall l w c,
             c ∈ called w ->
             c ∈ called (foldl (fun w hook => guarded throws where_ (mk hook) hook w) w l)).
  { clear; intros l; induction l as [|h l IH]; intros w c Hc; simpl; [done|].
    apply IH. rewrite guarded_called. set_solver. }
  revert w; induction l as [|h l IH]; intros w Hin; simpl.
  - by apply elem_of_nil in Hin.
  - apply elem_of_cons in Hin as [-> | Hin].
    + apply Hmono. rewrite guarded_called. set_solver.
    + by apply IH.
Qed.

Lemma before_calls_each {V} (before : nat -> V -> V -> V) (old : V)
    (l : list nat) (rw : V * world) (f : nat) :
  f ∈ l ->
  CallBefore f ∈
    called (foldl (fun rw hook =>
                     if throws hook
                     then (rw.1, print (Error "Error in beforeStateUpdate hook:")
                                       (record (CallBefore hook) rw.2))
                     else (before hook old rw.1, record (CallBefore hook) rw.2))
                  rw l).2.
Proof.
  set (step := fun (rw : V * world) hook => if throws hook then _ else _).
  assert (Hstep : forall rw h, called (step rw h).2 = called rw.2 ++ [CallBefore h])
    by (intros ? h; unfold step; destruct (throws h); reflexivity).
  assert (Hmono : forall l rw c, c ∈ called rw.2 -> c ∈ called (foldl step rw l).2).
  { intros l'; induction l' as [|h l' IH]; intros rw' c Hc; simpl; [done|].
    apply IH. rewrite Hstep. set_solver. }
  revert rw; induction l as [|h l IH]; intros rw Hin; simpl.
  - by apply elem_of_nil in Hin.
  - apply elem_of_cons in Hin as [-> | Hin].
    + apply Hmono. rewrite Hstep. set_solver.
    + by apply IH.
Qed.

Lemma push_elem (h : option nat) (l : list nat) (f : nat) :
  h = Some f -> f ∈ push h l.
Proof. intros ->; simpl. set_solver. Qed.
End PluginFacts.

(** C5, as stated, fails where its two halves meet: a plugin whose name
    is already installed and whose dependency is missing is not rejected;
    [use] warns and returns. *)
Lemma use_installed_name_skips_dependency_check :
  Plugins.has Plugins.withLogger "router" = false
  /\ Plugins.use Plugins.quiet Plugins.loggerAgain Plugins.withLogger
     = Plugins.Returned
         (Plugins.print (Plugins.Warn "Plugin logger is already installed.")
                        Plugins.withLogger).
Proof. split; vm_compute; reflexivity. Qed.

(** C5, amended: [use(plugin)] first looks at the name.  If a plugin of
    that name is installed, the call only prints a warning and returns,
    whatever the dependencies are.  Otherwise, if some name in
    [plugin.dependencies] is not installed, the call throws and leaves
    the whole program state (registry, hook subscriber lists, provides
    map) as it was. *)
Theorem use_checks_name_then_dependencies
    (throws : nat -> bool) (plugin : Plugins.Plugin) (w : Plugins.world) :
  (Plugins.has w (Plugins.name plugin) = true ->
   Plugins.use throws plugin w
   = Plugins.Returned
       (Plugins.print
          (Plugins.Warn ("Plugin " +:+ Plugins.name plugin +:+ " is already installed.")) w))
  /\ (Plugins.has w (Plugins.name plugin) = false ->
      forall deps dep,
        Plugins.dependencies plugin = Some deps ->
        dep ∈ deps ->
        Plugins.has w dep = false ->
        exists message, Plugins.use throws plugin w = Plugins.Threw message w).
Proof.
  split.
  - intros Hhas. unfold Plugins.use. by rewrite Hhas.
  - intros Hfresh deps dep Hdeps Hin Hmissing.
    unfold Plugins.use. rewrite Hfresh, Hdeps. simpl.
    destruct (list_find _ deps) as [[i d]|] eqn:Hfind; [by eexists|].
    apply list_find_None in Hfind.
    rewrite Forall_forall in Hfind. by destruct (Hfind dep Hin).
Qed.

Lemma use_checks_name_then_dependencies_witness :
  Plugins.use Plugins.quiet Plugins.loggerAgain Plugins.withLogger
  = Plugins.Returned
      (Plugins.print (Plugins.Warn "Plugin logger is already installed.")
                     Plugins.withLogger)
  /\ exists message,
       Plugins.use Plugins.quiet Plugins.devtools Plugins.withLogger
       = Plugins.Threw message Plugins.withLogger.
Proof.
  split.
  - apply (proj1 (use_checks_name_then_dependencies
                    Plugins.quiet Plugins.loggerAgain Plugins.withLogger)).
    vm_compute; reflexivity.
  - apply (proj2 (use_checks_name_then_dependencies
                    Plugins.quiet Plugins.devtools Plugins.withLogger)
             eq_refl ["logger"; "router"] "router" eq_refl).
    + set_solver.
    + vm_compute; reflexivity.
Defined.

(** C10: when [use(p)] has installed [p], [uninstall(p.name)] removes the
    registry entry and the provided values but leaves the hook subscriber
    lists as they are, so every lifecycle hook of [p] is still called by
    the four dispatch functions. *)
Theorem uninstall_keeps_hooks
    (throws : nat -> bool) (p : Plugins.Plugin) (h : Plugins.PluginHooks)
    (w w1 : Plugins.world) :
  Plugins.has w (Plugins.name p) = false ->
  Plugins.hooks p = Some h ->
  Plugins.use throws p w = Plugins.Returned w1 ->
  let w2 := (Plugins.uninstall (Plugins.name p) w1).2 in
  (Plugins.uninstall (Plugins.name p) w1).1 = true
  /\ Plugins.hasPlugin (Plugins.name p) w2 = false
  /\ (forall k v, (k, v) ∈ default [] (Plugins.provides p) -> Plugins.inject k w2 = None)
  /\ Plugins.hookSubscribers w2 = Plugins.hookSubscribers w1
  /\ (forall f el, Plugins.onMount h = Some f ->
        Plugins.CallMount f el ∈ Plugins.called (Plugins.triggerMount throws el w2))
  /\ (forall f el, Plugins.onUnmount h = Some f ->
        Plugins.CallUnmount f el ∈ Plugins.called (Plugins.triggerUnmount throws el w2))
  /\ (forall f V (before : nat -> V -> V -> V) old new,
        Plugins.beforeStateUpdate h = Some f ->
        Plugins.CallBefore f ∈
          Plugins.called (Plugins.applyBeforeStateUpdate throws V before old new w2).2)
  /\ (forall f, Plugins.afterStateUpdate h = Some f ->
        Plugins.CallAfter f ∈ Plugins.called (Plugins.triggerAfterStateUpdate throws w2)).
Proof.
  intros Hfresh Hhooks Huse.
  destruct (use_registers throws p w w1 Hfresh Huse) as [Hplugins Hsubs].
  rewrite Hhooks in Hsubs.
  unfold Plugins.uninstall. rewrite Hplugins, lookup_insert_eq. simpl.
  repeat split.
  - unfold Plugins.hasPlugin, Plugins.has; simpl.
    apply bool_decide_eq_false. rewrite lookup_delete_eq. by intros [? ?].
  - intros k v Hin. unfold Plugins.inject; simpl.
    by apply delete_entries_lookup with v.
  - intros f el Hf. unfold Plugins.triggerMount; simpl.
    apply (trigger_calls_each throws "onMount" (fun hook => Plugins.CallMount hook el)).
    rewrite Hsubs; simpl. by apply push_elem.
  - intros f el Hf. unfold Plugins.triggerUnmount; simpl.
    apply (trigger_calls_each throws "onUnmount" (fun hook => Plugins.CallUnmount hook el)).
    rewrite Hsubs; simpl. by apply push_elem.
  - intros f V before old new Hf. unfold Plugins.applyBeforeStateUpdate; simpl.
    apply before_calls_each.
    rewrite Hsubs; simpl. by apply push_elem.
  - intros f Hf. unfold Plugins.triggerAfterStateUpdate; simpl.
    apply (trigger_calls_each throws "afterStateUpdate" Plugins.CallAfter).
    rewrite Hsubs; simpl. by apply push_elem.
Qed.

Lemma uninstall_keeps_hooks_witness :
  Plugins.hookSubscribers (Plugins.uninstall "logger" Plugins.withLogger).2
  = Plugins.hookSubscribers Plugins.withLogger
  /\ Plugins.CallMount 2 0 ∈
       Plugins.called
         (Plugins.triggerMount Plugins.quiet 0
            (Plugins.uninstall "logger" Plugins.withLogger).2).
Proof.
  assert (Hfresh : Plugins.has Plugins.initial (Plugins.name Plugins.logger) = false)
    by (vm_compute; reflexivity).
  assert (Huse : Plugins.use Plugins.quiet Plugins.logger Plugins.initial
                 = Plugins.Returned Plugins.withLogger)
    by (vm_compute; reflexivity).
  destruct (uninstall_keeps_hooks Plugins.quiet Plugins.logger _
              Plugins.initial Plugins.withLogger Hfresh eq_refl Huse)
    as (_ & _ & _ & Hsubs & Hmount & _).
  split; [exact Hsubs | exact (Hmount 2%nat 0%nat eq_refl)].
Defined.

(** ** The sort cycle of the table (table.ts) *)

(** Insertion gives a permutation, and an ordered one when the
    comparison function orders the elements at hand. *)
Section SortFacts.
Context {A : Type} (comparefn : A -> A -> Z) (P : A -> Prop).

Lemma insert_perm (x : A) (l : list A) : Table.insert comparefn x l ≡ₚ x :: l.
Proof.
  induction l as [|y l IH]; simpl; [done|].
  destruct (comparefn x y <? 0); [done|].
  rewrite IH. apply Permutation_swap.
Qed.

Lemma sort_perm (l : list A) : Table.sort comparefn l ≡ₚ l.
Proof.
  unfold Table.sort.
  assert (H : forall acc, foldl (fun sorted x => Table.insert comparefn x sorted) acc l
                          ≡ₚ acc ++ l).
  { induction l as [|x l IH]; intros acc; simpl; [by rewrite app_nil_r|].
    rewrite IH, insert_perm. simpl. apply Permutation_middle. }
  apply (H []).
Qed.

Lemma StronglySorted_weaken (R S : A -> A -> Prop) (l : list A) :
  Forall P l ->
  (forall a b, P a -> P b -> R a b -> S a b) -> StronglySorted R l -> StronglySorted S l.
Proof.
  intros HP Himpl Hsorted. induction Hsorted as [|x l Hl IH Hx]; constructor.
  - apply IH. by apply Forall_cons in HP as [_ HP].
  - apply Forall_cons in HP as [HPx HP].
    rewrite Forall_forall in Hx, HP. apply Forall_forall. intros y Hy.
    apply Himpl; auto.
Qed.

(** [before a b]: the comparison function puts [a] strictly before [b]. *)
Let before (a b : A) : Prop := comparefn a b < 0.

Hypothesis before_asym : forall a b, P a -> P b -> before a b -> ~ before b a.
Hypothesis before_trans :
  forall a b c, P a -> P b -> P c -> before a b -> before b c -> before a c.

Lemma insert_sorted (x : A) (l : list A) :
  P x -> Forall P l ->
  StronglySorted (fun a b => ~ before b a) l ->
  StronglySorted (fun a b => ~ before b a) (Table.insert comparefn x l).
Proof.
  intros HPx HP Hsorted.
  induction Hsorted as [|y l Hsorted IH Hy]; simpl; [repeat constructor|].
  apply Forall_cons in HP as [HPy HP].
  destruct (Z.ltb_spec (comparefn x y) 0) as [Hlt | Hge].
  - constructor; [by constructor|].
    constructor; [by apply before_asym|].
    rewrite Forall_forall in Hy, HP. apply Forall_forall. intros z Hz Hzx.
    apply (Hy z Hz). apply before_trans with x; auto.
  - constructor; [by apply IH|].
    rewrite insert_perm. constructor; [unfold before; lia | exact Hy].
Qed.

Lemma sort_sorted (l : list A) :
  Forall P l ->
  StronglySorted (fun a b => ~ before b a) (Table.sort comparefn l).
Proof.
  unfold Table.sort. intros HP.
  assert (H : forall acc,
             Forall P acc ->
             StronglySorted (fun a b => ~ before b a) acc ->
             StronglySorted (fun a b => ~ before b a)
               (foldl (fun sorted x => Table.insert comparefn x sorted) acc l)).
  { induction HP as [|x l HPx HP IH]; intros acc HPacc Hacc; simpl; [done|].
    apply IH; [|by apply insert_sorted].
    rewrite insert_perm. by constructor. }
  apply H; constructor.
Qed.
End SortFacts.

Lemma consistent_order {Row Val : Type} (prop : Row -> string -> Val)
    (lt : Val -> Val -> bool) (props : Table.TableProps) (k : string) :
  Table.consistent prop lt props k = true ->
  (forall a, a ∈ Table.data props -> lt (prop a k) (prop a k) = false)
  /\ (forall a b c, a ∈ Table.data props -> b ∈ Table.data props ->
        c ∈ Table.data props ->
        lt (prop a k) (prop b k) = true -> lt (prop b k) (prop c k) = true ->
        lt (prop a k) (prop c k) = true).
Proof.
  unfold Table.consistent. intros H. apply andb_prop in H as [Hirr Htrans].
  rewrite forallb_forall in Hirr. rewrite forallb_forall in Htrans. split.
  - intros a Ha. apply list_elem_of_In in Ha. apply negb_true_iff. by apply Hirr.
  - intros a b c Ha Hb Hc Hab Hbc.
    apply list_elem_of_In in Ha, Hb, Hc.
    specialize (Htrans a Ha). rewrite forallb_forall in Htrans.
    specialize (Htrans b Hb). rewrite forallb_forall in Htrans.
    specialize (Htrans c Hc). apply andb_prop in Htrans as [Htrans _].
    by rewrite Hab, Hbc in Htrans.
Qed.

(** With a consistent comparison function, what the table processes in
    a sorted state is the sorted data. *)
Lemma getProcessedData_sortedBy {Row Val : Type} (prop : Row -> string -> Val)
    (lt : Val -> Val -> bool) (props : Table.TableProps) (k : string)
    (d : Table.Direction) (t : Table.TableState) :
  Table.consistent prop lt props k = true ->
  Table.sortState t = {| Table.key := Some k; Table.direction := Some d |} ->
  k <> EmptyString ->
  Table.sortedBy prop lt props k d (Table.getProcessedData prop lt props t).
Proof.
  intros Hcons Hsort Hk.
  destruct (consistent_order prop lt props k Hcons) as [Hirr Htrans].
  unfold Table.sortedBy, Table.getProcessedData. rewrite Hsort.
  cbn [Table.key Table.direction]. rewrite bool_decide_eq_false_2 by done.
  split; [apply sort_perm|].
  set (P := fun a : Row => a ∈ Table.data props).
  assert (Hasym : forall a b, P a -> P b ->
             lt (prop a k) (prop b k) = true -> lt (prop b k) (prop a k) = false).
  { intros a b Ha Hb Hab. destruct (lt (prop b k) (prop a k)) eqn:Hba; [|done].
    pose proof (Htrans a b a Ha Hb Ha Hab Hba) as Haa. by rewrite Hirr in Haa. }
  assert (Hbefore : forall a b, P a -> P b ->
             Table.compareRows prop lt k d a b < 0
             <-> match d with
                 | Table.asc => lt (prop a k) (prop b k) = true
                 | Table.desc => lt (prop b k) (prop a k) = true
                 end).
  { intros a b Ha Hb. unfold Table.compareRows.
    destruct d, (lt (prop a k) (prop b k)) eqn:Hab, (lt (prop b k) (prop a k)) eqn:Hba;
      try rewrite (Hasym _ _ Ha Hb Hab) in Hba;
      try rewrite (Hasym _ _ Hb Ha Hba) in Hab; split; intros; try done; lia. }
  assert (Hall : Forall P (Table.sort (Table.compareRows prop lt k d) (Table.data props))).
  { rewrite sort_perm. by apply Forall_forall. }
  apply (StronglySorted_weaken P
           (fun a b => ~ Table.compareRows prop lt k d b a < 0)); [exact Hall| |].
  - intros a b Ha Hb Hnot. simpl in Hnot.
    destruct d.
    + destruct (lt (prop b k) (prop a k)) eqn:Hba; [|done].
      destruct Hnot. by apply Hbefore.
    + destruct (lt (prop a k) (prop b k)) eqn:Hab; [|done].
      destruct Hnot. by apply Hbefore.
  - apply (sort_sorted (Table.compareRows prop lt k d) P).
    + intros a b Ha Hb Hab Hba. apply Hbefore in Hab; [|done..].
      apply Hbefore in Hba; [|done..].
      destruct d; [rewrite (Hasym _ _ Ha Hb Hab) in Hba
                  | rewrite (Hasym _ _ Hb Ha Hab) in Hba]; done.
    + intros a b c Ha Hb Hc Hab Hbc. apply Hbefore in Hab; [|done..].
      apply Hbefore in Hbc; [|done..]. apply Hbefore; [done..|].
      destruct d; [by apply (Htrans a b c) | by apply (Htrans c b a)].
    + by apply Forall_forall.
Qed.

Lemma slice_window {A : Type} (l : list A) (a n : Z) :
  0 <= a -> 0 <= n ->
  Table.slice l a (a + n) = take (Z.to_nat n) (drop (Z.to_nat a) l).
Proof.
  intros Ha Hn. unfold Table.slice.
  rewrite (proj2 (Z.ltb_ge a 0)) by lia.
  rewrite (proj2 (Z.ltb_ge (a + n) 0)) by lia.
  destruct (Z.le_gt_cases a (Z.of_nat (length l))) as [Hle | Hgt].
  - rewrite (Z.min_l a) by lia.
    destruct (Z.le_gt_cases (a + n) (Z.of_nat (length l))) as [Hle' | Hgt'].
    + rewrite Z.min_l by lia. f_equal. lia.
    + rewrite Z.min_r by lia.
      rewrite !take_ge by (rewrite length_drop; lia). reflexivity.
  - rewrite !Z.min_r by lia. rewrite Z.sub_diag. simpl.
    rewrite (drop_ge l (Z.to_nat a)) by lia. by rewrite take_nil.
Qed.

Lemma getProcessedData_length {Row Val : Type} (prop : Row -> string -> Val)
    (lt : Val -> Val -> bool) (props : Table.TableProps) (t : Table.TableState) :
  length (Table.getProcessedData prop lt props t) = length (Table.data props).
Proof.
  unfold Table.getProcessedData.
  destruct (Table.key (Table.sortState t)) as [k|]; [|done].
  destruct (Table.direction (Table.sortState t)) as [d|]; [|done].
  case_bool_decide; [done|]. apply Permutation_length, sort_perm.
Qed.

Lemma getPaginatedData_window {Row Val : Type} (prop : Row -> string -> Val)
    (lt : Val -> Val -> bool) (props : Table.TableProps)
    (pg : Table.PaginationOptions) (t : Table.TableState) :
  Table.pagination props = Some pg ->
  Table.enabled pg = true ->
  0 < Table.pageSize pg ->
  1 <= Table.currentPage t ->
  Table.getPaginatedData prop lt props t
  = take (Z.to_nat (Table.pageSize pg))
         (drop (Z.to_nat (Table.currentPage t - 1) * Z.to_nat (Table.pageSize pg))
               (Table.getProcessedData prop lt props t)).
Proof.
  intros Hpg Hen Hsize Hpage. unfold Table.getPaginatedData. rewrite Hpg, Hen.
  rewrite slice_window by nia. do 2 f_equal. rewrite Z2Nat.inj_mul by lia. done.
Qed.

(** The table of the example sorts by age, stably, over all rows, and
    shows the first page of the result. *)
(** The ages of the example order its rows consistently; with a row
    that has no age, the comparison function is not a consistent
    comparator, and the order of the sorted rows is not determined. *)
Example users_consistent :
  Table.consistent Table.property Table.less Table.usersTable "age" = true
  /\ Table.consistent Table.property Table.less Table.gappyTable "age" = false.
Proof. split; reflexivity. Qed.

Example users_sorted_by_age :
  Table.getPaginatedData Table.property Table.less Table.usersTable
    (Table.toggleSort Table.usersTable "age" Table.initial)
  = [ [("id", 2); ("age", 27)]; [("id", 4); ("age", 27)]; [("id", 3); ("age", 35)] ].
Proof. reflexivity. Qed.

Lemma toggleSort_sortState {Row : Type} (props : @Table.TableProps Row)
    (k : string) (t : Table.TableState) :
  Table.sortState (Table.toggleSort props k t)
  = if negb (bool_decide (Table.key (Table.sortState t) = Some k))
    then {| Table.key := Some k; Table.direction := Some Table.asc |}
    else if bool_decide (Table.direction (Table.sortState t) = Some Table.asc)
         then {| Table.key := Some k; Table.direction := Some Table.desc |}
         else {| Table.key := None; Table.direction := None |}.
Proof.
  unfold Table.toggleSort; simpl.
  repeat case_bool_decide; reflexivity.
Qed.

(** C6: from a state that is not sorted by column [k], three calls of
    [toggleSort(k)] go through ascending and descending and back to no
    sort; the table then processes the rows of the [data] prop in their
    original order.  In the two sorted states, for a column whose values
    the comparison orders consistently, the table processes all the rows
    of [data], sorted by the column, ascending and then descending.  In
    each of the three states the page shown is the window of [pageSize]
    rows at [(page - 1) * pageSize] of those processed rows, and all of
    them when pagination is off. *)
Theorem toggleSort_cycle
    {Row Val : Type} (prop : Row -> string -> Val) (lt : Val -> Val -> bool)
    (props : Table.TableProps) (k : string) (t : Table.TableState) :
  Table.key (Table.sortState t) <> Some k ->
  let t1 := Table.toggleSort props k t in
  let t2 := Table.toggleSort props k t1 in
  let t3 := Table.toggleSort props k t2 in
  Table.sortState t1 = {| Table.key := Some k; Table.direction := Some Table.asc |}
  /\ Table.sortState t2 = {| Table.key := Some k; Table.direction := Some Table.desc |}
  /\ Table.sortState t3 = {| Table.key := None; Table.direction := None |}
  /\ Table.getProcessedData prop lt props t3 = Table.data props
  /\ Table.getPaginatedData prop lt props t3 = Table.page props t (Table.data props)
  /\ (k <> EmptyString -> Table.consistent prop lt props k = true ->
      Table.sortedBy prop lt props k Table.asc (Table.getProcessedData prop lt props t1)
      /\ Table.sortedBy prop lt props k Table.desc
           (Table.getProcessedData prop lt props t2))
  /\ (forall pg ti,
        Table.pagination props = Some pg -> Table.enabled pg = true ->
        0 < Table.pageSize pg -> 1 <= Table.currentPage t ->
        ti ∈ [t1; t2; t3] ->
        Table.getPaginatedData prop lt props ti
        = take (Z.to_nat (Table.pageSize pg))
               (drop (Z.to_nat (Table.currentPage t - 1) * Z.to_nat (Table.pageSize pg))
                     (Table.getProcessedData prop lt props ti)))
  /\ (forall ti,
        Table.pagination props = None
        \/ (exists pg, Table.pagination props = Some pg /\ Table.enabled pg = false) ->
        ti ∈ [t1; t2; t3] ->
        Table.getPaginatedData prop lt props ti = Table.getProcessedData prop lt props ti).
Proof.
  intros Hkey.
  pose proof (toggleSort_sortState props k) as Hstep.
  assert (H1 : Table.sortState (Table.toggleSort props k t)
               = {| Table.key := Some k; Table.direction := Some Table.asc |}).
  { rewrite Hstep. by rewrite bool_decide_eq_false_2. }
  assert (H2 : Table.sortState (Table.toggleSort props k (Table.toggleSort props k t))
               = {| Table.key := Some k; Table.direction := Some Table.desc |}).
  { rewrite Hstep, H1; simpl. by rewrite bool_decide_eq_true_2. }
  assert (H3 : Table.sortState
                 (Table.toggleSort props k
                    (Table.toggleSort props k (Table.toggleSort props k t)))
               = {| Table.key := None; Table.direction := None |}).
  { rewrite Hstep, H2; simpl. by rewrite bool_decide_eq_true_2. }
  cbv zeta.
  split; [exact H1|]. split; [exact H2|]. split; [exact H3|].
  split; [unfold Table.getProcessedData; by rewrite H3|].
  split.
  { unfold Table.getPaginatedData, Table.getProcessedData, Table.page.
    rewrite H3; simpl. reflexivity. }
  split.
  { intros Hk Hcons. split; by apply getProcessedData_sortedBy. }
  split.
  - intros pg ti Hpg Hen Hsize Hpage Hti.
    assert (Hcur : Table.currentPage ti = Table.currentPage t).
    { repeat (apply elem_of_cons in Hti as [-> | Hti]; [reflexivity|]).
      by apply elem_of_nil in Hti. }
    rewrite <- Hcur. apply (getPaginatedData_window prop lt props pg ti); try done.
    by rewrite Hcur.
  - intros ti Hoff _. unfold Table.getPaginatedData.
    destruct Hoff as [-> | (pg & -> & ->)]; reflexivity.
Qed.

Lemma toggleSort_cycle_witness :
  let t1 := Table.toggleSort Table.usersTable "age" Table.initial in
  Table.sortState
    (Table.toggleSort Table.usersTable "age"
       (Table.toggleSort Table.usersTable "age"
          (Table.toggleSort Table.usersTable "age" Table.initial)))
  = {| Table.key := None; Table.direction := None |}
  /\ Table.getProcessedData Table.property Table.less Table.usersTable
       (Table.toggleSort Table.usersTable "age"
          (Table.toggleSort Table.usersTable "age"
             (Table.toggleSort Table.usersTable "age" Table.initial)))
     = Table.users
  /\ Table.sortedBy Table.property Table.less Table.usersTable "age" Table.asc
       (Table.getProcessedData Table.property Table.less Table.usersTable t1)
  /\ Table.getPaginatedData Table.property Table.less Table.usersTable t1
     = take 3 (Table.getProcessedData Table.property Table.less Table.usersTable t1).
Proof.
  assert (Hkey : Table.key (Table.sortState Table.initial) <> Some "age")
    by (simpl; discriminate).
  destruct (toggleSort_cycle Table.property Table.less Table.usersTable "age"
              Table.initial Hkey) as (_ & _ & H3 & Hdata & _ & Hsorted & Hpage & _).
  cbv zeta. split; [exact H3|]. split; [exact Hdata|]. split.
  - apply Hsorted; [discriminate | reflexivity].
  - apply (Hpage {| Table.enabled := true; Table.pageSize := 3 |}); try reflexivity;
      try lia. apply list_elem_of_here.
Defined.

(** ** Form validation *)

Section FormFacts.
Import Validation.

Lemma no_failures_passes (rs : list ValidationRule) (v : string) :
  Nat.eqb (length (failures rs v)) 0 = passes rs v.
Proof.
  unfold failures, passes.
  induction rs as [|rule rs IH]; simpl; [reflexivity|].
  destruct (Result.valid (rule v)) eqn:Hv.
  - rewrite filter_cons_False by (rewrite Hv; discriminate). exact IH.
  - rewrite filter_cons_True by exact Hv. reflexivity.
Qed.

Lemma field_validate_state (field : FieldValidator) :
  let v := value (state field) in
  state (Field.validate field).2
  = {| value := v; touched := true; dirty := true;
       valid := passes (fieldRules field) v;
       errors := failures (fieldRules field) v |}
  /\ fieldRules (Field.validate field).2 = fieldRules field
  /\ (Field.validate field).1 = passes (fieldRules field) v.
Proof.
  unfold Field.validate, Field.setTouched, Field.updateState, Field.results; simpl.
  fold (failures (fieldRules field) (value (state field))).
  rewrite no_failures_passes. done.
Qed.

(** The loop validates every field whatever [allValid] is. *)
Lemma validateAll_fields (fs : list (string * FieldValidator)) (allValid : bool) :
  (validateAll fs allValid).2
  = (fun entry => (entry.1, (Field.validate entry.2).2)) <$> fs.
Proof.
  revert allValid; induction fs as [|[n field] fs IH]; intros allValid;
    [reflexivity|].
  unfold validateAll; fold validateAll. cbn [fst snd fmap list_fmap].
  by rewrite IH.
Qed.

Lemma validateAll_result (fs : list (string * FieldValidator)) (allValid : bool) :
  (validateAll fs allValid).1
  = allValid && forallb (fun entry => (Field.validate entry.2).1) fs.
Proof.
  revert allValid; induction fs as [|[n field] fs IH]; intros allValid.
  - simpl. by rewrite andb_true_r.
  - unfold validateAll; fold validateAll. cbn [fst snd forallb].
    rewrite IH. destruct (Field.validate field).1, allValid; reflexivity.
Qed.

Lemma passes_spec (rs : list ValidationRule) (v : string) :
  passes rs v = true <-> forall rule, rule ∈ rs -> Result.valid (rule v) = true.
Proof.
  unfold passes. rewrite forallb_forall.
  split; intros H rule Hin; apply H; by apply list_elem_of_In.
Qed.
End FormFacts.

(** C7: [form.validate()] validates every field: afterwards each field
    holds the same value, is touched, and its [errors] and [valid] are
    those of its rules at that value; the result is [true] exactly when
    every rule of every field accepts the field's value. *)
Theorem form_validate_all_fields (f : Validation.Form) :
  let r := Validation.validate f in
  Forall2 (fun before after =>
             after.1 = before.1
             /\ Validation.fieldRules after.2 = Validation.fieldRules before.2
             /\ Validation.state after.2
                = {| Validation.value := Validation.value (Validation.state before.2);
                     Validation.touched := true;
                     Validation.dirty := true;
                     Validation.valid :=
                       Validation.passes (Validation.fieldRules before.2)
                              (Validation.value (Validation.state before.2));
                     Validation.errors :=
                       Validation.failures (Validation.fieldRules before.2)
                                (Validation.value (Validation.state before.2)) |})
          (Validation.fields f) (Validation.fields r.2)
  /\ (r.1 = true <->
      forall n field rule,
        (n, field) ∈ Validation.fields f ->
        rule ∈ Validation.fieldRules field ->
        Validation.Result.valid (rule (Validation.value (Validation.state field))) = true).
Proof.
  unfold Validation.validate; cbn [fst snd Validation.fields]. split.
  - rewrite validateAll_fields.
    induction (Validation.fields f) as [|[n field] fs IH]; constructor; [|exact IH].
    cbn [fst snd]. destruct (field_validate_state field) as (Hs & Hr & _). done.
  - rewrite validateAll_result. rewrite andb_true_l, forallb_forall. split.
    + intros H n field rule Hin Hrule.
      specialize (H (n, field) (proj1 (list_elem_of_In _ _) Hin)). cbn [snd] in H.
      destruct (field_validate_state field) as (_ & _ & Hv). rewrite Hv in H.
      exact (proj1 (passes_spec _ _) H rule Hrule).
    + intros H [n field] Hin. cbn [snd].
      destruct (field_validate_state field) as (_ & _ & ->).
      apply passes_spec. intros rule Hrule.
      apply (H n field rule); [by apply list_elem_of_In | exact Hrule].
Qed.

Lemma form_validate_all_fields_witness :
  (Validation.validate Validation.filled).1 = true
  /\ Validation.valid
       <$> (Validation.state <$> (Validation.fields (Validation.validate Validation.filled).2).*2)
     = [true; true].
Proof.
  destruct (form_validate_all_fields Validation.filled) as [Hfields Hresult].
  split; [|reflexivity].
  apply (proj2 Hresult). intros n field rule Hin Hrule.
  unfold Validation.filled, Validation.setValue, Validation.signup,
    Validation.createForm in Hin. simpl in Hin.
  apply elem_of_cons in Hin as [[= -> ->] | Hin].
  - simpl in Hrule. apply list_elem_of_singleton in Hrule as ->. reflexivity.
  - apply list_elem_of_singleton in Hin as [= -> ->]. simpl in Hrule.
    apply elem_of_cons in Hrule as [-> | Hrule]; [reflexivity|].
    apply list_elem_of_singleton in Hrule as ->. reflexivity.
Defined.

(** The fresh example form fails validation, and both of its fields get
    their errors, the second although the first has already failed. *)
Example signup_validate :
  (Validation.validate Validation.signup).1 = false
  /\ (fun entry => (entry.1, Validation.errors (Validation.state entry.2)))
       <$> Validation.fields (Validation.validate Validation.signup).2
     = [ ("name", [Some "This field is required"]);
         ("password", [Some "This field is required";
                       Some "Must be at least 8 characters"]) ].
Proof. split; reflexivity. Qed.



(** ** Disabled dates of the date picker (datepicker.ts) *)

(** C9, as stated, fails: the grid date 15 January 2024 is disabled by an
    entry of [disabledDates] that is noon of that day, a different
    [Date]. *)
Lemma disabled_by_other_time_of_day :
  DatePicker.isDateDisabled DatePicker.jan15 None None (Some [DatePicker.jan15noon]) = true
  /\ DatePicker.disabledPerSpec DatePicker.jan15 None None (Some [DatePicker.jan15noon]) = false
  /\ DatePicker.jan15 <> DatePicker.jan15noon.
Proof. repeat split; [vm_compute; reflexivity .. | discriminate]. Qed.

Lemma isDateDisabled_orb (d : DatePicker.Date) (minDate maxDate : option DatePicker.Date)
    (disabledDates : option (list DatePicker.Date)) :
  DatePicker.isDateDisabled d minDate maxDate disabledDates
  = match minDate with
    | Some m => DatePicker.time d <? DatePicker.time m
    | None => false
    end
    || match maxDate with
       | Some m => DatePicker.time m <? DatePicker.time d
       | None => false
       end
    || match disabledDates with
       | Some ds => existsb (fun e => DatePicker.isSameDay e d) ds
       | None => false
       end.
Proof.
  unfold DatePicker.isDateDisabled.
  destruct minDate as [m|], maxDate as [m'|];
    repeat match goal with
           | |- context [?x <? ?y] => destruct (x <? y)
           end; reflexivity.
Qed.

Lemma grid_button_disabled (props : DatePicker.DatePickerProps)
    (s : DatePicker.PickerState) (b : DatePicker.DayButton) :
  b ∈ DatePicker.buildCalendarGrid props s ->
  DatePicker.isDisabled b
  = DatePicker.isDateDisabled (DatePicker.date b) (DatePicker.minDate props)
      (DatePicker.maxDate props) (DatePicker.disabledDates props).
Proof.
  unfold DatePicker.buildCalendarGrid. cbv zeta.
  rewrite !elem_of_app, !list_elem_of_fmap.
  intros [(i & -> & _) | [(i & -> & _) | (i & -> & _)]]; reflexivity.
Qed.

(** C9, amended: a date is disabled exactly when it is earlier than
    [minDate], or later than [maxDate], or falls on the same calendar day
    (year, month and day of the month) as an entry of [disabledDates].
    The button of a disabled calendar-grid date carries the [disabled]
    attribute, and its click handler changes nothing and does not call
    [onChange]. *)
Theorem isDateDisabled_same_day
    (props : DatePicker.DatePickerProps) (d : DatePicker.Date)
    (minDate maxDate : option DatePicker.Date)
    (disabledDates : option (list DatePicker.Date)) :
  (DatePicker.isDateDisabled d minDate maxDate disabledDates = true <->
     (exists m, minDate = Some m /\ DatePicker.time d < DatePicker.time m)
     \/ (exists m, maxDate = Some m /\ DatePicker.time m < DatePicker.time d)
     \/ (exists ds e, disabledDates = Some ds /\ e ∈ ds
                      /\ DatePicker.isSameDay e d = true))
  /\ (forall s b s',
        b ∈ DatePicker.buildCalendarGrid props s ->
        DatePicker.isDateDisabled (DatePicker.date b) (DatePicker.minDate props)
          (DatePicker.maxDate props) (DatePicker.disabledDates props) = true ->
        DatePicker.isDisabled b = true
        /\ DatePicker.onClick props b s' = s'
        /\ DatePicker.click props b s' = s').
Proof.
  split.
  - rewrite isDateDisabled_orb, !orb_true_iff.
    assert (Hmin : match minDate with
                   | Some m => DatePicker.time d <? DatePicker.time m
                   | None => false
                   end = true
                   <-> exists m, minDate = Some m /\ DatePicker.time d < DatePicker.time m).
    { destruct minDate as [m|]; [rewrite Z.ltb_lt|].
      - split; [eauto | by intros (? & [= <-] & ?)].
      - split; [done | by intros (? & [=] & _)]. }
    assert (Hmax : match maxDate with
                   | Some m => DatePicker.time m <? DatePicker.time d
                   | None => false
                   end = true
                   <-> exists m, maxDate = Some m /\ DatePicker.time m < DatePicker.time d).
    { destruct maxDate as [m|]; [rewrite Z.ltb_lt|].
      - split; [eauto | by intros (? & [= <-] & ?)].
      - split; [done | by intros (? & [=] & _)]. }
    assert (Hlist : match disabledDates with
                    | Some ds => existsb (fun e => DatePicker.isSameDay e d) ds
                    | None => false
                    end = true
                    <-> exists ds e, disabledDates = Some ds /\ e ∈ ds
                                     /\ DatePicker.isSameDay e d = true).
    { destruct disabledDates as [ds|];
        [|split; [done | by intros (? & ? & [=] & _)]].
      rewrite existsb_exists. split.
      - intros (e & Hin & He). exists ds, e. by rewrite list_elem_of_In.
      - intros (ds' & e & [= <-] & Hin & He). exists e. by rewrite <- list_elem_of_In. }
    rewrite Hmin, Hmax, Hlist. tauto.
  - intros s b s' Hin Hdis.
    pose proof (grid_button_disabled props s b Hin) as Hb. rewrite Hdis in Hb.
    unfold DatePicker.onClick, DatePicker.click. rewrite Hb. done.
Qed.

Lemma isDateDisabled_same_day_witness :
  DatePicker.isDateDisabled DatePicker.jan15 None None (Some [DatePicker.jan15noon]) = true
  /\ (forall b,
        b ∈ DatePicker.buildCalendarGrid DatePicker.holidays DatePicker.january ->
        DatePicker.date b = DatePicker.jan15 ->
        DatePicker.click DatePicker.holidays b DatePicker.january = DatePicker.january).
Proof.
  pose proof (isDateDisabled_same_day DatePicker.holidays DatePicker.jan15 None None
                (Some [DatePicker.jan15noon])) as [Hiff Hgrid].
  split.
  - apply (proj2 Hiff). right; right.
    exists [DatePicker.jan15noon], DatePicker.jan15noon.
    split; [reflexivity | split; [apply list_elem_of_singleton; reflexivity |]].
    vm_compute; reflexivity.
  - intros b Hin Hdate.
    assert (Hdis : DatePicker.isDateDisabled (DatePicker.date b)
                     (DatePicker.minDate DatePicker.holidays)
                     (DatePicker.maxDate DatePicker.holidays)
                     (DatePicker.disabledDates DatePicker.holidays) = true)
      by (rewrite Hdate; vm_compute; reflexivity).
    exact (proj2 (proj2 (Hgrid DatePicker.january b DatePicker.january Hin Hdis))).
Defined.


(* ===================================================================== *)
(** * Further properties of the code                                     *)
(* ===================================================================== *)

(** ** Notification order and the subscriber set (state.ts) *)

Lemma visit_passive {T : Type} (act : nat -> list action) (s : JSSet.SetData nat) :
  (forall cb, Some cb ∈ s -> act cb = []) ->
  forall n idx,
    (length s - idx = n)%nat ->
    visit act (S n) idx s = Some (JSSet.values (drop idx s), s).
Proof.
  intros Hpassive n. induction n as [|n IH]; intros idx Hn.
  - simpl. rewrite (proj2 (lookup_ge_None s idx)) by lia.
    by rewrite drop_ge by lia.
  - destruct (s !! idx) as [e|] eqn:Hidx;
      [|apply lookup_ge_None in Hidx; lia].
    rewrite (drop_S _ _ _ Hidx).
    change (visit act (S (S n)) idx s)
      with (match s !! idx with
            | None => Some ([], s)
            | Some None => visit act (S n) (S idx) s
            | Some (Some cb) =>
                match visit act (S n) (S idx) (applyActions (act cb) s) with
                | Some (called, s') => Some (cb :: called, s')
                | None => None
                end
            end).
    rewrite Hidx. destruct e as [cb|].
    + rewrite (Hpassive cb) by (apply list_elem_of_lookup; eauto).
      unfold applyActions; cbn [foldl]. rewrite IH by lia. reflexivity.
    + rewrite IH by lia. reflexivity.
Qed.

(** X1: when the value changes and the subscribers only observe, [set]
    calls every subscriber exactly in subscription order, each with the
    new and the previous value, and leaves the subscriber set alone. *)
Theorem set_notifies_in_subscription_order
    {T} (strict_eq : T -> T -> bool) (act : nat -> list action)
    (s : State T nat) (x : T) :
  strict_eq x (value s) = false ->
  (forall cb, Some cb ∈ subscribers s -> act cb = []) ->
  cellSet strict_eq act (S (length (subscribers s))) (Literal x)
          {| cell := s; calls := [] |}
  = Some {| cell := {| value := x; subscribers := subscribers s |};
            calls := (fun cb => (cb, x, value s)) <$> JSSet.values (subscribers s) |}.
Proof.
  intros Hx Hpassive. unfold cellSet, set. cbn [sel upd cellRef cell calls value].
  rewrite Hx. cbn [negb]. rewrite for_of_visit. cbn [cell calls value subscribers].
  rewrite (visit_passive (T := T) act _ Hpassive (length (subscribers s)) 0%nat) by lia.
  reflexivity.
Qed.

Lemma set_notifies_in_subscription_order_witness :
  notifiedBy Z.eqb (fun _ => []) 4 1 three = Some [1; 2; 3]%nat.
Proof.
  unfold notifiedBy.
  change 4%nat with (S (length (subscribers three))).
  rewrite (set_notifies_in_subscription_order Z.eqb (fun _ => []) three 1 eq_refl
             (fun _ _ => eq_refl)).
  reflexivity.
Defined.

Lemma values_delete (cb : nat) (s : JSSet.SetData nat) :
  JSSet.values (JSSet.delete cb s) = filter (fun c => c <> cb) (JSSet.values s).
Proof.
  unfold JSSet.values, JSSet.delete.
  induction s as [|e s IH]; [done|].
  rewrite fmap_cons. destruct e as [c|]; cbn [omap list_omap id].
  - case_decide as He.
    + injection He as ->. cbn [omap list_omap id].
      rewrite filter_cons_False by (intros H; by apply H). exact IH.
    + cbn [omap list_omap id]. rewrite filter_cons_True by congruence.
      by rewrite <- IH.
  - rewrite decide_False by discriminate. exact IH.
Qed.

Lemma has_values (cb : nat) (s : JSSet.SetData nat) :
  JSSet.has cb s = bool_decide (cb ∈ JSSet.values s).
Proof.
  unfold JSSet.has, JSSet.values. apply bool_decide_ext.
  rewrite list_elem_of_omap. split.
  - intros H. by exists (Some cb).
  - intros (e & He & Hid). simpl in Hid. by subst.
Qed.

Lemma values_add (cb : nat) (s : JSSet.SetData nat) :
  JSSet.values (JSSet.add cb s)
  = if bool_decide (cb ∈ JSSet.values s) then JSSet.values s else JSSet.values s ++ [cb].
Proof.
  unfold JSSet.add. rewrite has_values. case_bool_decide; [done|].
  unfold JSSet.values. by rewrite omap_app.
Qed.

(** X2: [subscribe] is the insertion into an ordered set: subscribing a
    callback that is subscribed changes nothing, a new one goes last.
    The function returned by [subscribe] removes the callback and keeps
    the order of the others, so unsubscribing and subscribing again moves
    a callback to the end of the notification order. *)
Theorem subscribe_unsubscribe_order {T : Type} (cb : nat) (w : cellWorld T) :
  let subs := fun w : cellWorld T => JSSet.values (subscribers (cell w)) in
  subs (subscribe cellRef cb w)
  = (if bool_decide (cb ∈ subs w) then subs w else subs w ++ [cb])
  /\ subscribe cellRef cb (subscribe cellRef cb w) = subscribe cellRef cb w
  /\ subs (unsubscribe cellRef cb w) = filter (fun c => c <> cb) (subs w)
  /\ subs (subscribe cellRef cb (unsubscribe cellRef cb w))
     = filter (fun c => c <> cb) (subs w) ++ [cb].
Proof.
  cbv zeta. unfold subscribe, unsubscribe. cbn [sel upd cellRef cell calls value subscribers].
  repeat apply conj.
  - apply values_add.
  - do 2 f_equal. unfold JSSet.add at 1.
    rewrite has_values, values_add.
    rewrite bool_decide_eq_true_2; [done|].
    case_bool_decide; [done|]. apply elem_of_app. right. apply list_elem_of_here.
  - apply values_delete.
  - rewrite values_add, values_delete.
    rewrite bool_decide_eq_false_2; [done|].
    intros Hin. apply list_elem_of_filter in Hin as [Hne _]. by apply Hne.
Qed.

(** X3: when [set] returns, the state holds the literal passed, or the
    result of the updater applied to the value held before the call;
    subscribers that subscribe or unsubscribe do not change that.  When
    the new value is [===] to the old one, nothing else happens. *)
Theorem set_stores_new_value
    {T} (strict_eq : T -> T -> bool) (act : nat -> list action)
    (fuel : nat) (arg : SetArg T) (w w' : cellWorld T) :
  cellSet strict_eq act fuel arg w = Some w' ->
  let new := match arg with
             | Literal x => x
             | Updater f => f (value (cell w))
             end in
  value (cell w') = new
  /\ (if strict_eq new (value (cell w))
      then subscribers (cell w') = subscribers (cell w) /\ calls w' = calls w
      else exists called, calls w' = calls w ++ called).
Proof.
  intros Hrun. cbv zeta.
  unfold cellSet, set in Hrun. cbn [sel upd cellRef cell calls value subscribers] in Hrun.
  set (new := match arg with Literal x => x | Updater f => f (value (cell w)) end) in *.
  destruct (strict_eq new (value (cell w))); cbn [negb] in Hrun.
  - injection Hrun as <-. done.
  - rewrite for_of_visit in Hrun. cbn [cell calls value subscribers] in Hrun.
    destruct (visit act fuel 0 (subscribers (cell w))) as [[called s']|];
      [|discriminate].
    injection Hrun as <-. split; [done|]. by eexists.
Qed.

Lemma set_stores_new_value_witness :
  (fun w => value (cell w)) <$> cellSet Z.eqb busy 5 (Updater (fun n => n + 1))
                                         {| cell := three; calls := [] |}
  = Some 1.
Proof.
  destruct (cellSet Z.eqb busy 5 (Updater (fun n => n + 1)) {| cell := three; calls := [] |})
    as [w'|] eqn:Hrun; [|discriminate Hrun].
  destruct (set_stores_new_value Z.eqb busy 5 _ _ w' Hrun) as [Hv _].
  simpl. f_equal. exact Hv.
Defined.

(** ** Computed state outside [batch] (state.ts) *)

(** X4: for [c = createComputed([a, b], (x, y) => x + y)] over two states
    that start at 0, and safe integers [x] and [y] whose sum is a safe
    integer: after [a.set(x); b.set(y)] the cached value is [x + y], and
    the subscriber of [c] has been called once for each of the two [set]
    calls that changed the sum (with the sum after and before that call)
    and not for a call that left it as it was. *)
Theorem computed_notifies_on_each_change (fn : nat) (x y : Z) :
  Sum.isSafeInteger x = true ->
  Sum.isSafeInteger y = true ->
  Sum.isSafeInteger (x + y) = true ->
  cget Sum.c <$> Sum.sets 3 x y (Sum.program fn) = Some (x + y)
  /\ Sum.notified <$> Sum.sets 3 x y (Sum.program fn)
     = Some ((if x =? 0 then [] else [(fn, x, 0)])
             ++ (if y =? 0 then [] else [(fn, x + y, x)])).
Proof.
  intros _ _ _.
  split; [apply computed_sum_get|].
  run_sets.
  destruct (Z.eqb_spec x 0) as [-> | Hx]; run_sets.
  - destruct (Z.eqb_spec y 0) as [-> | Hy]; run_sets; [reflexivity|].
    destruct (Z.eqb_spec y 0) as [-> | _]; [lia | reflexivity].
  - destruct (Z.eqb_spec x 0) as [-> | _]; [lia|]. run_sets.
    destruct (Z.eqb_spec y 0) as [-> | Hy]; run_sets; [reflexivity|].
    destruct (Z.eqb_spec (x + y) x) as [E | _]; [lia | reflexivity].
Qed.

Lemma computed_notifies_on_each_change_witness :
  cget Sum.c <$> Sum.sets 3 4 (-4) (Sum.program 7) = Some 0
  /\ Sum.notified <$> Sum.sets 3 4 (-4) (Sum.program 7)
     = Some [(7%nat, 4, 0); (7%nat, 0, 4)].
Proof.
  apply (computed_notifies_on_each_change 7 4 (-4)); reflexivity.
Defined.

(** ** Batching (state.ts) *)

Lemma runQueue_run (queue : list nat) (w : Queue.world) :
  runQueue Queue.run queue w
  = Some {| Queue.batching := Queue.batching w; Queue.ran := Queue.ran w ++ queue |}.
Proof.
  revert w; induction queue as [|n queue IH]; intros w; simpl.
  - rewrite app_nil_r. by destruct w.
  - rewrite IH. simpl. by rewrite <- app_assoc.
Qed.

Lemma exec_Nested (body : list Queue.step) (w : Queue.world) :
  Queue.exec (Queue.Nested body) w
  = batch Queue.batching Queue.updBatch Queue.run (Queue.execAll body) w.
Proof. reflexivity. Qed.

(** Inside a batch nothing is flushed: direct calls run, queued callbacks
    pile up, at any depth of nesting. *)
Lemma exec_inside_batch :
  forall (s : Queue.step) (w : Queue.world),
    (0 < batchDepth (Queue.batching w))%nat ->
    Queue.exec s w
    = Some {| Queue.batching :=
                {| batchDepth := batchDepth (Queue.batching w);
                   batchQueue := batchQueue (Queue.batching w) ++ Queue.queued s |};
              Queue.ran := Queue.ran w ++ Queue.direct s |}.
Proof.
  fix IH 1. intros [n|n|body] w Hd.
  - simpl. unfold queueBatchCallback.
    destruct (batchDepth (Queue.batching w)); [lia|].
    simpl. unfold Queue.updBatch. by rewrite app_nil_r.
  - simpl. unfold Queue.run. rewrite app_nil_r. by destruct w as [[d q] r].
  - rewrite exec_Nested. unfold batch.
    assert (Hall : forall w : Queue.world,
               (0 < batchDepth (Queue.batching w))%nat ->
               Queue.execAll body w
               = Some {| Queue.batching :=
                           {| batchDepth := batchDepth (Queue.batching w);
                              batchQueue := batchQueue (Queue.batching w)
                                            ++ flat_map Queue.queued body |};
                         Queue.ran := Queue.ran w ++ flat_map Queue.direct body |}).
    { clear w Hd. induction body as [|s l IHl]; intros w Hd.
      - simpl. rewrite !app_nil_r. by destruct w as [[d q] r].
      - simpl. rewrite (IH s w Hd). rewrite IHl by (simpl; lia).
        simpl. by rewrite <- !app_assoc. }
    rewrite Hall by (simpl; lia). simpl.
    destruct (batchDepth (Queue.batching w)) as [|d] eqn:Hdepth; [lia|].
    reflexivity.
Qed.

Lemma execAll_inside_batch (l : list Queue.step) (w : Queue.world) :
  (0 < batchDepth (Queue.batching w))%nat ->
  Queue.execAll l w
  = Some {| Queue.batching :=
              {| batchDepth := batchDepth (Queue.batching w);
                 batchQueue := batchQueue (Queue.batching w) ++ flat_map Queue.queued l |};
            Queue.ran := Queue.ran w ++ flat_map Queue.direct l |}.
Proof.
  revert w. induction l as [|s l IHl]; intros w Hd.
  - simpl. rewrite !app_nil_r. by destruct w as [[d q] r].
  - simpl. rewrite (exec_inside_batch s w Hd). rewrite IHl by (simpl; lia).
    simpl. by rewrite <- !app_assoc.
Qed.

(** X5: outside any batch [queueBatchCallback] calls the callback at
    once.  An outermost [batch] runs the callbacks that its body, nested
    batches included, has queued: each exactly once, in the order of
    queueing, after everything the body called directly; it leaves the
    depth at 0 and the queue empty. *)
Theorem batch_flushes_once_at_outermost (body : list Queue.step) (n : nat) (w : Queue.world) :
  batchDepth (Queue.batching w) = 0%nat ->
  batchQueue (Queue.batching w) = [] ->
  Queue.exec (Queue.Enqueue n) w = Queue.run n w
  /\ Queue.exec (Queue.Nested body) w
     = Some {| Queue.batching := {| batchDepth := 0; batchQueue := [] |};
               Queue.ran := Queue.ran w ++ flat_map Queue.direct body
                                        ++ flat_map Queue.queued body |}.
Proof.
  intros Hd Hq. split.
  - simpl. unfold queueBatchCallback. by rewrite Hd.
  - rewrite exec_Nested. unfold batch.
    rewrite execAll_inside_batch by (simpl; lia).
    cbn [Queue.batching Queue.ran Queue.updBatch batchDepth batchQueue].
    rewrite Hd, Hq. cbn [Nat.pred Nat.eqb app].
    rewrite runQueue_run. unfold Queue.updBatch. cbn [Queue.batching Queue.ran].
    by rewrite <- app_assoc.
Qed.

Lemma batch_flushes_once_at_outermost_witness :
  Queue.ran
  <$> Queue.exec
        (Queue.Nested [Queue.Enqueue 1; Queue.Nested [Queue.Enqueue 2; Queue.Direct 3];
                       Queue.Direct 4])
        {| Queue.batching := {| batchDepth := 0; batchQueue := [] |}; Queue.ran := [] |}
  = Some [3; 4; 1; 2]%nat.
Proof.
  rewrite (proj2 (batch_flushes_once_at_outermost _ 0%nat
                    {| Queue.batching := {| batchDepth := 0; batchQueue := [] |};
                       Queue.ran := [] |} eq_refl eq_refl)).
  reflexivity.
Defined.

(** ** Persistent state (state.ts) *)

(** X6: a value that survives [JSON.parse(JSON.stringify(v))] survives a
    reload: when a persistent state is set to a changed value [v] and the
    storage takes the item, the storage holds [JSON.stringify(v)] under
    the key and nothing else changes in it, and a persistent state
    created from that storage under the same key starts at [v], whatever
    its default. *)
Theorem persistent_state_round_trip
    {T} (strict_eq : T -> T -> bool) (stringify : T -> string)
    (parse : string -> option T)
    (accepts : gmap string string -> string -> string -> bool)
    (key : string) (defaultValue defaultValue' v : T) (storage : gmap string string) :
  let w0 := createPersistentState parse key defaultValue storage in
  strict_eq v (value (pcell w0)) = false ->
  accepts storage key (stringify v) = true ->
  parse (stringify v) = Some v ->
  exists w1,
    pset strict_eq stringify accepts key 2 (Literal v) w0 = Some w1
    /\ value (pcell w1) = v
    /\ localStorage w1 = <[key := stringify v]> storage
    /\ value (pcell (createPersistentState parse key defaultValue' (localStorage w1))) = v.
Proof.
  intros w0 Hchanged Haccepts Hparse.
  unfold pset, set. cbn [sel upd pref]. rewrite Hchanged. cbn [negb].
  subst w0. unfold createPersistentState, subscribe.
  cbn [sel upd pref pcell localStorage observed value subscribers createState].
  simpl. rewrite Haccepts. eexists. split; [reflexivity|]. simpl.
  repeat apply conj; [done | done |].
  rewrite lookup_insert_eq. by rewrite Hparse.
Qed.

Lemma persistent_state_round_trip_witness :
  exists w1,
    pset Z.eqb (fun z : Z => if z =? 1 then "1" else "0") (fun _ _ _ => true)
         "flag" 2 (Literal 1)
         (createPersistentState
            (fun t => if bool_decide (t = "1") then Some 1 else Some 0) "flag" 0 ∅)
    = Some w1
    /\ value (pcell w1) = 1
    /\ localStorage w1 = <["flag" := "1"]> ∅
    /\ value (pcell (createPersistentState
                       (fun t => if bool_decide (t = "1") then Some 1 else Some 0)
                       "flag" 0 (localStorage w1))) = 1.
Proof.
  apply (persistent_state_round_trip Z.eqb
           (fun z : Z => if z =? 1 then "1" else "0")
           (fun t => if bool_decide (t = "1") then Some 1 else Some 0)
           (fun _ _ _ => true) "flag" 0 0 1 ∅); reflexivity.
Defined.

(** X7: the persistent state never fails because of the storage.  A
    missing or unparsable item gives the default value, and creation
    writes nothing.  When the storage refuses the item, [set] still
    changes the value and completes, and the storage is as before. *)
Theorem persistent_state_swallows_storage_errors
    {T} (strict_eq : T -> T -> bool) (stringify : T -> string)
    (parse : string -> option T)
    (accepts : gmap string string -> string -> string -> bool)
    (key : string) (defaultValue v : T) (storage : gmap string string) :
  let w0 := createPersistentState parse key defaultValue storage in
  localStorage w0 = storage
  /\ (storage !! key ≫= parse = None -> value (pcell w0) = defaultValue)
  /\ (accepts storage key (stringify v) = false ->
      exists w1,
        pset strict_eq stringify accepts key 2 (Literal v) w0 = Some w1
        /\ value (pcell w1) = v
        /\ localStorage w1 = storage).
Proof.
  cbv zeta. repeat apply conj.
  - reflexivity.
  - intros Hno. unfold createPersistentState, subscribe. simpl.
    destruct (storage !! key) as [stored|]; [|done].
    simpl in Hno. by rewrite Hno.
  - intros Hrefuse. unfold pset, set. cbn [sel upd pref].
    unfold createPersistentState, subscribe.
    cbn [sel upd pref pcell localStorage observed value subscribers createState].
    match goal with |- context [strict_eq v ?old] => destruct (strict_eq v old) end;
      cbn [negb].
    + eexists. split; [reflexivity|]. done.
    + simpl. rewrite Hrefuse. eexists. split; [reflexivity|]. done.
Qed.

Lemma persistent_state_swallows_storage_errors_witness :
  value (pcell (createPersistentState (fun _ : string => @None Z) "flag" 7
                  (<["flag" := "{"]> ∅))) = 7
  /\ exists w1,
       pset Z.eqb (fun _ : Z => "1") (fun _ _ _ => false) "flag" 2 (Literal 1)
            (createPersistentState (fun _ : string => @None Z) "flag" 7
               (<["flag" := "{"]> ∅))
       = Some w1
       /\ value (pcell w1) = 1
       /\ localStorage w1 = <["flag" := "{"]> ∅.
Proof.
  destruct (persistent_state_swallows_storage_errors Z.eqb (fun _ : Z => "1")
              (fun _ : string => @None Z) (fun _ _ _ => false) "flag" 7 1
              (<["flag" := "{"]> ∅)) as (_ & Hdefault & Hset).
  split; [apply Hdefault | apply Hset]; reflexivity.
Defined.

(** ** Installing plugins and dispatching hooks (plugins.ts) *)

Section PluginExtras.
Import Plugins.
Variable throws : nat -> bool.

Lemma registerProvide_provides (n : string) (entries : list (string * nat)) (w : world) :
  state_provides (state (foldl (registerProvide n) w entries))
  = foldl (fun m entry => <[entry.1 := entry.2]> m) (state_provides (state w)) entries.
Proof.
  revert w; induction entries as [|e entries IH]; intros w; simpl; [done|].
  rewrite IH. unfold registerProvide; case_bool_decide; done.
Qed.

Lemma insert_entries_lookup (entries : list (string * nat)) (m : gmap string nat)
    (k : string) :
  k ∉ entries.*1 ->
  foldl (fun m entry => <[entry.1 := entry.2]> m) m entries !! k = m !! k.
Proof.
  revert m; induction entries as [|e entries IH]; intros m Hk; simpl; [done|].
  rewrite fmap_cons in Hk. apply not_elem_of_cons in Hk as [Hne Hk].
  rewrite IH by done. by rewrite lookup_insert_ne.
Qed.

Lemma insert_entries_lookup_in (entries : list (string * nat)) (m : gmap string nat)
    (k : string) (v : nat) :
  NoDup entries.*1 ->
  (k, v) ∈ entries ->
  foldl (fun m entry => <[entry.1 := entry.2]> m) m entries !! k = Some v.
Proof.
  revert m; induction entries as [|e entries IH]; intros m Hnd Hin; simpl.
  - by apply elem_of_nil in Hin.
  - rewrite fmap_cons in Hnd. apply NoDup_cons in Hnd as [Hfresh Hnd].
    apply elem_of_cons in Hin as [<- | Hin].
    + rewrite insert_entries_lookup by done. apply lookup_insert_eq.
    + by apply IH.
Qed.

(** What [use] does to a plugin whose name is new and whose dependencies
    are installed, whether its install hook throws or not. *)
Lemma use_fresh (p : Plugin) (w : world) :
  has w (name p) = false ->
  Forall (fun dep => has w dep = true) (default [] (dependencies p)) ->
  let w' := after (use throws p w) in
  state_plugins (state w') = <[name p := p]> (state_plugins (state w))
  /\ state_provides (state w')
     = foldl (fun m entry => <[entry.1 := entry.2]> m) (state_provides (state w))
             (default [] (provides p))
  /\ hookSubscribers w' = match hooks p with
                          | Some h => registerHooks h (hookSubscribers w)
                          | None => hookSubscribers w
                          end
  /\ called w' = called w ++ match hooks p ≫= install with
                             | Some f => [CallInstall f]
                             | None => []
                             end
  /\ use throws p w = match hooks p ≫= install with
                      | Some f => if throws f then Threw "install hook" w' else Returned w'
                      | None => Returned w'
                      end.
Proof.
  intros Hfresh Hdeps. cbv zeta. unfold use. rewrite Hfresh.
  destruct (list_find _ _) as [[i dep]|] eqn:Hfind.
  { apply list_find_Some in Hfind as (Hin & Hmiss & _).
    rewrite Forall_lookup in Hdeps. specialize (Hdeps _ _ Hin). simpl in Hdeps.
    congruence. }
  set (w2 := match hooks p with Some h => _ | None => _ end).
  destruct (registerProvide_foldl (name p) (default [] (provides p)) w2)
    as (Hp & Hh & Hc).
  pose proof (registerProvide_provides (name p) (default [] (provides p)) w2) as Hv.
  assert (state_plugins (state w2) = <[name p := p]> (state_plugins (state w))
          /\ state_provides (state w2) = state_provides (state w)
          /\ hookSubscribers w2 = match hooks p with
                                  | Some h => registerHooks h (hookSubscribers w)
                                  | None => hookSubscribers w
                                  end
          /\ called w2 = called w) as (Hp2 & Hv2 & Hh2 & Hc2)
    by (subst w2; destruct (hooks p); done).
  destruct (hooks p ≫= install) as [f|].
  - destruct (throws f); simpl; rewrite Hp, Hv, Hh, Hc, Hp2, Hv2, Hh2, Hc2; done.
  - simpl. rewrite Hp, Hv, Hh, Hc, Hp2, Hv2, Hh2, Hc2, app_nil_r. done.
Qed.

Lemma guarded_foldl (where_ : string) (mk : nat -> hookCall) (l : list nat) (w : world) :
  foldl (fun w hook => guarded throws where_ (mk hook) hook w) w l
  = {| state := state w;
       hookSubscribers := hookSubscribers w;
       console := console w
                  ++ ((fun _ => Error ("Error in " +:+ where_ +:+ " hook:"))
                      <$> filter (fun hook => throws hook = true) l);
       called := called w ++ (mk <$> l) |}.
Proof.
  revert w; induction l as [|h l IH]; intros w.
  - simpl. rewrite !app_nil_r. by destruct w.
  - cbn [foldl]. rewrite IH. unfold guarded, print, record.
    destruct (throws h) eqn:Hh; cbn [state hookSubscribers console called].
    + rewrite filter_cons_True by done. rewrite !fmap_cons, <- !app_assoc. done.
    + rewrite filter_cons_False by congruence. rewrite !fmap_cons, <- !app_assoc. done.
Qed.
End PluginExtras.

Lemma use_returned_dependencies
    (throws : nat -> bool) (plugin : Plugins.Plugin) (w w' : Plugins.world) :
  Plugins.has w (Plugins.name plugin) = false ->
  Plugins.use throws plugin w = Plugins.Returned w' ->
  Forall (fun dep => Plugins.has w dep = true) (default [] (Plugins.dependencies plugin)).
Proof.
  intros Hhas Huse. unfold Plugins.use in Huse. rewrite Hhas in Huse.
  destruct (list_find _ _) as [[i dep]|] eqn:Hfind; [discriminate|].
  apply list_find_None in Hfind. eapply Forall_impl; [exact Hfind|].
  simpl. intros dep Hdep. by destruct (Plugins.has w dep).
Qed.

(** X8: [use(plugin)] returns normally in exactly two cases: a plugin of
    that name is installed already, or every dependency is installed and
    the install hook, if there is one, does not throw. *)
Theorem use_returns_iff (throws : nat -> bool) (plugin : Plugins.Plugin) (w : Plugins.world) :
  (exists w', Plugins.use throws plugin w = Plugins.Returned w')
  <-> Plugins.has w (Plugins.name plugin) = true
      \/ (Forall (fun dep => Plugins.has w dep = true)
                 (default [] (Plugins.dependencies plugin))
          /\ forall f, Plugins.hooks plugin ≫= Plugins.install = Some f -> throws f = false).
Proof.
  destruct (Plugins.has w (Plugins.name plugin)) eqn:Hhas.
  { split; [by left|]. intros _. unfold Plugins.use. rewrite Hhas. by eexists. }
  split.
  - intros [w' Huse]. right.
    pose proof (use_returned_dependencies throws plugin w w' Hhas Huse) as Hdeps.
    split; [done|]. intros f Hf.
    destruct (use_fresh throws plugin w Hhas Hdeps) as (_ & _ & _ & _ & Hres).
    rewrite Hf, Huse in Hres. by destruct (throws f).
  - intros [[=] | [Hdeps Hinstall]].
    destruct (use_fresh throws plugin w Hhas Hdeps) as (_ & _ & _ & _ & Hres).
    rewrite Hres. destruct (Plugins.hooks plugin ≫= Plugins.install) as [f|];
      [rewrite (Hinstall f eq_refl)|]; by eexists.
Qed.

(** X9: a plugin whose install hook throws is installed all the same:
    [use] throws only after it has entered the plugin in the registry,
    pushed each of its lifecycle hooks onto the end of the list of its
    kind, and registered its provided values, so that [inject] finds
    them; nothing is rolled back, and a second [use] of the plugin only
    warns. *)
Theorem use_install_hook_throws_after_registering
    (throws : nat -> bool) (plugin : Plugins.Plugin) (h : Plugins.PluginHooks)
    (f : nat) (w : Plugins.world) :
  Plugins.has w (Plugins.name plugin) = false ->
  Forall (fun dep => Plugins.has w dep = true) (default [] (Plugins.dependencies plugin)) ->
  NoDup (default [] (Plugins.provides plugin)).*1 ->
  Plugins.hooks plugin = Some h ->
  Plugins.install h = Some f ->
  throws f = true ->
  exists message w',
    Plugins.use throws plugin w = Plugins.Threw message w'
    /\ Plugins.hasPlugin (Plugins.name plugin) w' = true
    /\ Plugins.getPlugin (Plugins.name plugin) w' = Some plugin
    /\ Plugins.hookSubscribers w' = Plugins.registerHooks h (Plugins.hookSubscribers w)
    /\ Plugins.subs_onMount (Plugins.hookSubscribers w')
       = Plugins.subs_onMount (Plugins.hookSubscribers w)
         ++ option_list (Plugins.onMount h)
    /\ Plugins.subs_onUnmount (Plugins.hookSubscribers w')
       = Plugins.subs_onUnmount (Plugins.hookSubscribers w)
         ++ option_list (Plugins.onUnmount h)
    /\ Plugins.subs_beforeStateUpdate (Plugins.hookSubscribers w')
       = Plugins.subs_beforeStateUpdate (Plugins.hookSubscribers w)
         ++ option_list (Plugins.beforeStateUpdate h)
    /\ Plugins.subs_afterStateUpdate (Plugins.hookSubscribers w')
       = Plugins.subs_afterStateUpdate (Plugins.hookSubscribers w)
         ++ option_list (Plugins.afterStateUpdate h)
    /\ (forall k v, (k, v) ∈ default [] (Plugins.provides plugin) ->
          Plugins.inject k w' = Some v)
    /\ (forall k, k ∉ (default [] (Plugins.provides plugin)).*1 ->
          Plugins.inject k w' = Plugins.inject k w)
    /\ Plugins.called w' = Plugins.called w ++ [Plugins.CallInstall f]
    /\ exists w'', Plugins.use throws plugin w'
                   = Plugins.Returned w''.
Proof.
  intros Hfresh Hdeps Hkeys Hhooks Hinstall Hthrows.
  destruct (use_fresh throws plugin w Hfresh Hdeps) as (Hp & Hv & Hh & Hc & Hres).
  rewrite Hhooks in Hh, Hc, Hres. simpl in Hc, Hres.
  rewrite Hinstall in Hc, Hres. rewrite Hthrows in Hres.
  eexists _, _. split; [exact Hres|].
  assert (Hget : Plugins.getPlugin (Plugins.name plugin)
                   (Plugins.after (Plugins.use throws plugin w)) = Some plugin)
    by (unfold Plugins.getPlugin; rewrite Hp; apply lookup_insert_eq).
  assert (Hhas : Plugins.has (Plugins.after (Plugins.use throws plugin w))
                   (Plugins.name plugin) = true).
  { unfold Plugins.has. apply bool_decide_eq_true_2.
    unfold Plugins.getPlugin in Hget. by rewrite Hget. }
  assert (Hpush : forall o l, Plugins.push o l = l ++ option_list o).
  { intros [x|] l; simpl; [done | by rewrite app_nil_r]. }
  split; [exact Hhas|]. split; [exact Hget|]. split; [exact Hh|].
  rewrite Hh. unfold Plugins.registerHooks.
  cbn [Plugins.subs_onMount Plugins.subs_onUnmount Plugins.subs_beforeStateUpdate
       Plugins.subs_afterStateUpdate].
  repeat (split; [apply Hpush|]).
  unfold Plugins.inject. rewrite Hv.
  split; [intros k v Hin; by apply insert_entries_lookup_in|].
  split; [intros k Hk; by apply insert_entries_lookup|].
  split; [exact Hc|].
  unfold Plugins.use at 1. rewrite Hhas. by eexists.
Qed.

Lemma use_install_hook_throws_after_registering_witness :
  exists message w',
    Plugins.use (Nat.eqb 1) Plugins.logger Plugins.initial = Plugins.Threw message w'
    /\ Plugins.getPlugin "logger" w' = Some Plugins.logger
    /\ Plugins.subs_onMount (Plugins.hookSubscribers w') = [2%nat]
    /\ Plugins.inject "log" w' = Some 10%nat
    /\ Plugins.called w' = [Plugins.CallInstall 1]
    /\ exists w'', Plugins.use (Nat.eqb 1) Plugins.logger w' = Plugins.Returned w''.
Proof.
  assert (Hfresh : Plugins.has Plugins.initial (Plugins.name Plugins.logger) = false)
    by (vm_compute; reflexivity).
  assert (Hkeys : NoDup (default [] (Plugins.provides Plugins.logger)).*1)
    by (simpl; apply NoDup_singleton).
  destruct (use_install_hook_throws_after_registering (Nat.eqb 1) Plugins.logger _ 1%nat
              Plugins.initial Hfresh (Forall_nil_2 _) Hkeys eq_refl eq_refl eq_refl)
    as (message & w' & Huse & _ & Hget & _ & Hmount & _ & _ & _ & Hinject & _ & Hcalled
        & Hagain).
  exists message, w'. split; [exact Huse|]. split; [exact Hget|].
  split; [exact Hmount|]. split; [|split; [exact Hcalled | exact Hagain]].
  apply Hinject. simpl. apply list_elem_of_here.
Defined.

(** X10: after a first, successful [use(p)], the registry answers for
    [p]: [hasPlugin] and [getPlugin] find it under its name, [inject]
    gives the value that [p] provides under each of its keys, and keys
    that [p] does not provide answer as before. *)
Theorem use_then_lookup
    (throws : nat -> bool) (p : Plugins.Plugin) (w w1 : Plugins.world) :
  Plugins.has w (Plugins.name p) = false ->
  NoDup (default [] (Plugins.provides p)).*1 ->
  Plugins.use throws p w = Plugins.Returned w1 ->
  Plugins.hasPlugin (Plugins.name p) w1 = true
  /\ Plugins.getPlugin (Plugins.name p) w1 = Some p
  /\ (forall k v, (k, v) ∈ default [] (Plugins.provides p) ->
        Plugins.inject k w1 = Some v)
  /\ (forall k, k ∉ (default [] (Plugins.provides p)).*1 ->
        Plugins.inject k w1 = Plugins.inject k w)
  /\ (forall n, n <> Plugins.name p ->
        Plugins.getPlugin n w1 = Plugins.getPlugin n w).
Proof.
  intros Hfresh Hkeys Huse.
  pose proof (use_returned_dependencies throws p w w1 Hfresh Huse) as Hdeps.
  destruct (use_fresh throws p w Hfresh Hdeps) as (Hp & Hv & _ & _ & _).
  rewrite Huse in Hp, Hv. simpl in Hp, Hv.
  unfold Plugins.hasPlugin, Plugins.has, Plugins.getPlugin, Plugins.inject.
  rewrite Hp, Hv. repeat apply conj.
  - apply bool_decide_eq_true_2. rewrite lookup_insert_eq. by eexists.
  - apply lookup_insert_eq.
  - intros k v Hin. by apply insert_entries_lookup_in.
  - intros k Hk. by apply insert_entries_lookup.
  - intros n Hn. by rewrite lookup_insert_ne.
Qed.

Lemma use_then_lookup_witness :
  Plugins.hasPlugin "logger" Plugins.withLogger = true
  /\ Plugins.inject "log" Plugins.withLogger = Some 10%nat.
Proof.
  assert (Hfresh : Plugins.has Plugins.initial (Plugins.name Plugins.logger) = false)
    by (vm_compute; reflexivity).
  assert (Hkeys : NoDup (default [] (Plugins.provides Plugins.logger)).*1)
    by (simpl; apply NoDup_singleton).
  assert (Huse : Plugins.use Plugins.quiet Plugins.logger Plugins.initial
                 = Plugins.Returned Plugins.withLogger)
    by (vm_compute; reflexivity).
  destruct (use_then_lookup Plugins.quiet Plugins.logger Plugins.initial
              Plugins.withLogger Hfresh Hkeys Huse) as (Hhas & _ & Hinject & _).
  split; [exact Hhas|]. apply Hinject. simpl. apply list_elem_of_here.
Defined.

(** X11: [triggerMount], [triggerUnmount] and [triggerAfterStateUpdate]
    call every subscribed hook once, in the order of registration; a hook
    that throws does not keep the later ones from being called, it only
    adds one error line to the console.  The registry and the subscriber
    lists are not touched. *)
Theorem triggers_call_every_hook
    (throws : nat -> bool) (element : nat) (w : Plugins.world) :
  let subs := Plugins.hookSubscribers w in
  let thrown := fun (l : list nat) => filter (fun hook => throws hook = true) l in
  Plugins.triggerMount throws element w
  = {| Plugins.state := Plugins.state w; Plugins.hookSubscribers := subs;
       Plugins.console :=
         Plugins.console w
         ++ ((fun _ => Plugins.Error "Error in onMount hook:")
             <$> thrown (Plugins.subs_onMount subs));
       Plugins.called :=
         Plugins.called w
         ++ ((fun hook => Plugins.CallMount hook element) <$> Plugins.subs_onMount subs) |}
  /\ Plugins.triggerUnmount throws element w
     = {| Plugins.state := Plugins.state w; Plugins.hookSubscribers := subs;
          Plugins.console :=
            Plugins.console w
            ++ ((fun _ => Plugins.Error "Error in onUnmount hook:")
                <$> thrown (Plugins.subs_onUnmount subs));
          Plugins.called :=
            Plugins.called w
            ++ ((fun hook => Plugins.CallUnmount hook element)
                <$> Plugins.subs_onUnmount subs) |}
  /\ Plugins.triggerAfterStateUpdate throws w
     = {| Plugins.state := Plugins.state w; Plugins.hookSubscribers := subs;
          Plugins.console :=
            Plugins.console w
            ++ ((fun _ => Plugins.Error "Error in afterStateUpdate hook:")
                <$> thrown (Plugins.subs_afterStateUpdate subs));
          Plugins.called :=
            Plugins.called w
            ++ (Plugins.CallAfter <$> Plugins.subs_afterStateUpdate subs) |}.
Proof.
  cbv zeta.
  unfold Plugins.triggerMount, Plugins.triggerUnmount, Plugins.triggerAfterStateUpdate.
  repeat apply conj.
  - apply (guarded_foldl throws "onMount" (fun hook => Plugins.CallMount hook element)).
  - apply (guarded_foldl throws "onUnmount" (fun hook => Plugins.CallUnmount hook element)).
  - apply (guarded_foldl throws "afterStateUpdate" Plugins.CallAfter).
Qed.

(** X12: [applyBeforeStateUpdate] threads the new value through the
    subscribed hooks in the order of registration; a hook that throws is
    called but contributes nothing, the value passes it unchanged.  With
    no hook, or when every hook throws, the result is the new value. *)
Theorem applyBeforeStateUpdate_skips_throwing_hooks
    (throws : nat -> bool) {V : Type} (before : nat -> V -> V -> V)
    (oldValue newValue : V) (w : Plugins.world) :
  let hooks := Plugins.subs_beforeStateUpdate (Plugins.hookSubscribers w) in
  let r := Plugins.applyBeforeStateUpdate throws V before oldValue newValue w in
  r.1 = foldl (fun result hook => before hook oldValue result) newValue
              (filter (fun hook => throws hook = false) hooks)
  /\ Plugins.called r.2 = Plugins.called w ++ (Plugins.CallBefore <$> hooks)
  /\ (Forall (fun hook => throws hook = true) hooks -> r.1 = newValue).
Proof.
  cbv zeta. unfold Plugins.applyBeforeStateUpdate.
  set (step := fun (rw : V * Plugins.world) hook => if throws hook then _ else _).
  assert (Hgen : forall l rw,
             (foldl step rw l).1
             = foldl (fun result hook => before hook oldValue result) rw.1
                     (filter (fun hook => throws hook = false) l)
             /\ Plugins.called (foldl step rw l).2
                = Plugins.called rw.2 ++ (Plugins.CallBefore <$> l)).
  { intros l; induction l as [|h l IH]; intros rw.
    - simpl. by rewrite app_nil_r.
    - cbn [foldl]. destruct (IH (step rw h)) as [-> ->].
      subst step. cbn beta. destruct (throws h) eqn:Hh; cbn [fst snd].
      + rewrite filter_cons_False by congruence.
        unfold Plugins.print, Plugins.record; cbn [Plugins.called].
        by rewrite fmap_cons, <- app_assoc.
      + rewrite filter_cons_True by done.
        unfold Plugins.record; cbn [Plugins.called foldl].
        by rewrite fmap_cons, <- app_assoc. }
  destruct (Hgen (Plugins.subs_beforeStateUpdate (Plugins.hookSubscribers w))
              (newValue, w)) as [Hv Hc].
  repeat apply conj; [exact Hv | exact Hc |].
  intros Hall. rewrite Hv. cbn [fst]. clear Hv Hc.
  induction Hall as [|h l Hh Hall IH]; [done|].
  rewrite filter_cons_False by congruence. exact IH.
Qed.

(** ** Sorting, pages and selection of the table (table.ts) *)


(** X13: with a sort on column [k] whose comparison function is a
    consistent comparator for the rows (on the values of the column,
    [<] is irreflexive and transitive, and so is being neither smaller
    nor larger), the table processes a permutation of the [data] prop in
    which no row comes after a row with a larger value (ascending), or a
    smaller value (descending), in column [k]. *)
Theorem getProcessedData_sorted
    {Row Val : Type} (prop : Row -> string -> Val) (lt : Val -> Val -> bool)
    (props : Table.TableProps) (k : string) (d : Table.Direction) (t : Table.TableState) :
  Table.consistent prop lt props k = true ->
  Table.sortState t = {| Table.key := Some k; Table.direction := Some d |} ->
  k <> EmptyString ->
  let rows := Table.getProcessedData prop lt props t in
  rows ≡ₚ Table.data props
  /\ StronglySorted
       (fun a b => match d with
                   | Table.asc => lt (prop b k) (prop a k) = false
                   | Table.desc => lt (prop a k) (prop b k) = false
                   end) rows.
Proof.
  intros Hcons Hsort Hk. cbv zeta.
  exact (getProcessedData_sortedBy prop lt props k d t Hcons Hsort Hk).
Qed.

Lemma getProcessedData_sorted_witness :
  let rows := Table.getProcessedData Table.property Table.less Table.usersTable
                (Table.toggleSort Table.usersTable "age" Table.initial) in
  rows ≡ₚ Table.users
  /\ StronglySorted
       (fun a b => Table.less (Table.property b "age") (Table.property a "age") = false)
       rows.
Proof.
  apply (getProcessedData_sorted Table.property Table.less Table.usersTable "age"
           Table.asc).
  - reflexivity.
  - reflexivity.
  - discriminate.
Defined.

Lemma chunks_concat {A : Type} (size : nat) (l : list A) (n start : nat) :
  flat_map (fun i => take size (drop (i * size) l)) (seq start n)
  = take (n * size) (drop (start * size) l).
Proof.
  revert start; induction n as [|n IH]; intros start; simpl; [done|].
  rewrite IH. simpl.
  replace (size + start * size)%nat with (start * size + size)%nat by lia.
  rewrite <- drop_drop. apply take_take_drop.
Qed.

Lemma ceil_times (len size : Z) :
  0 < size -> len <= - ((- len) / size) * size.
Proof.
  intros Hs. pose proof (Z.div_mod (- len) size ltac:(lia)) as Hdiv.
  pose proof (Z.mod_pos_bound (- len) size Hs) as Hmod. nia.
Qed.

Lemma below_ceil (len size p : Z) :
  0 < size -> p <= - ((- len) / size) -> (p - 1) * size < len.
Proof.
  intros Hs Hp. pose proof (Z.div_mod (- len) size ltac:(lia)) as Hdiv.
  pose proof (Z.mod_pos_bound (- len) size Hs) as Hmod. nia.
Qed.

(** X14: with pagination on and a positive page size, the pages
    1 .. ceil(n / pageSize) are consecutive windows of the processed
    (sorted) data: put one after the other they give all of it, in order,
    and no page holds more than [pageSize] rows. *)
Theorem pages_partition_processed_data
    {Row Val : Type} (prop : Row -> string -> Val) (lt : Val -> Val -> bool)
    (props : Table.TableProps) (pg : Table.PaginationOptions) (t : Table.TableState) :
  Table.pagination props = Some pg ->
  Table.enabled pg = true ->
  0 < Table.pageSize pg ->
  flat_map (fun i => Table.getPaginatedData prop lt props
                       (Table.withPage (Z.of_nat i + 1) t))
           (seq 0 (Z.to_nat (Table.totalPages props pg)))
  = Table.getProcessedData prop lt props t
  /\ forall n, 1 <= n ->
       Z.of_nat (length (Table.getPaginatedData prop lt props (Table.withPage n t)))
       <= Table.pageSize pg.
Proof.
  intros Hpg Hen Hsize. split.
  - erewrite flat_map_ext.
    2:{ intros i. rewrite (getPaginatedData_window prop lt props pg) by (simpl; done || lia).
        cbn [Table.withPage Table.currentPage].
        replace (Z.to_nat (Z.of_nat i + 1 - 1)) with i by lia.
        change (Table.getProcessedData prop lt props (Table.withPage (Z.of_nat i + 1) t))
          with (Table.getProcessedData prop lt props t).
        reflexivity. }
    rewrite chunks_concat. simpl. rewrite drop_0. apply take_ge.
    rewrite getProcessedData_length. unfold Table.totalPages.
    pose proof (ceil_times (Z.of_nat (length (Table.data props))) (Table.pageSize pg) Hsize).
    nia.
  - intros n Hn.
    rewrite (getPaginatedData_window prop lt props pg) by (simpl; done || lia).
    rewrite length_take. lia.
Qed.

Lemma pages_partition_processed_data_witness :
  flat_map (fun i => Table.getPaginatedData Table.property Table.less Table.usersTable
                       (Table.withPage (Z.of_nat i + 1)
                          (Table.toggleSort Table.usersTable "age" Table.initial)))
           (seq 0 2)
  = Table.getProcessedData Table.property Table.less Table.usersTable
      (Table.toggleSort Table.usersTable "age" Table.initial).
Proof.
  exact (proj1 (pages_partition_processed_data Table.property Table.less Table.usersTable
                  {| Table.enabled := true; Table.pageSize := 3 |}
                  (Table.toggleSort Table.usersTable "age" Table.initial)
                  eq_refl eq_refl eq_refl)).
Defined.

(** X15: starting from page 1, whatever sequence of clicks on the two
    page buttons is made, the current page stays between 1 and the
    number of pages, and when the table has rows the page shown is never
    empty. *)
Theorem page_buttons_stay_in_range
    {Row Val : Type} (prop : Row -> string -> Val) (lt : Val -> Val -> bool)
    (props : Table.TableProps) (pg : Table.PaginationOptions)
    (t : Table.TableState) (clicks : list bool) :
  Table.pagination props = Some pg ->
  Table.enabled pg = true ->
  0 < Table.pageSize pg ->
  Table.currentPage t = 1 ->
  Table.data props <> [] ->
  let t' := foldl (fun t next => if next : bool then Table.nextPage props t
                                 else Table.previousPage props t) t clicks in
  1 <= Table.currentPage t' <= Table.totalPages props pg
  /\ Table.getPaginatedData prop lt props t' <> [].
Proof.
  intros Hpg Hen Hsize Hstart Hdata. cbv zeta.
  assert (Htotal : 1 <= Table.totalPages props pg).
  { unfold Table.totalPages.
    destruct (Table.data props) as [|r rows]; [done|].
    pose proof (ceil_times (Z.of_nat (length (r :: rows))) (Table.pageSize pg) Hsize).
    simpl length in *. nia. }
  assert (Hrange : 1 <= Table.currentPage
                          (foldl (fun t next => if next : bool then Table.nextPage props t
                                                else Table.previousPage props t) t clicks)
                   <= Table.totalPages props pg).
  { assert (Hinv : 1 <= Table.currentPage t <= Table.totalPages props pg) by lia.
    clear Hstart. revert t Hinv.
    induction clicks as [|c clicks IH]; intros t Hinv; [done|].
    cbn [foldl]. apply IH.
    destruct c; unfold Table.nextPage, Table.previousPage; rewrite Hpg, Hen; simpl.
    - destruct (Z.ltb_spec (Table.currentPage t) (Table.totalPages props pg));
        simpl; lia.
    - destruct (Z.ltb_spec 1 (Table.currentPage t)); simpl; lia. }
  split; [exact Hrange|].
  rewrite (getPaginatedData_window prop lt props pg) by (done || lia).
  set (t' := foldl _ t clicks) in *.
  intros Hempty. apply (f_equal length) in Hempty.
  rewrite length_take, length_drop, getProcessedData_length in Hempty. simpl in Hempty.
  pose proof (below_ceil (Z.of_nat (length (Table.data props))) (Table.pageSize pg)
                (Table.currentPage t') Hsize (proj2 Hrange)) as Hbelow.
  nia.
Qed.

Lemma page_buttons_stay_in_range_witness :
  let t' := foldl (fun t next => if next : bool then Table.nextPage Table.usersTable t
                                 else Table.previousPage Table.usersTable t)
                  Table.initial [true; true; true; false; false; false; true] in
  1 <= Table.currentPage t'
    <= Table.totalPages Table.usersTable {| Table.enabled := true; Table.pageSize := 3 |}
  /\ Table.getPaginatedData Table.property Table.less Table.usersTable t' <> [].
Proof.
  apply (page_buttons_stay_in_range Table.property Table.less Table.usersTable
           {| Table.enabled := true; Table.pageSize := 3 |} Table.initial);
    try reflexivity; discriminate.
Defined.

(** X16: [toggleSelection(k)] flips whether [k] is selected and changes
    nothing else: the other keys keep their membership, sort state and
    page stay, and toggling a key that was not selected twice gives back
    the selection as it was.  [toggleAllSelection] clears the selection
    when every row key is selected (also when there are no rows), and
    otherwise selects exactly the row keys. *)
Theorem selection_toggles
    {Row : Type} (props : @Table.TableProps Row) (rowKey : Row -> nat -> Z)
    (k : Z) (t : Table.TableState) :
  let t1 := Table.toggleSelection k t in
  let keys := imap (fun i row => rowKey row i) (Table.data props) in
  (k ∈ Table.selectedKeys t1 <-> k ∉ Table.selectedKeys t)
  /\ (forall j, j <> k -> (j ∈ Table.selectedKeys t1 <-> j ∈ Table.selectedKeys t))
  /\ Table.sortState t1 = Table.sortState t
  /\ Table.currentPage t1 = Table.currentPage t
  /\ (k ∉ Table.selectedKeys t -> Table.toggleSelection k t1 = t)
  /\ Table.selectedKeys (Table.toggleAllSelection props rowKey t)
     = (if bool_decide (keys ⊆ Table.selectedKeys t) then [] else keys).
Proof.
  cbv zeta. unfold Table.toggleSelection, Table.withSelection.
  cbn [Table.selectedKeys Table.sortState Table.currentPage].
  split; [|split; [|split; [reflexivity|split; [reflexivity|split]]]].
  - case_bool_decide as Hin.
    + rewrite list_elem_of_filter. split; [intros [Hne _]; by destruct Hne | done].
    + rewrite elem_of_app, list_elem_of_singleton. split; [done | by right].
  - intros j Hj. case_bool_decide as Hin.
    + rewrite list_elem_of_filter. tauto.
    + rewrite elem_of_app, list_elem_of_singleton. tauto.
  - intros Hout. rewrite (bool_decide_eq_false_2 _ Hout).
    rewrite bool_decide_eq_true_2 by (apply elem_of_app; right; apply list_elem_of_here).
    rewrite filter_app, filter_cons_False, filter_nil, app_nil_r by (intros H; by apply H).
    assert (filter (fun x => x <> k) (Table.selectedKeys t) = Table.selectedKeys t) as ->.
    { induction (Table.selectedKeys t) as [|x l IH]; [done|].
      apply not_elem_of_cons in Hout as [Hne Hout].
      rewrite filter_cons_True by congruence. by rewrite IH. }
    by destruct t.
  - unfold Table.toggleAllSelection, Table.withSelection. cbn [Table.selectedKeys].
    set (keys := imap _ _).
    assert (forallb (fun k0 => bool_decide (k0 ∈ Table.selectedKeys t)) keys
            = bool_decide (keys ⊆ Table.selectedKeys t)) as ->; [|done].
    apply eq_true_iff_eq. rewrite forallb_forall, bool_decide_eq_true.
    split.
    + intros H x Hx. apply list_elem_of_In in Hx.
      specialize (H x Hx). by apply bool_decide_eq_true in H.
    + intros H x Hx. apply bool_decide_eq_true, H. by apply list_elem_of_In.
Qed.

(** ** Field and form state (form validation) *)

Section FieldFacts.
Import Validation.

Lemma updateState_settled (v : string) (f : FieldValidator) :
  truthful (Field.updateState v f)
  /\ value (state (Field.updateState v f)) = v
  /\ fieldRules (Field.updateState v f) = fieldRules f
  /\ validateOnChange (Field.updateState v f) = validateOnChange f.
Proof.
  unfold truthful, Field.updateState, Field.results; simpl.
  fold (failures (fieldRules f) v). rewrite no_failures_passes.
  repeat apply conj; try done. by right.
Qed.

Lemma fieldStep_settled (f : FieldValidator) (c : fieldCall) :
  validateOnChange f = true ->
  truthful f ->
  truthful (fieldStep f c)
  /\ validateOnChange (fieldStep f c) = true
  /\ fieldRules (fieldStep f c) = fieldRules f.
Proof.
  intros Hchange Hf. destruct c as [v| | |]; cbn [fieldStep].
  - unfold Field.setValue. rewrite Hchange.
    destruct (updateState_settled v f) as (H & _ & Hr & Hc). rewrite Hc. done.
  - unfold Field.touch.
    destruct (validateOnBlur f && negb (dirty (state f))) eqn:Hblur.
    + destruct (updateState_settled (value (state f)) (Field.setTouched f))
        as (H & _ & Hr & Hc). rewrite Hc. done.
    + split; [exact Hf | done].
  - destruct (field_validate_state f) as (Hs & Hr & _).
    split; [|split; [|exact Hr]].
    + right. rewrite Hs, Hr. done.
    + exact Hchange.
  - split; [|done]. left. done.
Qed.
End FieldFacts.

(** X17: a field validator that validates on change (the default, and
    what [createForm] builds) never shows stale errors: after any
    sequence of [setValue], [touch], [validate] and [reset] calls, either
    the field is as created (empty value, valid, no errors), or [valid]
    and [errors] are those of its rules at its current value. *)
Theorem field_errors_never_stale
    (fieldRules : list Validation.ValidationRule) (onBlur : option bool)
    (calls : list Validation.fieldCall) :
  let f := foldl Validation.fieldStep
                 (Validation.Field.createFieldValidator fieldRules None onBlur) calls in
  Validation.fieldRules f = fieldRules
  /\ Validation.truthful f.
Proof.
  cbv zeta.
  assert (H : forall f,
             Validation.validateOnChange f = true ->
             Validation.truthful f ->
             Validation.truthful (foldl Validation.fieldStep f calls)
             /\ Validation.fieldRules (foldl Validation.fieldStep f calls)
                = Validation.fieldRules f).
  { induction calls as [|c calls IH]; intros f Hc Hf; [done|].
    cbn [foldl]. destruct (fieldStep_settled f c Hc Hf) as (Hf' & Hc' & Hr').
    destruct (IH _ Hc' Hf') as [Ht Hr]. by rewrite Hr. }
  destruct (H (Validation.Field.createFieldValidator fieldRules None onBlur))
    as [Ht Hr]; [done | by left | by split].
Qed.

Section FormExtras.
Import Validation.

Lemma lookupField_fmap (g : FieldValidator -> FieldValidator) (n : string)
    (fs : list (string * FieldValidator)) :
  lookupField n ((fun entry => (entry.1, g entry.2)) <$> fs) = g <$> lookupField n fs.
Proof.
  induction fs as [|[m f] fs IH]; [done|].
  rewrite fmap_cons. cbn [lookupField fst snd]. case_bool_decide; [done | exact IH].
Qed.

Lemma lookupField_setValue (n m v : string) (fs : list (string * FieldValidator)) :
  lookupField m ((fun entry => if bool_decide (entry.1 = n)
                               then (entry.1, Field.setValue v entry.2)
                               else entry) <$> fs)
  = if bool_decide (m = n) then Field.setValue v <$> lookupField m fs
    else lookupField m fs.
Proof.
  induction fs as [|[k f] fs IH]; [by case_bool_decide|].
  rewrite fmap_cons. cbn [fst snd].
  destruct (decide (k = n)) as [-> | Hkn].
  - rewrite bool_decide_eq_true_2 by done. cbn [lookupField fst snd].
    destruct (decide (n = m)) as [-> | Hnm].
    + by rewrite !bool_decide_eq_true_2.
    + rewrite (bool_decide_eq_false_2 (n = m)) by done. exact IH.
  - rewrite (bool_decide_eq_false_2 (k = n)) by done. cbn [lookupField].
    destruct (decide (k = m)) as [-> | Hkm].
    + rewrite bool_decide_eq_true_2 by done. by rewrite bool_decide_eq_false_2.
    + rewrite (bool_decide_eq_false_2 (k = m)) by done. exact IH.
Qed.

Lemma setValue_value (v : string) (f : FieldValidator) :
  value (state (Field.setValue v f)) = v.
Proof. unfold Field.setValue. by destruct (validateOnChange f). Qed.
End FormExtras.



(** X19: a form reports itself valid until something validates it: right
    after [createForm] with no initial values, [isValid()] is true
    whatever the rules are, every value is empty and nothing is being
    submitted.  After [validate()], [isValid()] is what [validate()]
    returned, and validating again gives the same result and state. *)
Theorem form_isValid_before_and_after_validate
    (config : Validation.FormConfig) (f : Validation.Form) :
  (Forall (fun entry => Validation.initialValue entry.2 = None) config ->
   Validation.isValid (Validation.createForm config) = true
   /\ Validation.getValues (Validation.createForm config)
      = (fun entry => (entry.1, EmptyString)) <$> config
   /\ Validation.isSubmitting (Validation.createForm config) = false)
  /\ Validation.isValid (Validation.validate f).2 = (Validation.validate f).1
  /\ Validation.validate (Validation.validate f).2 = Validation.validate f.
Proof.
  split; [|split].
  - intros Hnone. split; [|split; [|reflexivity]].
    + unfold Validation.isValid, Validation.createForm. cbn [Validation.fields].
      induction Hnone as [|[n fc] config Hfc Hnone IH]; [done|].
      rewrite fmap_cons. cbn [forallb fst snd]. simpl in Hfc. rewrite Hfc.
      cbn. exact IH.
    + unfold Validation.getValues, Validation.createForm.
      cbn [Validation.fields Validation.config].
      assert (Hlook : forall (c' : Validation.FormConfig) n field,
                 Forall (fun entry => Validation.initialValue entry.2 = None) c' ->
                 Validation.lookupField n
                   ((fun entry =>
                       let field := Validation.Field.createFieldValidator
                                      (Validation.rules_ entry.2) None None in
                       (entry.1,
                        match Validation.initialValue entry.2 with
                        | Some v => if bool_decide (v = EmptyString) then field
                                    else Validation.Field.setValue v field
                        | None => field
                        end)) <$> c') = Some field ->
                 Validation.value (Validation.state field) = EmptyString).
      { intros c' n field Hc'. induction Hc' as [|[m fc] c' Hfc Hc' IH]; [done|].
        rewrite fmap_cons. cbn [Validation.lookupField fst snd]. simpl in Hfc.
        rewrite Hfc. case_bool_decide; [by intros [= <-] | exact IH]. }
      apply list_fmap_ext. intros i entry Hentry. f_equal.
      destruct (Validation.lookupField entry.1 _) as [field|] eqn:Hfield; [|done].
      by eapply Hlook.
  - unfold Validation.validate, Validation.isValid. cbn [fst snd Validation.fields].
    rewrite validateAll_fields, validateAll_result. cbn [andb].
    induction (Validation.fields f) as [|[n field] fs IH]; [done|].
    rewrite fmap_cons. cbn [forallb fst snd]. by rewrite IH.
  - unfold Validation.validate. cbn [fst snd Validation.fields Validation.config
                                      Validation.submitting].
    rewrite !validateAll_fields, !validateAll_result. cbn [andb].
    assert (Hidem : forall field,
               Validation.Field.validate (Validation.Field.validate field).2
               = Validation.Field.validate field).
    { intros field. unfold Validation.Field.validate, Validation.Field.setTouched,
        Validation.Field.updateState, Validation.Field.results, Validation.withState.
      reflexivity. }
    f_equal; [|f_equal].
    + induction (Validation.fields f) as [|[n field] fs IH]; [done|].
      rewrite fmap_cons. cbn [forallb fst snd]. by rewrite IH, Hidem.
    + rewrite <- list_fmap_compose. apply list_fmap_ext. intros i [n field] _.
      cbn [compose fst snd]. by rewrite Hidem.
Qed.

Lemma form_isValid_before_and_after_validate_witness :
  Validation.isValid Validation.signup = true
  /\ (Validation.validate Validation.signup).1 = false
  /\ Validation.isValid (Validation.validate Validation.signup).2 = false.
Proof.
  destruct (form_isValid_before_and_after_validate
              [ ("name", {| Validation.rules_ :=
                              [Validation.rules.required "This field is required"];
                            Validation.initialValue := None |});
                ("password",
                 {| Validation.rules_ :=
                      [Validation.rules.required "This field is required";
                       Validation.rules.minLength 8 "Must be at least 8 characters"];
                    Validation.initialValue := None |}) ]
              Validation.signup) as (Hfresh & Hafter & _).
  split; [|split; [reflexivity|]].
  - apply Hfresh. repeat constructor.
  - rewrite Hafter. reflexivity.
Defined.


Section ModalFacts.
Import Modal.

Lemma filter_ne_fresh {A : Type} `{EqDecision A} (x : A) (l : list A) :
  x ∉ l -> filter (fun y => y ≠ x) (l ++ [x]) = l.
Proof.
  intros Hx. rewrite filter_app, filter_cons_False, filter_nil, app_nil_r by (by intros ?).
  induction l as [|y l IH]; [done|].
  apply not_elem_of_cons in Hx as [Hne Hx].
  rewrite filter_cons_True by done. by rewrite IH.
Qed.

Lemma openModal_idle (p : ModalProps) (w : world) :
  activeModal w = None ->
  let k := length (instances w) in
  openModal p w
  = {| bodyChildren := bodyChildren w ++ [Backdrop k];
       closing := closing w;
       overflow := "hidden";
       escapeListeners := if default true (closeOnEscape p)
                          then escapeListeners w ++ [k]
                          else escapeListeners w;
       trapListeners := trapListeners w ++ [k];
       activeElement := if Nat.ltb 0 (focusableCount p) then Focusable k 0
                        else activeElement w;
       activeModal := Some k;
       instances := instances w ++ [{| props := p;
                                       originalOverflow := overflow w;
                                       previouslyFocused := activeElement w |}];
       timers := timers w;
       closedCalls := closedCalls w |}.
Proof.
  intros Hidle k. unfold openModal, isModalOpen. rewrite Hidle.
  rewrite bool_decide_eq_false_2 by (by intros [? ?]). fold k.
  destruct (Nat.ltb 0 (focusableCount p)); [|reflexivity].
  unfold focus. cbn [bodyChildren].
  rewrite bool_decide_eq_true_2; [reflexivity|].
  apply elem_of_app. right. apply list_elem_of_here.
Qed.

(** X21: opening a modal on a page without one and closing it again with
    [closeModal] leaves the document as it was once the 200 ms timer has
    run: the backdrop is gone, the body's overflow style, the Escape and
    focus-trap listeners and the focused element are those from before,
    no modal is active and no [onClose] callback has been called. *)
Theorem open_close_restores_document (p : ModalProps) (w : world) :
  activeModal w = None -> timers w = [] -> fresh w -> focusAttached w ->
  let w' := elapse (closeModal (openModal p w)) in
  bodyChildren w' = bodyChildren w
  /\ overflow w' = overflow w
  /\ escapeListeners w' = escapeListeners w
  /\ trapListeners w' = trapListeners w
  /\ activeElement w' = activeElement w
  /\ isModalOpen w' = false
  /\ timers w' = []
  /\ closedCalls w' = closedCalls w.
Proof.
  intros Hidle Htimers (Hb & He & Ht & Ha) Hatt w'. subst w'.
  rewrite (openModal_idle p w Hidle). cbv zeta.
  unfold focusAttached in Hatt.
  set (k := length (instances w)) in *.
  unfold closeModal, startClosing, elapse.
  cbn [activeModal timers bodyChildren closing overflow escapeListeners trapListeners
       activeElement instances closedCalls].
  rewrite Htimers. cbn [app foldl]. unfold fire. cbn [activeModal]. unfold cleanup.
  cbn [instances].
  assert (Hlook : forall inst : instance, (instances w ++ [inst]) !! k = Some inst).
  { intros inst. unfold k. by rewrite lookup_app_r, Nat.sub_diag by lia. }
  rewrite Hlook.
  cbn [lookup list_lookup props originalOverflow previouslyFocused bodyChildren closing
       overflow escapeListeners trapListeners activeElement instances closedCalls timers
       activeModal].
  fold k.
  assert (Hesc : (if default true (closeOnEscape p)
                  then filter (fun j => j ≠ k)
                         (if default true (closeOnEscape p)
                          then escapeListeners w ++ [k] else escapeListeners w)
                  else if default true (closeOnEscape p)
                       then escapeListeners w ++ [k] else escapeListeners w)
                 = escapeListeners w).
  { destruct (default true (closeOnEscape p)); [by apply filter_ne_fresh | done]. }
  rewrite Hesc.
  assert (Hbody : filter (fun n => n ≠ Backdrop k) (bodyChildren w ++ [Backdrop k])
                  = bodyChildren w) by (by apply filter_ne_fresh).
  assert (Htrap : filter (fun j => j ≠ k) (trapListeners w ++ [k]) = trapListeners w)
    by (by apply filter_ne_fresh).
  destruct (activeElement w) as [|n|j|j|j i] eqn:Hact.
  - unfold focus. cbn [bodyChildren closing overflow escapeListeners trapListeners
       activeElement instances closedCalls timers activeModal removeBackdrop].
    rewrite Hbody, Htrap. unfold isModalOpen. cbn [activeModal].
    repeat apply conj; try reflexivity.
    destruct (Nat.ltb 0 (focusableCount p)); [|done].
    by rewrite bool_decide_eq_true_2.
  - unfold focus. cbn [bodyChildren closing overflow escapeListeners trapListeners
       activeElement instances closedCalls timers activeModal removeBackdrop].
    rewrite Hbody, Htrap. unfold isModalOpen. cbn [activeModal].
    repeat apply conj; reflexivity.
  - done.
  - done.
  - assert (Hjk : j ≠ k) by (intros ->; by apply (Ha i)).
    unfold focus. cbn [bodyChildren closing overflow escapeListeners trapListeners
       activeElement instances closedCalls timers activeModal removeBackdrop].
    rewrite bool_decide_eq_true_2 by (apply elem_of_app; by left).
    cbn [bodyChildren closing overflow escapeListeners trapListeners
       activeElement instances closedCalls timers activeModal removeBackdrop].
    rewrite Hbody, Htrap. unfold isModalOpen. cbn [activeModal].
    repeat apply conj; try reflexivity.
    by rewrite bool_decide_eq_false_2.
Qed.

Lemma open_close_restores_document_witness :
  let w' := elapse (closeModal (openModal confirmDialog page)) in
  bodyChildren w' = [] /\ overflow w' = "auto" /\ activeElement w' = Page 0.
Proof.
  assert (Hfresh : fresh page).
  { repeat apply conj; cbn; try apply not_elem_of_nil. done. }
  destruct (open_close_restores_document confirmDialog page eq_refl eq_refl Hfresh I)
    as (Hb & Ho & _ & _ & Ha & _).
  repeat apply conj; assumption.
Defined.

Lemma focus_keeps (t : node) (w : world) :
  bodyChildren (focus t w) = bodyChildren w
  /\ instances (focus t w) = instances w
  /\ timers (focus t w) = timers w
  /\ closedCalls (focus t w) = closedCalls w
  /\ activeModal (focus t w) = activeModal w.
Proof. unfold focus. by destruct (match t with Page _ => _ | _ => _ end). Qed.

Lemma cleanup_fields (k : nat) (w : world) (inst : instance) :
  instances w !! k = Some inst ->
  instances (cleanup k w) = instances w
  /\ timers (cleanup k w) = timers w
  /\ closedCalls (cleanup k w) = closedCalls w
  /\ activeModal (cleanup k w) = None
  /\ Backdrop k ∉ bodyChildren (cleanup k w).
Proof.
  intros Hinst. unfold cleanup. rewrite Hinst.
  cbn [bodyChildren closing overflow escapeListeners trapListeners activeElement
       activeModal instances timers closedCalls removeBackdrop].
  match goal with |- context [focus ?t ?v] =>
    destruct (focus_keeps t v) as (Hb & Hi & Ht & Hc & Hm) end.
  rewrite Hi, Ht, Hc. repeat apply conj; try reflexivity.
  intros Hin. apply list_elem_of_filter in Hin as [Hne _]. by apply Hne.
Qed.

Lemma startClosing_active (t : timer) (j : nat) (w : world) :
  activeModal w = Some j ->
  startClosing t w
  = {| bodyChildren := bodyChildren w; closing := closing w ++ [j];
       overflow := overflow w;
       escapeListeners := escapeListeners w; trapListeners := trapListeners w;
       activeElement := activeElement w; activeModal := Some j;
       instances := instances w; timers := timers w ++ [t];
       closedCalls := closedCalls w |}.
Proof. intros Hj. unfold startClosing. by rewrite Hj. Qed.

Lemma requests_wait (k j n : nat) (w : world) :
  activeModal w = Some j ->
  let w' := Nat.iter n (handleClose k) w in
  timers w' = timers w ++ replicate n (FromHandleClose k)
  /\ activeModal w' = Some j
  /\ instances w' = instances w
  /\ closedCalls w' = closedCalls w.
Proof.
  intros Hj. induction n as [|n IH]; cbv zeta; [|rewrite Nat.iter_succ];
    cbn [replicate].
  - cbn. by rewrite app_nil_r.
  - cbv zeta in IH. set (w0 := Nat.iter n (handleClose k) w) in *.
    destruct IH as (Ht & Hm & Hi & Hc).
    unfold handleClose. rewrite (startClosing_active _ j) by done.
    cbn [timers activeModal instances closedCalls].
    rewrite Ht, Hi, Hc, <- app_assoc. by rewrite <- replicate_cons_app.
Qed.

Lemma requests_fire (k f n : nat) (inst : instance) (w : world) :
  instances w !! k = Some inst -> onClose (props inst) = Some f ->
  activeModal w = Some k \/ (activeModal w = None /\ Backdrop k ∉ bodyChildren w) ->
  let w' := foldl (fun w t => fire t w) w (replicate n (FromHandleClose k)) in
  closedCalls w' = closedCalls w ++ replicate n f
  /\ ((0 < n)%nat -> activeModal w' = None /\ Backdrop k ∉ bodyChildren w').
Proof.
  revert w. induction n as [|n IH]; intros w Hinst Hf Hactive; cbn [replicate foldl].
  - split; [by rewrite app_nil_r | lia].
  - set (w1 := fire (FromHandleClose k) w).
    assert (H1 : instances w1 = instances w
                 /\ closedCalls w1 = closedCalls w ++ [f]
                 /\ activeModal w1 = None /\ Backdrop k ∉ bodyChildren w1).
    { unfold w1, fire. destruct Hactive as [Hk | [Hnone Hgone]].
      - rewrite Hk. destruct (cleanup_fields k w inst Hinst) as (Hi & _ & Hc & Hm & Hb).
        rewrite Hi, Hinst. cbn [mbind option_bind]. rewrite Hf.
        cbn [instances closedCalls activeModal bodyChildren]. by rewrite Hc.
      - rewrite Hnone, Hinst. cbn [mbind option_bind]. rewrite Hf.
        by cbn [instances closedCalls activeModal bodyChildren]. }
    destruct H1 as (Hi1 & Hc1 & Hm1 & Hb1).
    destruct (IH w1) as [Hcalls Hdone].
    + by rewrite Hi1.
    + done.
    + by right.
    + cbv zeta in *. rewrite Hcalls, Hc1, <- app_assoc. split; [done|].
      intros _. destruct n as [|n]; [by cbn | apply Hdone; lia].
Qed.

(** X22: [handleClose] only looks at whether a modal is active, and the
    modal stays active until the first timer runs: [n] close requests
    (Escape, the close button, a backdrop click) made before that call
    the [onClose] callback [n] times, while the modal is cleaned up
    once. *)
Theorem onClose_runs_once_per_request (p : ModalProps) (w : world) (f n : nat) :
  activeModal w = None -> timers w = [] -> onClose p = Some f ->
  let k := length (instances w) in
  let w' := elapse (Nat.iter n (handleClose k) (openModal p w)) in
  closedCalls w' = closedCalls w ++ replicate n f
  /\ ((0 < n)%nat -> isModalOpen w' = false /\ Backdrop k ∉ bodyChildren w').
Proof.
  intros Hidle Htimers Hf k w'. subst w'.
  pose proof (openModal_idle p w Hidle) as Hopen. cbv zeta in Hopen. fold k in Hopen.
  set (w1 := openModal p w) in *.
  assert (Hm1 : activeModal w1 = Some k) by (by rewrite Hopen).
  destruct (requests_wait k k n w1 Hm1) as (Ht & Hm & Hi & Hc).
  unfold elapse. rewrite Ht.
  assert (Ht1 : timers w1 = []) by (by rewrite Hopen).
  rewrite Ht1. cbn [app].
  match goal with |- context [foldl _ ?v _] => set (w2 := v) end.
  destruct (requests_fire k f n
              {| props := p; originalOverflow := overflow w;
                 previouslyFocused := activeElement w |} w2) as [Hcalls Hdone].
  - unfold w2. cbn [instances]. rewrite Hi, Hopen. cbn [instances].
    unfold k. by rewrite lookup_app_r, Nat.sub_diag by lia.
  - done.
  - left. unfold w2. by cbn [activeModal].
  - cbv zeta in *. rewrite Hcalls. unfold w2 at 1. cbn [closedCalls].
    rewrite Hc, Hopen. cbn [closedCalls]. split; [done|].
    intros Hn. destruct (Hdone Hn) as [Hnone Hgone]. split; [|done].
    unfold isModalOpen. rewrite Hnone. apply bool_decide_eq_false_2. by intros [? ?].
Qed.

Lemma onClose_runs_once_per_request_witness :
  let w' := elapse (Nat.iter 2 (handleClose 0) (openModal confirmDialog page)) in
  closedCalls w' = [7; 7]%nat /\ isModalOpen w' = false.
Proof.
  destruct (onClose_runs_once_per_request confirmDialog page 7 2 eq_refl eq_refl eq_refl)
    as [Hcalls Hdone].
  split; [exact Hcalls | apply Hdone; lia].
Defined.
End ModalFacts.

Section CalendarFacts.
Import DatePicker.

Lemma getDate_positive (d : Date) : 1 <= getDate d.
Proof.
  unfold getDate, civil. cbn [fst snd].
  set (z := dayOf d + 719468).
  set (doe := z - z / 146097 * 146097).
  set (yoe := (doe - doe / 1460 + doe / 36524 - doe / 146096) / 365).
  set (doy := doe - (365 * yoe + yoe / 4 - yoe / 100)).
  clearbody doy. clear.
  pose proof (Z.div_mod (5 * doy + 2) 153 ltac:(lia)) as H1.
  pose proof (Z.mod_pos_bound (5 * doy + 2) 153 ltac:(lia)) as H2.
  set (mp := (5 * doy + 2) / 153) in *. clearbody mp.
  pose proof (Z.div_mod (153 * mp + 2) 5 ltac:(lia)) as H3.
  pose proof (Z.mod_pos_bound (153 * mp + 2) 5 ltac:(lia)) as H4.
  lia.
Qed.

Lemma getDay_range (d : Date) : 0 <= getDay d < 7.
Proof. unfold getDay. apply Z.mod_pos_bound. lia. Qed.


(** A view date in February of the year 0: the grid holds the 28 days
    of February 1900. *)
Example year_zero_is_1900 :
  getDaysInMonth 0 1 = 28 /\ getFullYear (newDate 0 1 1) = 1900.
Proof. split; reflexivity. Qed.


Lemma navigate_detached (props : DatePickerProps) (w : Widget) (c : navigation) :
  let w' := navigate props w c in
  daysGridAttached w' = false
  /\ shownGrid w' = (if daysGridAttached w
                     then buildCalendarGrid props (picker w') else shownGrid w)
  /\ monthYearLabel w'
     = (getMonth (viewDate (picker w')), getFullYear (viewDate (picker w'))).
Proof. by destruct c. Qed.

Lemma detached_grid_stays (props : DatePickerProps) (w : Widget) (cs : list navigation) :
  daysGridAttached w = false ->
  monthYearLabel w = (getMonth (viewDate (picker w)), getFullYear (viewDate (picker w))) ->
  let w' := foldl (navigate props) w cs in
  shownGrid w' = shownGrid w
  /\ monthYearLabel w'
     = (getMonth (viewDate (picker w')), getFullYear (viewDate (picker w'))).
Proof.
  revert w. induction cs as [|c cs IH]; intros w Hd Hl; [done|].
  cbn [foldl]. destruct (navigate_detached props w c) as (Hd' & Hg' & Hl').
  rewrite Hd in Hg'. destruct (IH _ Hd' Hl') as [Hshown Hlabel].
  cbv zeta in *. by rewrite Hshown, Hg'.
Qed.

(** X24: [updateCalendar] replaces the element [daysGrid], which is the
    grid built at construction and leaves the document at the first
    replacement.  So after the first click on a month arrow the grid on
    screen is never replaced again, whatever arrows are clicked, while
    the header label keeps following the view date. *)
Theorem calendar_grid_replaced_only_once (props : DatePickerProps)
    (initialValue : option Date) (now : Date) (c : navigation) (cs : list navigation) :
  let first := navigate props (DatePicker props initialValue now) c in
  let w := foldl (navigate props) first cs in
  shownGrid w = buildCalendarGrid props (picker first)
  /\ monthYearLabel w = (getMonth (viewDate (picker w)), getFullYear (viewDate (picker w))).
Proof.
  cbv zeta.
  destruct (navigate_detached props (DatePicker props initialValue now) c)
    as (Hd & Hg & Hl).
  destruct (detached_grid_stays props _ cs Hd Hl) as [Hshown Hlabel].
  cbv zeta in *. by rewrite Hshown, Hg.
Qed.

(** From January 2024, two clicks on the next-month arrow: the label
    says March, the grid is the one of February. *)
Example calendar_grid_stale :
  let w := foldl (navigate holidays) (DatePicker holidays None jan15) [Next; Next] in
  monthYearLabel w = (2, 2024)
  /\ shownGrid w <> buildCalendarGrid holidays (picker w)
  /\ (date <$> shownGrid w) !! 4%nat = Some (newDate 2024 1 1).
Proof.
  cbv zeta. split; [by vm_compute|]. split; [|by vm_compute].
  intros Heq. apply (f_equal length) in Heq. vm_compute in Heq. discriminate.
Qed.

(** X25: the limits are enforced by the day buttons only.  A click on a
    button of the calendar grid either changes nothing, or selects the
    date of the button, which is then not disabled, and closes the
    picker.  The Today button selects the current moment whether it is
    disabled or not, and the Clear button selects nothing. *)
Theorem day_buttons_enforce_limits (props : DatePickerProps) (view s : PickerState)
    (b : DayButton) (todayDate : Date) :
  (b ∈ buildCalendarGrid props view ->
   click props b s = s
   \/ (isDateDisabled (date b) (minDate props) (maxDate props) (disabledDates props) = false
       /\ selectedDate (click props b s) = Some (date b)
       /\ isOpen (click props b s) = false))
  /\ selectedDate (goToToday props todayDate s) = Some todayDate
  /\ selectedDate (clearDate props s) = None.
Proof.
  split; [|done]. intros Hb.
  assert (Hdis : isDisabled b
                 = isDateDisabled (date b) (minDate props) (maxDate props)
                     (disabledDates props)).
  { unfold buildCalendarGrid in Hb.
    repeat (apply elem_of_app in Hb as [Hb | Hb]);
      apply list_elem_of_fmap in Hb as (i & -> & _); reflexivity. }
  unfold click, onClick. rewrite <- Hdis.
  destruct (isDisabled b); [by left | right]. cbn [negb].
  split; [done|]. by destruct (outside b).
Qed.

Lemma day_buttons_enforce_limits_witness :
  let b := currentDayButton holidays (newDate 2024 0 20) in
  selectedDate (click holidays b january) = Some (newDate 2024 0 20)
  /\ selectedDate (goToToday holidays jan15noon january) = Some jan15noon.
Proof.
  cbv zeta.
  destruct (day_buttons_enforce_limits holidays january january
              (currentDayButton holidays (newDate 2024 0 20)) jan15noon)
    as (Hclick & Htoday & _).
  split; [|exact Htoday].
  destruct Hclick as [Hsame | (_ & Hselected & _)].
  - apply (list_elem_of_lookup_2 _ 20%nat). by vm_compute.
  - apply (f_equal selectedDate) in Hsame. vm_compute in Hsame. discriminate.
  - exact Hselected.
Defined.
End CalendarFacts.

Section EventFacts.
Import Events.

Lemma timeout_plain (delay : Z) : plainDelay delay -> timeout delay = delay.
Proof.
  unfold plainDelay, timeout, toInt32. intros Hd.
  rewrite Z.mod_small by lia. lia.
Qed.

Lemma burst_postpones {A : Type} (throws : A -> bool) (delay : Z)
    (calls : list (A * Z)) (d : Debounced A) :
  plainDelay delay ->
  Forall (fun c => 0 <= c.2 < delay) calls ->
  called (foldl (debouncedStep throws delay) d (burst calls)) = called d.
Proof.
  intros Hdelay Hgaps. revert d.
  induction Hgaps as [|[a g] calls Hg Hgaps IH]; intros d; [done|].
  unfold burst. cbn [flat_map app foldl fst snd]. fold (burst calls).
  rewrite IH. cbn [debouncedStep]. unfold debouncedWait, debounced.
  cbn [timer clock called]. cbn [snd] in Hg. rewrite timeout_plain by done.
  destruct (Z.leb_spec (clock d + delay) (clock d + g)); [lia | done].
Qed.

(** X26: whatever happened before, of a burst of calls of a debounced
    function in which each call comes less than [delay] after the one
    before, only the last one is passed on: once [delay] has gone by
    after it, [fn] has been called exactly once more, with the arguments
    of the last call, and no timer is left.  The variable [timeoutId]
    is back to [null] unless that call of [fn] threw.  The delay is one
    that [setTimeout] takes as it is, from 1 to 2^31 - 1. *)
Theorem debounce_runs_last_call_of_burst {A : Type} (throws : A -> bool) (delay : Z)
    (history : list (event A)) (calls : list (A * Z)) (last : A) (rest : Z) :
  plainDelay delay ->
  forward history ->
  Forall (fun c => 0 <= c.2 < delay) calls ->
  delay <= rest ->
  let d := foldl (debouncedStep throws delay) debounce history in
  let d' := foldl (debouncedStep throws delay) d (burst calls ++ [Call last; Wait rest]) in
  called d' = called d ++ [last]
  /\ timer d' = None
  /\ timeoutId d' = throws last.
Proof.
  intros Hdelay _ Hgaps Hrest. cbv zeta.
  set (d := foldl (debouncedStep throws delay) debounce history).
  rewrite foldl_app. cbn [foldl debouncedStep].
  set (d1 := foldl (debouncedStep throws delay) d (burst calls)).
  assert (Hcalled : called d1 = called d) by (by apply burst_postpones).
  unfold debouncedWait, debounced. cbn [timer clock called timeoutId].
  rewrite timeout_plain by done.
  destruct (Z.leb_spec (clock d1 + delay) (clock d1 + rest)); [|lia].
  cbn [called timer timeoutId]. rewrite Hcalled.
  by destruct (throws last).
Qed.

Lemma debounce_runs_last_call_of_burst_witness :
  let d' := foldl (debouncedStep picky 300) debounce
              ([Call "x"; Wait 400]
               ++ burst [("b", 100); ("ba", 250); ("ban", 0)] ++ [Call "band"; Wait 300]) in
  called d' = ["x"; "band"] /\ timer d' = None /\ timeoutId d' = false.
Proof.
  cbv zeta. rewrite foldl_app.
  apply (debounce_runs_last_call_of_burst picky 300 [Call "x"; Wait 400]
           [("b", 100); ("ba", 250); ("ban", 0)] "band" 300).
  - unfold plainDelay. lia.
  - repeat constructor. lia.
  - repeat constructor; cbn; lia.
  - lia.
Defined.

Lemma throttled_invariant {A : Type} (throws : A -> bool) (limit : Z)
    (es : list (event A)) (t : Throttled A) :
  plainDelay limit ->
  forward es ->
  Forall (fun args => throws args = false) (requested es) ->
  StronglySorted (fun x y => x.1 + limit <= y.1) (executed t) ->
  Forall (fun c => c.1 + limit <= default (now t) (inThrottle t)) (executed t) ->
  let t' := foldl (throttledStep throws limit) t es in
  StronglySorted (fun x y => x.1 + limit <= y.1) (executed t')
  /\ exists new, executed t' = executed t ++ new /\ new.*2 `sublist_of` requested es.
Proof.
  intros Hlimit Hforward. revert t.
  induction Hforward as [|e es He Hforward IH]; intros t Hreturns Hsorted Hflag.
  - cbn. split; [done|]. exists []. by rewrite app_nil_r.
  - cbn [foldl]. destruct e as [args | ms]; cbn [throttledStep].
    + unfold requested in Hreturns. cbn [omap] in Hreturns.
      apply Forall_cons in Hreturns as [Hargs Hreturns].
      unfold throttled. destruct (inThrottle t) as [due|] eqn:Hin.
      * destruct (IH t Hreturns Hsorted) as (Hs & new & Hnew & Hsub).
        { by rewrite Hin. }
        split; [done|]. exists new. split; [done|].
        unfold requested. cbn [omap]. by apply sublist_cons.
      * rewrite Hargs, timeout_plain by done.
        set (t1 := {| now := now t; inThrottle := Some (now t + limit);
                      executed := executed t ++ [(now t, args)] |}).
        simpl in Hflag.
        destruct (IH t1 Hreturns) as (Hs & new & Hnew & Hsub).
        { unfold t1. cbn [executed]. clear -Hsorted Hflag.
          induction Hsorted as [|c l Hsorted IHs Hc]; cbn [app].
          - repeat constructor.
          - apply Forall_cons in Hflag as [Hc' Hflag].
            constructor; [by apply IHs|].
            apply Forall_app. split; [done|]. by repeat constructor. }
        { unfold t1. cbn [inThrottle now executed from_option id]. apply Forall_app. split.
          - eapply Forall_impl; [exact Hflag|]. cbn. unfold plainDelay in Hlimit.
            intros; lia.
          - repeat constructor. cbn. lia. }
        split; [done|]. exists ((now t, args) :: new). split.
        -- rewrite Hnew. unfold t1. cbn [executed]. by rewrite <- app_assoc.
        -- unfold requested. cbn [omap fmap list_fmap snd]. by apply sublist_skip.
    + cbn in He.
      set (t1 := throttledWait ms t).
      destruct (IH t1) as (Hs & new & Hnew & Hsub).
      { done. }
      { done. }
      { unfold t1, throttledWait. cbn [inThrottle now executed].
        eapply Forall_impl; [exact Hflag|]. cbn. intros c Hc.
        destruct (inThrottle t) as [due|]; simpl in *.
        - destruct (Z.leb_spec due (now t + ms)); simpl; lia.
        - lia. }
      split; [done|]. exists new. split; [done|].
      unfold requested. by cbn [omap].
Qed.

Lemma throttled_first {A : Type} (throws : A -> bool) (limit : Z)
    (es : list (event A)) (t : Throttled A) :
  let t' := foldl (throttledStep throws limit) t es in
  (exists new, executed t' = executed t ++ new)
  /\ (inThrottle t = None -> executed t = [] ->
      head (executed t').*2 = head (requested es)).
Proof.
  revert t. induction es as [|e es IH]; intros t; cbn [foldl].
  - split; [exists []; by rewrite app_nil_r|]. by intros _ ->.
  - destruct e as [args | ms]; cbn [throttledStep].
    + destruct (IH (throttled throws limit args t)) as [[new Hnew] _]. cbv zeta in *.
      split.
      * rewrite Hnew. unfold throttled. destruct (inThrottle t); [by exists new|].
        cbn [executed]. exists ((now t, args) :: new). by rewrite <- app_assoc.
      * intros Hflag Hnone. rewrite Hnew. unfold throttled. rewrite Hflag, Hnone.
        reflexivity.
    + destruct (IH (throttledWait ms t)) as [[new Hnew] Hhead]. cbv zeta in *.
      split; [by exists new|].
      intros Hflag Hnone. apply Hhead; unfold throttledWait; cbn [inThrottle executed].
      * by rewrite Hflag.
      * done.
Qed.

(** X27: a throttled function whose [fn] does not throw passes a call
    on only when none was passed on during the last [limit]
    milliseconds: the calls of [fn] are at least [limit] apart and are
    some of the requested calls, in their order, starting with the
    first; the others are dropped and not made later.  The limit is one
    that [setTimeout] takes as it is, from 1 to 2^31 - 1. *)
Theorem throttle_spaces_calls {A : Type} (throws : A -> bool) (limit : Z)
    (es : list (event A)) :
  plainDelay limit ->
  forward es ->
  Forall (fun args => throws args = false) (requested es) ->
  let t := foldl (throttledStep throws limit) throttle es in
  StronglySorted (fun x y => x.1 + limit <= y.1) (executed t)
  /\ (executed t).*2 `sublist_of` requested es
  /\ head (executed t).*2 = head (requested es).
Proof.
  intros Hlimit Hforward Hreturns. cbv zeta.
  destruct (throttled_invariant throws limit es throttle Hlimit Hforward Hreturns)
    as (Hs & new & Hnew & Hsub).
  { constructor. }
  { constructor. }
  cbv zeta in *. cbn [executed throttle app] in Hnew.
  split; [done|]. split; [by rewrite Hnew|].
  by apply (throttled_first throws limit es throttle).
Qed.

Lemma throttle_spaces_calls_witness :
  let t := foldl (throttledStep picky 100) throttle
             [Call "a"; Wait 40; Call "b"; Wait 60; Call "c"] in
  executed t = [(0, "a"); (100, "c")]
  /\ StronglySorted (fun x y => x.1 + 100 <= y.1) (executed t).
Proof.
  cbv zeta. split; [reflexivity|].
  apply (throttle_spaces_calls picky 100 [Call "a"; Wait 40; Call "b"; Wait 60; Call "c"]).
  - unfold plainDelay. lia.
  - repeat constructor; lia.
  - repeat constructor.
Defined.

(** A delay of 2^31 does not wait at all. *)
Example timeout_wraps : timeout 2147483648 = 0 /\ timeout 2147483647 = 2147483647.
Proof. split; reflexivity. Qed.

(** When [fn] throws, the flag is not set: the next call is passed on
    at once. *)
Example throttle_after_throw :
  executed (foldl (throttledStep picky 100) throttle [Call ""; Call "a"; Call "b"])
  = [(0, ""); (0, "a")].
Proof. reflexivity. Qed.
End EventFacts.